(** * Roll analysis and critical-damage derivation (scripts/utils/utils.js)

    A shallow embedding of [Utils.processRoll], [Utils.eventToAdvantage],
    [Utils.getRollState], [Utils.findD20Term], [Utils.parseD20Formula],
    [ItemUtils.getBaseCritRoll] and [ItemUtils.getCritRoll], and of
    [Utils.getRollFlavors], [Utils.getWhisperData], [Utils.playDiceSound],
    [ActorUtils.getCritThreshold], [ItemUtils.getCritThreshold] and
    [ItemUtils.createFlags].

    JavaScript numbers are integers ([Z]); a value that may be [null] or
    [undefined] is an [option]; strings are sequences of code units below
    256.  A thrown exception is an explicit outcome ([Threw]). *)

From Stdlib Require Import ZArith List String Ascii Bool Lia.
From Stdlib Require Import Numbers.DecimalString Numbers.DecimalZ.
From Stdlib Require Import Sorting.Permutation.
Import ListNotations.

#[local] Set Warnings "-register-all".

Open Scope string_scope.
Open Scope list_scope.
Open Scope Z_scope.

(** ** JavaScript values and control *)

(** The outcome of a call: a returned value or a thrown exception. *)
Inductive js (A : Type) : Type :=
| Ret (a : A)
| Threw.
Arguments Ret {A} a.
Arguments Threw {A}.

Definition js_bind {A B : Type} (m : js A) (k : A -> js B) : js B :=
  match m with
  | Ret a => k a
  | Threw => Threw
  end.

Notation "x <- m ;; k" := (js_bind m (fun x => k))
  (at level 61, m at next level, right associativity).

(** A reference that is [null], [undefined] or an object. *)
Inductive ref (A : Type) : Type :=
| Null
| Undefined
| Obj (a : A).
Arguments Null {A}.
Arguments Undefined {A}.
Arguments Obj {A} a.

(** A flag as callers pass it: absent, a boolean or a number. *)
Inductive flag : Type :=
| FNull
| FBool (b : bool)
| FNum (n : Z).

Definition truthy_flag (f : flag) : bool :=
  match f with
  | FNull => false
  | FBool b => b
  | FNum n => negb (n =? 0)
  end.

(** Truthiness of a string that may be null: non-empty strings only. *)
Definition truthy_str (s : option string) : bool :=
  match s with
  | Some (String _ _) => true
  | _ => false
  end.

(** [Array.prototype.includes] on an array of numbers. *)
Definition includes (x : Z) (l : list Z) : bool := existsb (Z.eqb x) l.

(** [Array.prototype.includes] on an array of strings. *)
Definition includes_str (x : string) (l : list string) : bool :=
  existsb (String.eqb x) l.

(** ** Data model *)

(** One die outcome inside a dice term. *)
Record DieResult : Type := mkResult {
  result : Z;
  rerolled : bool;
  discarded : bool
}.

(** The [options] object of a term; only [flavor] is read. *)
Record Options : Type := mkOptions {
  flavor : option string
}.

Definition no_options : Options := mkOptions None.

(** The fields of a dice term. *)
Record Die : Type := mkDie {
  number : Z;
  faces : Z;
  modifiers : list string;
  results : list DieResult;
  options : Options
}.

(** A term of an expression, as the source reads it.  A flat number and
    an operator carry no [options] that the source reads; whether the host
    keeps a flat number among the terms as a JavaScript number or as a term
    object is a property of the host (see [primitive_numbers] below).  A
    [PoolTerm] stands for every object
    that carries nested terms: a pool, a parenthetical group or a nested
    roll; its children are in [terms], in [rolls], or in both. *)
Inductive Term : Type :=
| DiceTerm (d : Die)
| OperatorTerm (operator : string)
| NumericTerm (n : Z)
| PoolTerm (terms : option (list Term)) (rolls : option (list Term))
           (pool_modifiers : list string).

(** An expression ([Roll]).  [total] is [None] until the roll is
    evaluated. *)
Record Roll : Type := mkRoll {
  roll_terms : list Term;
  _formula : option string;
  total : option Z;
  ignored : bool;
  _evaluated : bool
}.

(** The roll state strings of fields.js. *)
Definition highest : string := "highest".
Definition lowest : string := "lowest".

(** ** Utils.processRoll *)

(** Modelled from the spec: the host getter [roll.dice], every dice term of
    the expression, nested ones included, in order. *)
Fixpoint term_dice (t : Term) : list Die :=
  match t with
  | DiceTerm d => [d]
  | PoolTerm ts rs _ =>
      let fix go (l : list Term) : list Die :=
        match l with
        | [] => []
        | x :: l' => term_dice x ++ go l'
        end in
      match ts, rs with
      | Some l, _ => go l
      | None, Some l => go l
      | None, None => []
      end
  | _ => []
  end.

Definition dice (r : Roll) : list Die := flat_map term_dice (roll_terms r).

(** The [critChecks] argument: a boolean or an array of face counts. *)
Inductive CritChecks : Type :=
| CritBool (b : bool)
| CritFaces (l : list Z).

(** [critChecks == true], the loose comparison.  An array is converted to
    its string and then to a number, so the one-element array [[1]]
    compares equal to [true]. *)
Definition loose_eq_true (c : CritChecks) : bool :=
  match c with
  | CritBool b => b
  | CritFaces [1] => true
  | CritFaces _ => false
  end.

(** [critChecks == true || critChecks.includes(faces)]; a boolean has no
    [includes] method, so [false] throws. *)
Definition critChecks_selects (c : CritChecks) (f : Z) : js bool :=
  if loose_eq_true c then Ret true
  else match c with
       | CritBool _ => Threw
       | CritFaces l => Ret (includes f l)
       end.

Inductive CritType : Type := mixed | success | failure.

(** The object returned by [processRoll]; [out_total] is [None] when the
    sum is not a number. *)
Record Outcome : Type := mkOutcome {
  out_roll : Roll;
  out_total : option Z;
  out_ignored : option bool;
  critType : option CritType;
  isCrit : bool
}.

(** [threshold || d.faces] *)
Definition effective_threshold (threshold : option Z) (d : Die) : Z :=
  match threshold with
  | Some t => if t =? 0 then faces d else t
  | None => faces d
  end.

(** The body of the inner loop, on the pair (high, low). *)
Definition count_result (thr : Z) (hl : Z * Z) (r : DieResult) : Z * Z :=
  if result r >=? thr then (fst hl + 1, snd hl)
  else if result r =? 1 then (fst hl, snd hl + 1)
  else hl.

(** The active results of a die: [d.results.filter(r => !r.rerolled)]. *)
Definition active_results (d : Die) : list DieResult :=
  filter (fun r => negb (rerolled r)) (results d).

(** The body of the outer loop. *)
Definition count_die (threshold : option Z) (c : CritChecks)
    (hl : Z * Z) (d : Die) : js (Z * Z) :=
  if faces d >? 1 then
    sel <- critChecks_selects c (faces d) ;;
    if sel then
      Ret (fold_left (count_result (effective_threshold threshold d))
             (active_results d) hl)
    else Ret hl
  else Ret hl.

Fixpoint count_dice (threshold : option Z) (c : CritChecks)
    (hl : Z * Z) (ds : list Die) : js (Z * Z) :=
  match ds with
  | [] => Ret hl
  | d :: ds' =>
      hl' <- count_die threshold c hl d ;;
      count_dice threshold c hl' ds'
  end.

Definition classify (high low : Z) : option CritType :=
  if (high >? 0) && (low >? 0) then Some mixed
  else if high >? 0 then Some success
  else if low >? 0 then Some failure
  else None.

(** [roll.total + (bonus?.total ?? 0)] *)
Definition add_bonus (t : option Z) (bonus : option Roll) : option Z :=
  match t with
  | None => None
  | Some x =>
      match bonus with
      | Some b => match total b with
                  | Some y => Some (x + y)
                  | None => Some (x + 0)
                  end
      | None => Some (x + 0)
      end
  end.

Definition processRoll (roll : option Roll) (threshold : option Z)
    (critChecks : CritChecks) (bonus : option Roll) : js (option Outcome) :=
  match roll with
  | None => Ret None
  | Some r =>
      hl <- count_dice threshold critChecks (0, 0) (dice r) ;;
      Ret (Some {|
        out_roll := r;
        out_total := add_bonus (total r) bonus;
        out_ignored := if ignored r then Some true else None;
        critType := classify (fst hl) (snd hl);
        isCrit := fst hl >? 0
      |})
  end.

(** ** Utils.eventToAdvantage and Utils.getRollState *)

Record Event : Type := mkEvent {
  shiftKey : bool;
  ctrlKey : bool;
  metaKey : bool
}.

(** An argument object of [getRollState]; every field defaults to null. *)
Record RollStateArgs : Type := mkArgs {
  rollState : option string;
  event : option Event;
  advantage : flag;
  disadvantage : flag;
  adv : flag;
  disadv : flag
}.

(** The default argument [{}]. *)
Definition no_args : RollStateArgs :=
  mkArgs None None FNull FNull FNull FNull.

(** The object [{advantage, disadvantage}] passed back into
    [getRollState]: the other four fields take their defaults. *)
Definition modifiers_args (a d : Z) : RollStateArgs :=
  mkArgs None None (FNum a) (FNum d) FNull FNull.

Definition eventToAdvantage (ev : Event) : Z * Z :=
  if shiftKey ev then (1, 0)
  else if ctrlKey ev || metaKey ev then (0, 1)
  else (0, 0).

(** The body of [getRollState], with the recursive call as a parameter. *)
Definition getRollState_body (self : RollStateArgs -> option string)
    (a : RollStateArgs) : option string :=
  if truthy_str (rollState a) then rollState a
  else if truthy_flag (advantage a) || truthy_flag (adv a) then Some highest
  else if truthy_flag (disadvantage a) || truthy_flag (disadv a)
  then Some lowest
  else match event a with
       | Some ev =>
           let m := eventToAdvantage ev in
           if negb (fst m =? 0) || negb (snd m =? 0)
           then self (modifiers_args (fst m) (snd m))
           else None
       | None => None
       end.

(** The recursion is on an argument without [event], so one unfolding of
    the body under a call that cannot recurse again is the function. *)
Definition getRollState_inner : RollStateArgs -> option string :=
  getRollState_body (fun _ => None).

Definition getRollState : RollStateArgs -> option string :=
  getRollState_body getRollState_inner.

(** ** Utils.findD20Term *)

(** [term.faces]: only a dice term has the field. *)
Definition term_faces (t : Term) : option Z :=
  match t with
  | DiceTerm d => Some (faces d)
  | _ => None
  end.

(** [term.faces === 20] *)
Definition is_d20 (t : Term) : bool :=
  match term_faces t with
  | Some f => f =? 20
  | None => false
  end.

(** [x.terms ?? x.rolls] on a term. *)
Definition term_children (t : Term) : option (list Term) :=
  match t with
  | PoolTerm (Some l) _ _ => Some l
  | PoolTerm None rs _ => rs
  | _ => None
  end.

(** [findD20Term] called on a term: the loop over [term.terms ?? term.rolls
    ?? []].  The function falls off its end when nothing is found, which
    yields [undefined]; the recursive call is made only on a term that has
    children, and its result is returned only when it is truthy. *)
Fixpoint findD20Term_term (t : Term) : ref Term :=
  let fix loop (l : list Term) : ref Term :=
    match l with
    | [] => Undefined
    | x :: l' =>
        if is_d20 x then Obj x
        else
          match term_children x with
          | Some _ =>
              match findD20Term_term x with
              | Obj y => Obj y
              | _ => loop l'
              end
          | None => loop l'
          end
    end in
  match t with
  | PoolTerm (Some l) _ _ => loop l
  | PoolTerm None (Some l) _ => loop l
  | _ => Undefined
  end.

(** The same loop over the terms of a roll. *)
Fixpoint findD20Term_loop (l : list Term) : ref Term :=
  match l with
  | [] => Undefined
  | x :: l' =>
      if is_d20 x then Obj x
      else
        match term_children x with
        | Some _ =>
            match findD20Term_term x with
            | Obj y => Obj y
            | _ => findD20Term_loop l'
            end
        | None => findD20Term_loop l'
        end
  end.

Definition findD20Term (d20Roll : option Roll) : ref Term :=
  match d20Roll with
  | None => Null
  | Some r => findD20Term_loop (roll_terms r)
  end.

(** ** The host's roll engine *)

(** The [Roll] class belongs to the host, not to this repository.  The
    functions below use five of its operations, taken here as an
    interface:
    - [newRoll s] is [new Roll(s)], which parses [s] and may throw;
    - [formula r] is the getter [r.formula];
    - [alter m a r] is [r.alter(m, a)];
    - [evaluate maximize r g] is [r.evaluate({maximize, async: false})],
      and [r.roll({async: false})] is [evaluate false]; [g] is the state
      of the random source the dice are drawn from.
    The interface also says how the host represents a flat number among
    the terms of a roll: [primitive_numbers] holds when it is a JavaScript
    number, as in the host's earlier API, and fails when it is a term
    object like every other term, as in the API that has
    [evaluate({async})]. *)
Class RollEngine : Type := {
  rng : Type;
  newRoll : string -> js Roll;
  formula : Roll -> string;
  alter : Z -> Z -> Roll -> js Roll;
  evaluate : bool -> Roll -> rng -> js (Roll * rng);
  primitive_numbers : bool
}.

(** [Number.prototype.toString] on an integer, and on NaN ([None]). *)
Definition toString (n : option Z) : string :=
  match n with
  | Some z => NilEmpty.string_of_int (Z.to_int z)
  | None => "NaN"
  end.

(** ** A backtracking matcher for the regular expressions of the source *)

(** The constructs that occur in [critRegex]: a character class, a
    sequence, an alternative, the greedy [+] and [*] of a class, and a
    negative lookahead on one character. *)
Inductive regex : Type :=
| Class (p : ascii -> bool)
| Seq (r1 r2 : regex)
| Alt (r1 r2 : regex)
| Plus (p : ascii -> bool)
| Star (p : ascii -> bool)
| NegLook (p : ascii -> bool).

(** Greedy repetition: take one more character first, and give it back
    when the rest of the pattern fails.  [n] counts consumed characters. *)
Fixpoint star (p : ascii -> bool) (s : string) (n : nat)
    (k : string -> nat -> option nat) : option nat :=
  match s with
  | String c t =>
      if p c then
        match star p t (S n) k with
        | Some m => Some m
        | None => k s n
        end
      else k s n
  | EmptyString => k s n
  end.

(** [exec r s n k] matches [r] at the start of [s] and continues with [k];
    the result is the length of the first match in backtracking order. *)
Fixpoint exec (r : regex) (s : string) (n : nat)
    (k : string -> nat -> option nat) : option nat :=
  match r with
  | Class p =>
      match s with
      | String c t => if p c then k t (S n) else None
      | EmptyString => None
      end
  | Seq r1 r2 => exec r1 s n (fun s' n' => exec r2 s' n' k)
  | Alt r1 r2 =>
      match exec r1 s n k with
      | Some m => Some m
      | None => exec r2 s n k
      end
  | Plus p =>
      match s with
      | String c t => if p c then star p t (S n) k else None
      | EmptyString => None
      end
  | Star p => star p s n k
  | NegLook p =>
      match s with
      | String c _ => if p c then None else k s n
      | EmptyString => k s n
      end
  end.

(** The length of the match of [r] at the start of [s], if any. *)
Definition match_at (r : regex) (s : string) : option nat :=
  exec r s 0%nat (fun _ n => Some n).

(** [s.replace(r, "")] for a global [r] whose matches are never empty: scan
    from the left, drop each match and go on after it.  [skip] is the
    number of characters of the current match still to drop. *)
Fixpoint remove_from (r : regex) (skip : nat) (s : string) : string :=
  match s with
  | EmptyString => EmptyString
  | String c t =>
      match skip with
      | S k => remove_from r k t
      | O =>
          match match_at r s with
          | Some (S k) => remove_from r k t
          | _ => String c (remove_from r 0 t)
          end
      end
  end.

Definition remove_all (r : regex) (s : string) : string := remove_from r 0 s.

Definition in_range (lo hi : nat) (c : ascii) : bool :=
  (lo <=? nat_of_ascii c)%nat && (nat_of_ascii c <=? hi)%nat.

(** [[+-]] *)
Definition is_sign (c : ascii) : bool :=
  Ascii.eqb c "+" || Ascii.eqb c "-".

(** [\s] on code units below 256: tab, line feed, vertical tab, form feed,
    carriage return, space and no-break space. *)
Definition is_space (c : ascii) : bool :=
  in_range 9 13 c || (nat_of_ascii c =? 32)%nat || (nat_of_ascii c =? 160)%nat.

(** [[0-9]] *)
Definition is_digit (c : ascii) : bool := in_range 48 57 c.

(** [[a-zA-Z0-9.]] *)
Definition is_ref_char (c : ascii) : bool :=
  in_range 97 122 c || in_range 65 90 c || is_digit c || Ascii.eqb c ".".

(** [[Dd]] *)
Definition is_Dd (c : ascii) : bool :=
  Ascii.eqb c "D" || Ascii.eqb c "d".

(** [/[+-]+\s*(?:@[a-zA-Z0-9.]+|[0-9]+(?![Dd]))/g] *)
Definition critRegex : regex :=
  Seq (Plus is_sign)
    (Seq (Star is_space)
       (Alt (Seq (Class (Ascii.eqb "@")) (Plus is_ref_char))
            (Seq (Plus is_digit) (NegLook is_Dd)))).

(** ** Utils.parseD20Formula, ItemUtils.getBaseCritRoll, ItemUtils.getCritRoll *)

(** The object returned by [parseD20Formula].  [numRolls] and
    [pf_rollState] are [None] when the property is absent;
    [pf_rollState = Some None] is a property holding [null]. *)
Record D20Formula : Type := mkD20Formula {
  pf_formula : string;
  numRolls : option Z;
  pf_rollState : option (option string)
}.

(** The two assignments to the d20 term:
    [number = 1] and [modifiers = modifiers.filter(m => !["kh","kl"].includes(m))]. *)
Definition strip_keep (d : Die) : Die :=
  {| number := 1;
     faces := faces d;
     modifiers :=
       filter (fun m => negb (includes_str m ["kh"; "kl"])) (modifiers d);
     results := results d;
     options := options d |}.

(** The expression after the term that [findD20Term] returns has been
    assigned to: the walk is that of [findD20Term_term], and [f] is applied
    at the place where the term is found.  The expression is taken to be a
    tree, with no term object shared between two places. *)
Fixpoint updateD20_term (f : Die -> Die) (t : Term) : Term :=
  let fix loop (l : list Term) : list Term :=
    match l with
    | [] => []
    | x :: l' =>
        if is_d20 x then
          match x with
          | DiceTerm d => DiceTerm (f d) :: l'
          | _ => x :: l'
          end
        else
          match term_children x with
          | Some _ =>
              match findD20Term_term x with
              | Obj _ => updateD20_term f x :: l'
              | _ => x :: loop l'
              end
          | None => x :: loop l'
          end
    end in
  match t with
  | PoolTerm (Some l) rs m => PoolTerm (Some (loop l)) rs m
  | PoolTerm None (Some l) m => PoolTerm None (Some (loop l)) m
  | _ => t
  end.

Fixpoint updateD20_loop (f : Die -> Die) (l : list Term) : list Term :=
  match l with
  | [] => []
  | x :: l' =>
      if is_d20 x then
        match x with
        | DiceTerm d => DiceTerm (f d) :: l'
        | _ => x :: l'
        end
      else
        match term_children x with
        | Some _ =>
            match findD20Term_term x with
            | Obj _ => updateD20_term f x :: l'
            | _ => x :: updateD20_loop f l'
            end
        | None => x :: updateD20_loop f l'
        end
  end.

(** [term.options = {}] on a term that has options. *)
Definition clear_options (t : Term) : Term :=
  match t with
  | DiceTerm d =>
      DiceTerm {| number := number d; faces := faces d;
                  modifiers := modifiers d; results := results d;
                  options := no_options |}
  | _ => t
  end.

(** The roll after [term.options = {}] on each of its terms. *)
Definition cleared (r : Roll) : Roll :=
  {| roll_terms := map clear_options (roll_terms r);
     _formula := _formula r;
     total := total r;
     ignored := ignored r;
     _evaluated := _evaluated r |}.

(** [extraCritDice ?? 0] *)
Definition extra_dice (extraCritDice : option Z) : Z :=
  match extraCritDice with
  | Some e => e
  | None => 0
  end.

(** A flat number among the terms. *)
Definition is_flat_number (t : Term) : bool :=
  match t with
  | NumericTerm _ => true
  | _ => false
  end.

(** [typeof term === "number"]: it holds of a flat number that the host
    keeps as a JavaScript number, and of no term object. *)
Definition typeof_number {E : RollEngine} (t : Term) : bool :=
  primitive_numbers && is_flat_number t.

(** The settings object of settings.js; only [critBehavior] is read. *)
Record BRSettings : Type := mkSettings {
  critBehavior : string
}.

Section Engine.

Context {E : RollEngine}.

(** [getSettings] of settings.js, which is not part of utils.js. *)
Variable Settings : Type.
Variable getSettings : option Settings -> BRSettings.

(** [parseD20Formula(roll)], for a string or a [Roll].  The second
    component is the roll after the call, since the d20 term and
    [_formula] are assigned in place. *)
Definition parseD20Formula (roll : string + Roll) : js (D20Formula * Roll) :=
  r <- match roll with
       | inl s => newRoll s
       | inr r => Ret r
       end ;;
  match findD20Term (Some r) with
  | Obj (DiceTerm d20Term) =>
      let n := number d20Term in
      let st :=
        if includes_str "kh" (modifiers d20Term) then Some highest
        else if includes_str "kl" (modifiers d20Term) then Some lowest
        else None in
      let r' := {| roll_terms := updateD20_loop strip_keep (roll_terms r);
                   _formula := None;
                   total := total r;
                   ignored := ignored r;
                   _evaluated := _evaluated r |} in
      Ret ({| pf_formula := formula r';
              numRolls := Some n;
              pf_rollState := Some st |}, r')
  | Obj _ => Threw
  | _ =>
      Ret ({| pf_formula := formula r;
              numRolls := None;
              pf_rollState := None |}, r)
  end.

Definition getBaseCritRoll (baseFormula : option string) : js (option Roll) :=
  match baseFormula with
  | Some (String c s as f) =>
      strippedRoll <- newRoll f ;;
      let strippedRoll := cleared strippedRoll in
      let critFormula := remove_all critRegex (formula strippedRoll) in
      critRoll <- newRoll critFormula ;;
      match roll_terms critRoll with
      | [t] => if typeof_number t then Ret None else Ret (Some critRoll)
      | _ => Ret (Some critRoll)
      end
  | _ => Ret None
  end.

(** [x.total - baseTotal]; not a number when [x.total] is undefined. *)
Definition total_minus (x : Roll) (baseTotal : Z) : option Z :=
  match total x with
  | Some t => Some (t - baseTotal)
  | None => None
  end.

(** The first half of [getCritRoll], up to and including
    [critRoll.roll({async: false})]. *)
Definition rolledCritRoll (baseFormula : option string)
    (extraCritDice : option Z) (g : rng) : js (option (Roll * rng)) :=
  base <- getBaseCritRoll baseFormula ;;
  match base with
  | None => Ret None
  | Some critRoll =>
      critRoll <- alter 1 (extra_dice extraCritDice) critRoll ;;
      rolled <- evaluate false critRoll g ;;
      Ret (Some rolled)
  end.

(** [getCritRoll(baseFormula, baseTotal, {settings, extraCritDice})]; the
    random source is threaded through. *)
Definition getCritRoll (baseFormula : option string) (baseTotal : Z)
    (settings : option Settings) (extraCritDice : option Z) (g : rng)
    : js (option Roll * rng) :=
  rolled <- rolledCritRoll baseFormula extraCritDice g ;;
  match rolled with
  | None => Ret (None, g)
  | Some (critRoll, g) =>
      let critBehavior := critBehavior (getSettings settings) in
      if String.eqb critBehavior "2" then
        fresh <- newRoll (formula critRoll) ;;
        res <- evaluate true fresh g ;;
        Ret (Some (fst res), snd res)
      else if String.eqb critBehavior "3" then
        baseRoll <- newRoll (match baseFormula with
                             | Some f => f
                             | None => ""
                             end) ;;
        maxRoll <- evaluate true baseRoll g ;;
        let maxDifference := total_minus (fst maxRoll) baseTotal in
        let newFormula :=
          (formula critRoll ++ "+" ++ toString maxDifference)%string in
        fresh <- newRoll newFormula ;;
        res <- evaluate true fresh (snd maxRoll) ;;
        Ret (Some (fst res), snd res)
      else if String.eqb critBehavior "4" then
        baseRoll <- newRoll (match baseFormula with
                             | Some f => f
                             | None => ""
                             end) ;;
        maxRoll <- evaluate true baseRoll g ;;
        let maxDifference := total_minus (fst maxRoll) baseTotal in
        let newFormula :=
          (formula critRoll ++ "+" ++ toString maxDifference)%string in
        fresh <- newRoll newFormula ;;
        res <- evaluate false fresh (snd maxRoll) ;;
        Ret (Some (fst res), snd res)
      else Ret (Some critRoll, g)
  end.

End Engine.

(** ** A reference roll engine *)

(** Modelled from the spec: the Roll Evaluation Engine, the host's [Roll]
    class, which utils.js calls and does not define.  The engine below
    covers formulas made of dice terms ([2d20kh], [d6]), integers and the
    operators [+] and [-], with optional white space: the formulas the
    functions above exchange with the host.  Every definition of this
    module belongs to that model. *)
Module Host.

(** Modelled from the spec: [${number}], a number printed in decimal. *)
Definition showZ (z : Z) : string := toString (Some z).

(** Modelled from the spec: the formula of one term; operators are set off
    by one space on each side, a flavor is printed in brackets. *)
Fixpoint term_formula (t : Term) : string :=
  match t with
  | DiceTerm d =>
      (showZ (number d) ++ "d" ++ showZ (faces d)
       ++ String.concat "" (modifiers d)
       ++ match flavor (options d) with
          | Some f => "[" ++ f ++ "]"
          | None => ""
          end)%string
  | OperatorTerm op => (" " ++ op ++ " ")%string
  | NumericTerm n => showZ n
  | PoolTerm ts rs m =>
      let fix go (l : list Term) : list string :=
        match l with
        | [] => []
        | x :: l' => term_formula x :: go l'
        end in
      ("{" ++ String.concat ","
                (match ts, rs with
                 | Some l, _ => go l
                 | None, Some l => go l
                 | None, None => []
                 end)
       ++ "}" ++ String.concat "" m)%string
  end.

(** Modelled from the spec: [Roll.getFormula(terms)], the formulas of the
    terms joined. *)
Definition getFormula (ts : list Term) : string :=
  String.concat "" (map term_formula ts).

(** Modelled from the spec: a formula is cut at its operators into
    chunks. *)
Inductive token : Type :=
| TChunk (s : string)
| TOp (c : ascii).

(** Modelled from the spec: the chunks and operators of a formula. *)
Fixpoint lex (s : string) : list token :=
  match s with
  | EmptyString => [TChunk ""]
  | String c t =>
      if is_sign c then TChunk "" :: TOp c :: lex t
      else match lex t with
           | TChunk h :: r => TChunk (String c h) :: r
           | r => TChunk (String c "") :: r
           end
  end.

(** Modelled from the spec: the longest prefix of characters in a class,
    and the rest. *)
Fixpoint span (p : ascii -> bool) (s : string) : string * string :=
  match s with
  | String c t =>
      if p c then (String c (fst (span p t)), snd (span p t))
      else (EmptyString, s)
  | EmptyString => (EmptyString, EmptyString)
  end.

(** Modelled from the spec: nothing but white space. *)
Definition all_space (s : string) : bool :=
  match snd (span is_space s) with
  | EmptyString => true
  | _ => false
  end.

(** Modelled from the spec: a string of digits as a number. *)
Definition read_number (ds : string) : js Z :=
  match NilEmpty.uint_of_string ds with
  | Some u => Ret (Z.of_uint u)
  | None => Threw
  end.

(** Modelled from the spec: the keep modifiers that follow the faces of a
    dice term. *)
Fixpoint read_modifiers (s : string) : list string * string :=
  match s with
  | String "k" (String "h" t) =>
      ("kh" :: fst (read_modifiers t), snd (read_modifiers t))
  | String "k" (String "l" t) =>
      ("kl" :: fst (read_modifiers t), snd (read_modifiers t))
  | _ => ([], s)
  end.

(** Modelled from the spec: one chunk is nothing, an integer or a dice
    term. *)
Definition parse_chunk (s : string) : js (option Term) :=
  let s := snd (span is_space s) in
  match s with
  | EmptyString => Ret None
  | _ =>
      let (ds, rest) := span is_digit s in
      match rest with
      | String c rest' =>
          if is_Dd c then
            n <- match ds with
                 | EmptyString => Ret 1
                 | _ => read_number ds
                 end ;;
            let (fs, rest'') := span is_digit rest' in
            f <- read_number fs ;;
            let (ms, tail) := read_modifiers rest'' in
            if all_space tail
            then Ret (Some (DiceTerm (mkDie n f ms [] no_options)))
            else Threw
          else if all_space rest then
            n <- read_number ds ;; Ret (Some (NumericTerm n))
          else Threw
      | EmptyString => n <- read_number ds ;; Ret (Some (NumericTerm n))
      end
  end.

(** Modelled from the spec: the terms of the chunks and operators. *)
Fixpoint parse_tokens (l : list token) : js (list Term) :=
  match l with
  | [] => Ret []
  | TOp c :: l' =>
      ts <- parse_tokens l' ;;
      Ret (OperatorTerm (String c EmptyString) :: ts)
  | TChunk s :: l' =>
      t <- parse_chunk s ;;
      ts <- parse_tokens l' ;;
      Ret (match t with
           | Some x => x :: ts
           | None => ts
           end)
  end.

(** Modelled from the spec: [Roll.parse(formula)]. *)
Definition parse (s : string) : js (list Term) := parse_tokens (lex s).

(** Modelled from the spec: [new Roll(formula)], an unevaluated roll. *)
Definition newRoll (s : string) : js Roll :=
  ts <- parse s ;;
  Ret (mkRoll ts None None false false).

(** Modelled from the spec: [DiceTerm.alter(multiply, add)], on the count
    of a dice term. *)
Definition alter_term (m a : Z) (t : Term) : Term :=
  match t with
  | DiceTerm d =>
      DiceTerm {| number := number d * (if m >=? 0 then m else 1) + a;
                  faces := faces d;
                  modifiers := modifiers d;
                  results := results d;
                  options := options d |}
  | _ => t
  end.

(** Modelled from the spec: [Roll.alter(multiply, add)]; an evaluated roll
    cannot be altered. *)
Definition alter (m a : Z) (r : Roll) : js Roll :=
  if _evaluated r then Threw
  else
    let ts := map (alter_term m a) (roll_terms r) in
    Ret {| roll_terms := ts;
           _formula := Some (getFormula ts);
           total := total r;
           ignored := ignored r;
           _evaluated := false |}.

(** Modelled from the spec: the random source, a linear congruential
    generator. *)
Definition next (g : Z) : Z := (g * 1103515245 + 12345) mod 2147483648.

(** Modelled from the spec: a face between 1 and [f]. *)
Definition draw (f g : Z) : Z := 1 + (g / 65536) mod f.

(** Modelled from the spec: [n] results of a die with [f] faces, at their
    maximum or drawn. *)
Fixpoint roll_dice (maximize : bool) (n : nat) (f g : Z)
    : list DieResult * Z :=
  match n with
  | O => ([], g)
  | S n' =>
      let v := if maximize then f else draw f g in
      let g' := if maximize then g else next g in
      let rest := roll_dice maximize n' f g' in
      (mkResult v false false :: fst rest, snd rest)
  end.

(** Modelled from the spec: the sum of the results of a die. *)
Definition sum_results (l : list DieResult) : Z :=
  fold_right (fun r acc => result r + acc) 0 l.

(** Modelled from the spec: the result that a keep modifier keeps. *)
Definition best (pick : Z -> Z -> Z) (l : list DieResult) : Z :=
  match l with
  | [] => 0
  | r :: l' => fold_left (fun acc x => pick acc (result x)) l' (result r)
  end.

(** Modelled from the spec: the value of an evaluated dice term, the
    highest result under [kh], the lowest under [kl], the sum otherwise. *)
Definition die_total (d : Die) : Z :=
  if includes_str "kh" (modifiers d) then best Z.max (results d)
  else if includes_str "kl" (modifiers d) then best Z.min (results d)
  else sum_results (results d).

(** Modelled from the spec: the dice of each term rolled in turn; a pool
    is outside the formulas covered. *)
Fixpoint evaluate_terms (maximize : bool) (ts : list Term) (g : Z)
    : js (list Term * Z) :=
  match ts with
  | [] => Ret ([], g)
  | DiceTerm d :: ts' =>
      let rolled := roll_dice maximize (Z.to_nat (number d)) (faces d) g in
      rest <- evaluate_terms maximize ts' (snd rolled) ;;
      Ret (DiceTerm {| number := number d; faces := faces d;
                       modifiers := modifiers d; results := fst rolled;
                       options := options d |} :: fst rest, snd rest)
  | PoolTerm _ _ _ :: _ => Threw
  | t :: ts' =>
      rest <- evaluate_terms maximize ts' g ;;
      Ret (t :: fst rest, snd rest)
  end.

(** Modelled from the spec: where the arithmetic stands, at the start,
    after a value or after an operator. *)
Inductive position : Type := AtStart | AfterValue | AfterOperator.

(** Modelled from the spec: the total of evaluated terms, from left to
    right; [sign] is the sign the next value takes.  Two values in a row,
    a trailing operator and an unknown operator throw. *)
Fixpoint sum_terms (ts : list Term) (acc sign : Z) (pos : position) : js Z :=
  match ts with
  | [] =>
      match pos with
      | AfterOperator => Threw
      | _ => Ret acc
      end
  | OperatorTerm op :: ts' =>
      if String.eqb op "+" then sum_terms ts' acc sign AfterOperator
      else if String.eqb op "-" then sum_terms ts' acc (- sign) AfterOperator
      else Threw
  | t :: ts' =>
      match pos with
      | AfterValue => Threw
      | _ =>
          match t with
          | DiceTerm d => sum_terms ts' (acc + sign * die_total d) 1 AfterValue
          | NumericTerm n => sum_terms ts' (acc + sign * n) 1 AfterValue
          | _ => Threw
          end
      end
  end.

(** Modelled from the spec: [roll.evaluate({maximize, async: false})]; a
    roll is evaluated once. *)
Definition evaluate (maximize : bool) (r : Roll) (g : Z) : js (Roll * Z) :=
  if _evaluated r then Threw
  else
    ev <- evaluate_terms maximize (roll_terms r) g ;;
    t <- sum_terms (fst ev) 0 1 AtStart ;;
    Ret ({| roll_terms := fst ev;
            _formula := _formula r;
            total := Some t;
            ignored := ignored r;
            _evaluated := true |}, snd ev).

End Host.

(** Modelled from the spec: the reference engine as an instance of the
    interface, keeping flat numbers as JavaScript numbers. *)
#[export] Instance host_engine : RollEngine := {|
  rng := Z;
  newRoll := Host.newRoll;
  formula := fun r => Host.getFormula (roll_terms r);
  alter := Host.alter;
  evaluate := Host.evaluate;
  primitive_numbers := true
|}.

(** Modelled from the spec: the same engine with every term an object. *)
Definition object_engine : RollEngine := {|
  rng := Z;
  newRoll := Host.newRoll;
  formula := fun r => Host.getFormula (roll_terms r);
  alter := Host.alter;
  evaluate := Host.evaluate;
  primitive_numbers := false
|}.

(** * Definitions for the statements *)

(** The list behind an optional array. *)
Definition opt_list (o : option (list Term)) : list Term :=
  match o with
  | Some l => l
  | None => []
  end.

(** The terms below a term, in depth-first order: each child, then what is
    below it, then the next child.  The children of a term are those that
    [terms ?? rolls] gives. *)
Fixpoint descendants (t : Term) : list Term :=
  let fix go (l : list Term) : list Term :=
    match l with
    | [] => []
    | x :: l' => x :: descendants x ++ go l'
    end in
  match t with
  | PoolTerm (Some l) _ _ => go l
  | PoolTerm None (Some l) _ => go l
  | _ => []
  end.

(** The terms of an expression in depth-first order. *)
Definition dfs (l : list Term) : list Term :=
  flat_map (fun x => x :: descendants x) l.

(** The first term with 20 faces in a sequence of terms. *)
Definition first_d20 (l : list Term) : ref Term :=
  match find is_d20 l with
  | Some t => Obj t
  | None => Undefined
  end.

(** The terms nested in a term as the specification has them, in
    depth-first order: everything that the term carries, under [terms] and
    under [rolls]. *)
Fixpoint nested (t : Term) : list Term :=
  let fix go (l : list Term) : list Term :=
    match l with
    | [] => []
    | x :: l' => x :: nested x ++ go l'
    end in
  match t with
  | PoolTerm ts rs _ =>
      match ts with Some l => go l | None => [] end ++
      match rs with Some l => go l | None => [] end
  | _ => []
  end.

(** The whole tree of an expression in depth-first order. *)
Definition whole_tree (l : list Term) : list Term :=
  flat_map (fun x => x :: nested x) l.

(** No term of the tree carries nested terms both under [terms] and under
    [rolls]. *)
Fixpoint one_branch (t : Term) : bool :=
  let fix all (l : list Term) : bool :=
    match l with
    | [] => true
    | x :: l' => one_branch x && all l'
    end in
  match t with
  | PoolTerm (Some _) (Some _) _ => false
  | PoolTerm (Some l) None _ => all l
  | PoolTerm None (Some l) _ => all l
  | _ => true
  end.

(** The selector as the specification words it: [true] selects every die,
    an array selects its face counts. *)
Definition selected_by (c : CritChecks) (f : Z) : bool :=
  match c with
  | CritBool b => b
  | CritFaces l => includes f l
  end.

(** The selection the code makes when it does not throw. *)
Definition selected_by_code (c : CritChecks) (f : Z) : bool :=
  loose_eq_true c || selected_by c f.

(** The active results of the dice that have more than one face and are
    selected, each with its die. *)
Definition counted (sel : Z -> bool) (ds : list Die)
    : list (Die * DieResult) :=
  flat_map (fun d =>
    if (faces d >? 1) && sel (faces d)
    then map (pair d) (active_results d)
    else []) ds.

(** The number of counted results that satisfy [q]. *)
Definition tally (q : Die -> DieResult -> bool) (l : list (Die * DieResult))
    : Z :=
  Z.of_nat (List.length (filter (fun dr => q (fst dr) (snd dr)) l)).

(** A result at or above the threshold of its die. *)
Definition is_high (threshold : option Z) (d : Die) (r : DieResult) : bool :=
  result r >=? effective_threshold threshold d.

(** A result exactly equal to 1. *)
Definition is_one (d : Die) (r : DieResult) : bool := result r =? 1.

(** A result equal to 1 that is below the threshold of its die. *)
Definition is_low (threshold : option Z) (d : Die) (r : DieResult) : bool :=
  is_one d r && negb (is_high threshold d r).

(** A selector of the specification: [true], or an array of face counts
    other than the array [[1]], which the loose comparison takes for
    [true]. *)
Definition crit_selector (c : CritChecks) : Prop :=
  c = CritBool true \/ exists l, c = CritFaces l /\ l <> [1].

(** [f] applied to a dice term. *)
Definition apply_die (f : Die -> Die) (t : Term) : Term :=
  match t with
  | DiceTerm d => DiceTerm (f d)
  | _ => t
  end.

(** [g] applied to the object behind a reference. *)
Definition map_ref {A B : Type} (g : A -> B) (r : ref A) : ref B :=
  match r with
  | Obj a => Obj (g a)
  | Null => Null
  | Undefined => Undefined
  end.

(** The count and the modifiers of the d20 term of a roll, if it has one. *)
Definition d20_shape (r : Roll) : option (Z * list string) :=
  match findD20Term (Some r) with
  | Obj (DiceTerm d) => Some (number d, modifiers d)
  | _ => None
  end.

(** A roll whose cached formula has been dropped:
    [roll._formula = undefined]. *)
Definition uncached (r : Roll) : Roll :=
  {| roll_terms := roll_terms r;
     _formula := None;
     total := total r;
     ignored := ignored r;
     _evaluated := _evaluated r |}.

(** [new Roll(s).evaluate({maximize: true, async: false})] *)
Definition max_eval {E : RollEngine} (s : string) (g : rng)
    : js (Roll * rng) :=
  r <- newRoll s ;; evaluate true r g.

(** The engine adds a number appended with [+] to the maximized total of a
    formula. *)
Definition additive_max (E : RollEngine) : Prop :=
  forall (F : string) (n : Z) (g : rng) res g' cres g'',
    max_eval (F ++ "+" ++ toString (Some n)) g = Ret (res, g') ->
    max_eval F g = Ret (cres, g'') ->
    total res = option_map (fun c => c + n) (total cres).

(** The roll that [parseD20Formula] works on: its argument, parsed first
    when it is a string. *)
Definition as_roll {E : RollEngine} (roll : string + Roll) : js Roll :=
  match roll with
  | inl s => newRoll s
  | inr r => Ret r
  end.

(** The result of normalizing again, against the result of the first call:
    the same formula; one roll and the roll state [null] when the first
    call found a d20 term, which is when it reported [numRolls]; neither
    property when it found none. *)
Definition renormalized (out1 out2 : D20Formula) : Prop :=
  pf_formula out2 = pf_formula out1 /\
  match numRolls out1 with
  | Some _ => numRolls out2 = Some 1 /\ pf_rollState out2 = Some None
  | None => numRolls out2 = None /\ pf_rollState out2 = None
  end.

(** The step-5 result of [getCritRoll] as its return value. *)
Definition baseline {E : RollEngine} (rolled : js (option (Roll * rng)))
    (g : rng) : js (option Roll * rng) :=
  match rolled with
  | Ret (Some (critRoll, g')) => Ret (Some critRoll, g')
  | Ret None => Ret (None, g)
  | Threw => Threw
  end.

(** Every character of a string is in a class. *)
Fixpoint all_in (p : ascii -> bool) (s : string) : bool :=
  match s with
  | EmptyString => true
  | String c t => p c && all_in p t
  end.

(** A string does not go on with a character of a class. *)
Definition stops (p : ascii -> bool) (s : string) : bool :=
  match s with
  | EmptyString => true
  | String c _ => negb (p c)
  end.

(** An unevaluated roll with the given terms. *)
Definition roll_of (ts : list Term) : Roll := mkRoll ts None None false false.

(** The roll of "2d20kh + 5". *)
Definition advantage_roll : Roll :=
  roll_of [DiceTerm (mkDie 2 20 ["kh"] [] no_options);
           OperatorTerm "+"; NumericTerm 5].

(** A character that is not an operator. *)
Definition not_sign (c : ascii) : bool := negb (is_sign c).

(** A dice term as the reference engine parses it: a count and a face
    count that are not negative, keep modifiers only, no results yet and
    no flavor. *)
Definition plain_die (d : Die) : Prop :=
  0 <= number d /\ 0 <= faces d /\
  Forall (fun m => m = "kh" \/ m = "kl") (modifiers d) /\
  results d = [] /\ options d = no_options.

(** A later term of a formula with the operator before it. *)
Definition item : Type := ascii * Term.

(** An item that the pattern handles: a flat number, or a dice term whose
    count is one digit. *)
Definition plain_item (it : item) : Prop :=
  is_sign (fst it) = true /\
  match snd it with
  | NumericTerm k => 0 <= k
  | DiceTerm d => plain_die d /\ number d <= 9
  | _ => False
  end.

(** The terms of a formula that goes on with the given items. *)
Definition item_terms (items : list item) : list Term :=
  flat_map (fun it => [OperatorTerm (String (fst it) EmptyString); snd it])
    items.

(** The same without the flat numbers and their operators. *)
Definition item_dice (items : list item) : list Term :=
  flat_map (fun it =>
    match snd it with
    | DiceTerm d => [OperatorTerm (String (fst it) EmptyString); DiceTerm d]
    | _ => []
    end) items.

(** A term without its results. *)
Definition unrolled (t : Term) : Term :=
  match t with
  | DiceTerm d =>
      DiceTerm {| number := number d; faces := faces d;
                  modifiers := modifiers d; results := [];
                  options := options d |}
  | _ => t
  end.

(** The text of a dice term without flavor: count, [d], faces and
    modifiers. *)
Definition dice_text (d : Die) : string :=
  (Host.showZ (number d) ++ "d" ++ Host.showZ (faces d)
   ++ String.concat "" (modifiers d))%string.

(** The text of the items of a formula, each operator set off by
    spaces. *)
Fixpoint items_text (items : list item) : string :=
  match items with
  | [] => EmptyString
  | it :: rest =>
      (String " " (String (fst it) (String " "
         (Host.term_formula (clear_options (snd it)) ++ items_text rest))))%string
  end.

(** The same text once the pattern has removed the flat numbers with
    their operators: the space before the operator stays. *)
Fixpoint stripped_text (items : list item) : string :=
  match items with
  | [] => EmptyString
  | it :: rest =>
      match snd it with
      | DiceTerm d =>
          (String " " (String (fst it) (String " "
             (dice_text d ++ stripped_text rest))))%string
      | _ => String " " (stripped_text rest)
      end
  end.

(** A dice term with [e] more dice. *)
Definition add_dice (e : Z) (t : Term) : Term :=
  match t with
  | DiceTerm d =>
      DiceTerm {| number := number d + e; faces := faces d;
                  modifiers := modifiers d; results := results d;
                  options := options d |}
  | _ => t
  end.

(** A call that returns. *)
Definition returns {A : Type} (m : js A) : Prop := exists a, m = Ret a.

(** A term that carries nested terms. *)
Definition is_pool (t : Term) : bool :=
  match t with
  | PoolTerm _ _ _ => true
  | _ => false
  end.

(** A term as the reference engine parses it: a flat number that is not
    negative, or a plain dice term. *)
Definition plain_term (t : Term) : Prop :=
  match t with
  | NumericTerm k => 0 <= k
  | DiceTerm d => plain_die d
  | _ => False
  end.

(** A later term of a parsed formula with the operator before it. *)
Definition parsed_item (it : item) : Prop :=
  is_sign (fst it) = true /\ plain_term (snd it).

(** The items that are dice terms, each with [e] more dice. *)
Definition kept_items (e : Z) (items : list item) : list item :=
  flat_map (fun it =>
    match snd it with
    | DiceTerm d => [(fst it, add_dice e (DiceTerm d))]
    | _ => []
    end) items.

(** What [processRoll] reads of a die: its face count and, of each result,
    the value and the [rerolled] flag. *)
Definition die_view (d : Die) : Z * list (Z * bool) :=
  (faces d, map (fun x => (result x, rerolled x)) (results d)).

(** The classification in an outcome: [critType] and [isCrit]. *)
Definition verdict (o : js (option Outcome))
    : js (option (option CritType * bool)) :=
  match o with
  | Ret (Some out) => Ret (Some (critType out, isCrit out))
  | Ret None => Ret None
  | Threw => Threw
  end.

(** Everything in an outcome but the roll it points back to. *)
Definition outcome_fields (o : js (option Outcome))
    : js (option (option Z * option bool * option CritType * bool)) :=
  match o with
  | Ret (Some out) =>
      Ret (Some (out_total out, out_ignored out, critType out, isCrit out))
  | Ret None => Ret None
  | Threw => Threw
  end.

(** The operand of [critRegex]: a reference, or a number that no [d]
    follows. *)
Definition critOperand : regex :=
  Alt (Seq (Class (Ascii.eqb "@")) (Plus is_ref_char))
      (Seq (Plus is_digit) (NegLook is_Dd)).

(** ** Utils.getRollFlavors *)

(** An object as [getRollFlavors] reads it.  The function is handed rolls,
    calls itself on terms, and walks into whatever a term keeps under
    [terms] or [results]; of each object it reads [options?.flavor],
    [terms] and [results] and nothing else.  A property that an object
    lacks is [None]. *)
Inductive Node : Type :=
| mkNode (flavor_of : option string)
         (terms_of results_of : option (list Node)).

Definition node_flavor (t : Node) : option string :=
  match t with
  | mkNode f _ _ => f
  end.

(** [x?.terms ?? x?.results ?? []] *)
Definition node_children (x : option Node) : list Node :=
  match x with
  | Some (mkNode _ (Some l) _) => l
  | Some (mkNode _ None (Some l)) => l
  | _ => []
  end.

(** [term.terms || term.results]: an array is truthy, also an empty one. *)
Definition has_children (t : Node) : bool :=
  match t with
  | mkNode _ None None => false
  | _ => true
  end.

(** [Set.prototype.add] on a set of strings kept in insertion order:
    adding a member changes nothing. *)
Definition flavors_add (flavors : list string) (x : string) : list string :=
  if includes_str x flavors then flavors else flavors ++ [x].

(** [if (term.options?.flavor) flavors.add(term.options.flavor)] *)
Definition add_own (flavors : list string) (term : Node) : list string :=
  if truthy_str (node_flavor term)
  then match node_flavor term with
       | Some f => flavors_add flavors f
       | None => flavors
       end
  else flavors.

(** [getRollFlavors(term)], the call with one argument: a fresh set, the
    loop over the children of the argument, and [Array.from] of the set.
    For each child, the result of the recursive call is added to the set
    element by element ([forEach]). *)
Fixpoint getRollFlavors_term (roll : Node) : list string :=
  let fix loop (l : list Node) (flavors : list string) : list string :=
    match l with
    | [] => flavors
    | term :: l' =>
        let flavors := add_own flavors term in
        let flavors :=
          if has_children term
          then fold_left flavors_add (getRollFlavors_term term) flavors
          else flavors in
        loop l' flavors
    end in
  match roll with
  | mkNode _ (Some l) _ => loop l []
  | mkNode _ None (Some l) => loop l []
  | mkNode _ None None => []
  end.

(** The inner loop of [getRollFlavors], over the children of one roll. *)
Fixpoint getRollFlavors_loop (l : list Node) (flavors : list string)
    : list string :=
  match l with
  | [] => flavors
  | term :: l' =>
      let flavors := add_own flavors term in
      let flavors :=
        if has_children term
        then fold_left flavors_add (getRollFlavors_term term) flavors
        else flavors in
      getRollFlavors_loop l' flavors
  end.

(** [getRollFlavors(...rolls)]: one set for all the rolls; a roll that is
    [null] or [undefined] has no children. *)
Definition getRollFlavors (rolls : list (option Node)) : list string :=
  fold_left (fun flavors roll => getRollFlavors_loop (node_children roll) flavors)
            rolls [].
(** The sub-arrays of an object, empty when absent. *)
Definition node_list (o : option (list Node)) : list Node :=
  match o with
  | Some l => l
  | None => []
  end.

(** The flavor of an object when it is truthy. *)
Definition own_flavor (t : Node) : list string :=
  match node_flavor t with
  | Some (String c s) => [String c s]
  | _ => []
  end.

(** The flavors on an object and below it in depth-first order: its own,
    then for each child in turn those of the child. *)
Fixpoint node_flavors (t : Node) : list string :=
  let fix go (l : list Node) : list string :=
    match l with
    | [] => []
    | x :: l' => node_flavors x ++ go l'
    end in
  own_flavor t ++
  match t with
  | mkNode _ (Some l) _ => go l
  | mkNode _ None (Some l) => go l
  | mkNode _ None None => []
  end.

(** The flavors below the rolls, in the order of the rolls. *)
Definition flavors_below (rolls : list (option Node)) : list string :=
  flat_map node_flavors (flat_map node_children rolls).

(** The first occurrences of the elements of a list, in order. *)
Fixpoint firsts (l : list string) : list string :=
  match l with
  | [] => []
  | x :: l' => x :: filter (fun y => negb (String.eqb x y)) (firsts l')
  end.

(** ** ActorUtils.getCritThreshold and ItemUtils.getCritThreshold *)

(** The value of a character as a digit in radix 10 or 16. *)
Definition digit_of (radix : Z) (c : ascii) : option Z :=
  let n := Z.of_nat (nat_of_ascii c) in
  if is_digit c then Some (n - 48)
  else if radix =? 16 then
    if in_range 97 102 c then Some (n - 87)
    else if in_range 65 70 c then Some (n - 55)
    else None
  else None.

(** The number written by the longest prefix of digits of a string;
    [acc] is [None] as long as no digit has been read. *)
Fixpoint read_digits (radix : Z) (s : string) (acc : option Z) : option Z :=
  match s with
  | String c t =>
      match digit_of radix c with
      | Some v =>
          read_digits radix t
            (Some (radix * match acc with Some a => a | None => 0 end + v))
      | None => acc
      end
  | EmptyString => acc
  end.

(** Leading white space is skipped. *)
Fixpoint trim_start (s : string) : string :=
  match s with
  | String c t => if is_space c then trim_start t else s
  | EmptyString => s
  end.

(** [parseInt(s)] without a radix: white space, a sign, the prefix [0x] or
    [0X] for radix 16, and the longest prefix of digits; NaN ([None]) when
    there is no digit.  The value is exact, as it is in JavaScript up to
    2^53. *)
Definition parseInt (s : string) : option Z :=
  let s := trim_start s in
  let signed :=
    match s with
    | String "-" t => (-1, t)
    | String "+" t => (1, t)
    | _ => (1, s)
    end in
  let based :=
    match snd signed with
    | String "0" (String "x" t) => (16, t)
    | String "0" (String "X" t) => (16, t)
    | t => (10, t)
    end in
  match read_digits (fst based) (snd based) None with
  | Some v => Some (fst signed * v)
  | None => None
  end.

(** A flag as it is stored on an actor: absent, a number or a string. *)
Inductive FlagValue : Type :=
| NoValue
| NumValue (n : Z)
| StrValue (s : string).

Definition truthy_value (v : FlagValue) : bool :=
  match v with
  | NoValue => false
  | NumValue n => negb (n =? 0)
  | StrValue s => truthy_str (Some s)
  end.

(** [parseInt(v)]: the argument is converted to a string first. *)
Definition parseInt_value (v : FlagValue) : option Z :=
  match v with
  | NoValue => parseInt "undefined"
  | NumValue n => parseInt (toString (Some n))
  | StrValue s => parseInt s
  end.

(** [actor.data.flags.sw5e], of which two properties are read. *)
Record ActorFlags : Type := mkActorFlags {
  weaponCriticalThreshold : FlagValue;
  powerCriticalThreshold : FlagValue
}.

(** An actor; [sw5e_flags] is [None] when [actor.data.flags.sw5e] is
    missing. *)
Record Actor : Type := mkActor {
  sw5e_flags : option ActorFlags
}.

(** An item: [item.actor], [item.data.type] and
    [item.data.data.critical?.threshold], a number or nothing. *)
Record Item : Type := mkItem {
  item_actor : option Actor;
  item_type : string;
  critical_threshold : option Z
}.

Module ActorUtils.

(** The result is a number, NaN ([None]) when [parseInt] finds no digit. *)
Definition getCritThreshold (actor : option Actor) (itemType : option string)
    : option Z :=
  match actor with
  | None => Some 20
  | Some a =>
      let actorFlags :=
        match sw5e_flags a with
        | Some f => f
        | None => mkActorFlags NoValue NoValue
        end in
      if match itemType with Some ty => String.eqb ty "weapon" | None => false end
         && truthy_value (weaponCriticalThreshold actorFlags)
      then parseInt_value (weaponCriticalThreshold actorFlags)
      else if match itemType with Some ty => String.eqb ty "power" | None => false end
              && truthy_value (powerCriticalThreshold actorFlags)
      then parseInt_value (powerCriticalThreshold actorFlags)
      else Some 20
  end.

End ActorUtils.

Module ItemUtils.

(** [null] without an item; otherwise [Math.min(20, characterCrit,
    itemCrit)], which is NaN when an argument is. *)
Definition getCritThreshold (item : option Item) : option (option Z) :=
  match item with
  | None => None
  | Some i =>
      let itemCrit :=
        match critical_threshold i with
        | Some t => if t =? 0 then 20 else t
        | None => 20
        end in
      let characterCrit :=
        ActorUtils.getCritThreshold (item_actor i) (Some (item_type i)) in
      Some match characterCrit with
           | Some c => Some (Z.min 20 (Z.min c itemCrit))
           | None => None
           end
  end.

End ItemUtils.

(** A crit threshold handed to [processRoll]: [null] and NaN are falsy
    there, as an absent threshold is. *)
Definition as_threshold (t : option (option Z)) : option Z :=
  match t with
  | Some (Some n) => Some n
  | _ => None
  end.

(** The largest integer that a JavaScript number holds exactly together
    with all smaller ones. *)
Definition MAX_SAFE_INTEGER : Z := 9007199254740991.

(** ** Utils.getWhisperData *)

(** An entry of [whisper]: a user object from
    [ChatMessage.getWhisperRecipients], or a user id. *)
Inductive Recipient (U : Type) : Type :=
| UserObject (u : U)
| UserId (id : string).
Arguments UserObject {U} u.
Arguments UserId {U} id.

(** The object returned by [getWhisperData]; [whisper] is [None] when
    undefined and [blind] is [None] when [null]. *)
Record WhisperData (U : Type) : Type := mkWhisperData {
  wd_rollMode : string;
  whisper : option (list (Recipient U));
  blind : option bool
}.
Arguments mkWhisperData {U}.
Arguments wd_rollMode {U}.
Arguments whisper {U}.
Arguments blind {U}.

(** [getWhisperData(rollMode)].  The host supplies the core setting
    [rollMode], the recipients that [getWhisperRecipients("GM")] gives and
    the id of the current user. *)
Definition getWhisperData {U : Type} (setting : string) (gms : list U)
    (userId : string) (rollMode : option string) : WhisperData U :=
  let rollMode :=
    match rollMode with
    | Some (String c s) => String c s
    | _ => setting
    end in
  let whisper :=
    if includes_str rollMode ["gmroll"; "blindroll"]
    then Some (map UserObject gms)
    else None in
  if String.eqb rollMode "blindroll"
  then mkWhisperData rollMode whisper (Some true)
  else if String.eqb rollMode "selfroll"
  then mkWhisperData rollMode (Some [UserId userId]) None
  else mkWhisperData rollMode whisper None.

(** ** Utils.playDiceSound *)

(** The state that [playDiceSound] works on: the lock, the timers set with
    [setTimeout] and not yet run (each with the time from which the host
    may run it), the times at which the sound was played, latest first,
    and the current time in milliseconds. *)
Record SoundState : Type := mkSoundState {
  _playSoundLock : bool;
  timers : list Z;
  played : list Z;
  now : Z
}.

(** Before the first call the lock is [undefined]. *)
Definition silent : SoundState := mkSoundState false [] [] 0.

(** What happens to the state: a call of [playDiceSound()], or the host
    running the callback of the oldest timer; each at a time. *)
Inductive SoundEvent : Type :=
| Call (t : Z)
| Fire (t : Z).

Definition event_time (e : SoundEvent) : Z :=
  match e with
  | Call t => t
  | Fire t => t
  end.

(** [playDiceSound()] at time [t]. *)
Definition playDiceSound (t : Z) (s : SoundState) : SoundState :=
  if _playSoundLock s then mkSoundState true (timers s) (played s) t
  else mkSoundState true (timers s ++ [t + 300]) (t :: played s) t.

(** The callback [() => Utils._playSoundLock = false], run by the host at
    time [t]; a timer does not run before its delay has passed. *)
Definition fire (t : Z) (s : SoundState) : option SoundState :=
  match timers s with
  | due :: rest =>
      if due <=? t then Some (mkSoundState false rest (played s) t) else None
  | [] => None
  end.

(** One event; time does not run backwards. *)
Definition sound_step (s : SoundState) (e : SoundEvent) : option SoundState :=
  if event_time e <? now s then None
  else match e with
       | Call t => Some (playDiceSound t s)
       | Fire t => fire t s
       end.

Fixpoint sound_run (evs : list SoundEvent) (s : SoundState)
    : option SoundState :=
  match evs with
  | [] => Some s
  | e :: evs' =>
      match sound_step s e with
      | Some s' => sound_run evs' s'
      | None => None
      end
  end.
(** Times, latest first, that are at least 300 ms apart. *)
Fixpoint spaced (l : list Z) : Prop :=
  match l with
  | a :: (b :: _) as l' => b + 300 <= a /\ spaced l'
  | _ => True
  end.

(** What holds between the lock, the timers, the times of the sounds and
    the clock. *)
Definition sound_invariant (s : SoundState) : Prop :=
  spaced (played s) /\
  match played s with
  | last :: _ =>
      last <= now s /\
      if _playSoundLock s then timers s = [last + 300]
      else timers s = [] /\ last + 300 <= now s
  | [] => _playSoundLock s = false /\ timers s = []
  end.

(** The modes under which a message is whispered. *)
Definition private_modes : list string := ["gmroll"; "blindroll"; "selfroll"].

(** ** ItemUtils.createFlags *)

(** A JavaScript array whose entries may be [null] or [undefined]. *)
Definition array (A : Type) : Type := list (option A).

(** [a[i]]: [undefined] past the end. *)
Definition array_get {A : Type} (a : array A) (i : nat) : option A :=
  match nth_error a i with
  | Some x => x
  | None => None
  end.

(** [a[i] = x]: an index past the end extends the array, leaving holes. *)
Definition array_set {A : Type} (a : array A) (i : nat) (x : A) : array A :=
  if (i <? List.length a)%nat
  then firstn i a ++ Some x :: skipn (S i) a
  else a ++ repeat None (i - List.length a) ++ [Some x].

(** The [quickDamage] flag as [createFlags] reads and writes it; a
    property that is missing is [None]. *)
Record QuickDamage : Type := mkQuickDamage {
  qd_type : option string;
  qd_value : option (array bool);
  qd_altValue : option (array bool)
}.

(** The flags of an item: [quickDamage], and the other flags, which
    [createFlags] passes on as [mergeObject] leaves them. *)
Record Flags (F : Type) : Type := mkFlags {
  quickDamage : option QuickDamage;
  other_flags : F
}.
Arguments mkFlags {F}.
Arguments quickDamage {F}.
Arguments other_flags {F}.

(** [itemData.data.damage]; [parts] is [None] when the property is
    missing. *)
Record Damage (P : Type) : Type := mkDamage {
  parts : option (list P)
}.
Arguments mkDamage {P}.
Arguments parts {P}.

(** [itemData]: [type], [flags] ([None] when nullish, [Some None] when
    the object has no [betterRollssw5e]) and [data.damage]. *)
Record ItemData (F P : Type) : Type := mkItemData {
  idata_type : string;
  idata_flags : option (option (Flags F));
  idata_damage : option (Damage P)
}.
Arguments mkItemData {F P}.
Arguments idata_type {F P}.
Arguments idata_flags {F P}.
Arguments idata_damage {F P}.

Section CreateFlags.

Variables F P : Type.

(** The host and the module configuration: [mergeObject], the flags of
    the object [{}], [CONFIG.betterRollssw5e.validItemTypes] and
    [CONFIG.betterRollssw5e.allFlags]. *)
Variable mergeObject : Flags F -> Flags F -> Flags F.
Variable no_flags : F.
Variable validItemTypes : list string.
Variable allFlags : string -> option (Flags F).

(** The loop over the damage parts: [k] rounds are left and [i] is the
    index.  Reading an entry of an array that is missing throws. *)
Fixpoint createFlags_loop (k i : nat) (q : QuickDamage)
    (newQuickDamageValues newQuickDamageAltValues : array bool)
    : js (array bool * array bool) :=
  match k with
  | O => Ret (newQuickDamageValues, newQuickDamageAltValues)
  | S k' =>
      v <- match qd_value q with
           | Some a => Ret (array_get a i)
           | None => Threw
           end ;;
      let newQuickDamageValues :=
        array_set newQuickDamageValues i
          (match v with Some b => b | None => true end) in
      w <- match qd_altValue q with
           | Some a => Ret (array_get a i)
           | None => Threw
           end ;;
      let newQuickDamageAltValues :=
        array_set newQuickDamageAltValues i
          (match w with Some b => b | None => true end) in
      createFlags_loop k' (S i) q newQuickDamageValues newQuickDamageAltValues
  end.

(** [createFlags(itemData)].  The result is the returned flags
    ([undefined] is [None]) with [itemData] as the call leaves it:
    [itemData.flags] is set to an object when it was nullish.
    [duplicate] copies its argument and throws on [undefined]. *)
Definition createFlags (itemData : option (ItemData F P))
    : js (option (Flags F) * option (ItemData F P)) :=
  match itemData with
  | None => Ret (None, None)
  | Some d =>
      if negb (includes_str (idata_type d) validItemTypes)
      then Ret (None, Some d)
      else
        let flags0 :=
          match idata_flags d with
          | Some f => f
          | None => None
          end in
        let d' := mkItemData (idata_type d) (Some flags0) (idata_damage d) in
        match allFlags (idata_type d ++ "Flags")%string with
        | None => Threw
        | Some baseFlags =>
            let flags :=
              mergeObject baseFlags
                match flags0 with
                | Some f => f
                | None => mkFlags None no_flags
                end in
            match quickDamage baseFlags with
            | None => Ret (Some flags, Some d')
            | Some _ =>
                let q :=
                  match quickDamage flags with
                  | Some q => q
                  | None => mkQuickDamage (Some "Array") (Some []) (Some [])
                  end in
                n <- match idata_damage d with
                     | None => Ret 0%nat
                     | Some dmg =>
                         match parts dmg with
                         | Some ps => Ret (List.length ps)
                         | None => Threw
                         end
                     end ;;
                new <- createFlags_loop n 0 q [] [] ;;
                Ret (Some (mkFlags
                             (Some (mkQuickDamage (qd_type q)
                                      (Some (fst new)) (Some (snd new))))
                             (other_flags flags)),
                     Some d')
            end
        end
  end.

End CreateFlags.

(** The choice kept for entry [i]: the one there is, [true] without
    one. *)
Definition kept_choice (old : array bool) (i : nat) : bool :=
  match array_get old i with
  | Some b => b
  | None => true
  end.

(** * Properties *)

(** ** Induction on terms *)

Section Term_induction.

Variable P : Term -> Prop.
Hypothesis P_dice : forall d, P (DiceTerm d).
Hypothesis P_operator : forall op, P (OperatorTerm op).
Hypothesis P_numeric : forall n, P (NumericTerm n).
Hypothesis P_pool : forall ts rs m,
  Forall P (opt_list ts) -> Forall P (opt_list rs) -> P (PoolTerm ts rs m).

Fixpoint Term_nested_ind (t : Term) : P t :=
  let fix all (l : list Term) : Forall P l :=
    match l with
    | [] => Forall_nil P
    | x :: l' => Forall_cons x (Term_nested_ind x) (all l')
    end in
  match t with
  | DiceTerm d => P_dice d
  | OperatorTerm op => P_operator op
  | NumericTerm n => P_numeric n
  | PoolTerm ts rs m =>
      P_pool ts rs m
        (match ts return Forall P (opt_list ts) with
         | Some l => all l
         | None => Forall_nil P
         end)
        (match rs return Forall P (opt_list rs) with
         | Some l => all l
         | None => Forall_nil P
         end)
  end.

End Term_induction.

(** ** The d20 term locator *)

Lemma first_d20_app l1 l2 :
  first_d20 (l1 ++ l2) =
  match first_d20 l1 with
  | Obj t => Obj t
  | _ => first_d20 l2
  end.
Proof.
  unfold first_d20. induction l1 as [|x l1 IH]; simpl.
  - destruct (find is_d20 l2); reflexivity.
  - destruct (is_d20 x); [reflexivity | exact IH].
Qed.

Lemma first_d20_cons x l :
  first_d20 (x :: l) = if is_d20 x then Obj x else first_d20 l.
Proof. unfold first_d20. simpl. destruct (is_d20 x); reflexivity. Qed.

Lemma descendants_children t l :
  term_children t = Some l -> descendants t = dfs l.
Proof.
  destruct t as [d|op|n|ts rs m]; simpl; try discriminate.
  assert (Hgo : forall l0,
    (fix go (l : list Term) : list Term :=
       match l with
       | [] => []
       | x :: l' => x :: descendants x ++ go l'
       end) l0 = dfs l0).
  { induction l0 as [|x l0 IH]; simpl; [reflexivity|]. now rewrite IH. }
  destruct ts as [l1|]; [|destruct rs as [l2|]]; intros H; inversion H;
    subst; apply Hgo.
Qed.

Lemma descendants_leaf t : term_children t = None -> descendants t = [].
Proof.
  destruct t as [d|op|n|ts rs m]; simpl; try reflexivity.
  destruct ts; [discriminate|]. destruct rs; [discriminate|reflexivity].
Qed.

Lemma findD20Term_term_children t l :
  term_children t = Some l -> findD20Term_term t = findD20Term_loop l.
Proof.
  destruct t as [d|op|n|ts rs m]; simpl; try discriminate.
  assert (Hloop : forall l0,
    (fix loop (l : list Term) : ref Term :=
       match l with
       | [] => Undefined
       | x :: l' =>
           if is_d20 x then Obj x
           else match term_children x with
                | Some _ => match findD20Term_term x with
                            | Obj y => Obj y
                            | _ => loop l'
                            end
                | None => loop l'
                end
       end) l0 = findD20Term_loop l0).
  { induction l0 as [|x l0 IH]; simpl; [reflexivity|]. now rewrite IH. }
  destruct ts as [l1|]; [|destruct rs as [l2|]]; intros H; inversion H;
    subst; apply Hloop.
Qed.

(** The loop of [findD20Term] returns the first d20 of the depth-first
    order. *)
Lemma findD20Term_loop_dfs l : findD20Term_loop l = first_d20 (dfs l).
Proof.
  revert l.
  assert (Hterm : forall t l,
    term_children t = Some l -> findD20Term_loop l = first_d20 (dfs l)).
  { induction t as [d|op|n|ts rs m IHts IHrs] using Term_nested_ind;
      simpl; try discriminate.
    intros l Hl.
    assert (Hall : Forall (fun t => forall l0, term_children t = Some l0 ->
                     findD20Term_loop l0 = first_d20 (dfs l0)) l).
    { destruct ts as [l1|]; [|destruct rs as [l2|]]; inversion Hl; subst;
        [exact IHts | exact IHrs]. }
    clear - Hall. induction Hall as [|x l Hx _ IH]; [reflexivity|].
    simpl. rewrite first_d20_cons.
    destruct (is_d20 x); [reflexivity|].
    rewrite first_d20_app.
    destruct (term_children x) as [ch|] eqn:Hch.
    - rewrite (findD20Term_term_children _ _ Hch),
        (descendants_children _ _ Hch), (Hx _ eq_refl), IH.
      destruct (first_d20 (dfs ch)); reflexivity.
    - rewrite (descendants_leaf _ Hch), IH. reflexivity. }
  intros l. apply (Hterm (PoolTerm (Some l) None [])). reflexivity.
Qed.

(** A term that the locator returns is a dice term with 20 faces. *)
Lemma findD20Term_loop_obj l t :
  findD20Term_loop l = Obj t ->
  exists d, t = DiceTerm d /\ faces d = 20.
Proof.
  rewrite findD20Term_loop_dfs. unfold first_d20.
  destruct (find is_d20 (dfs l)) as [x|] eqn:Hf; [|discriminate].
  intros H. inversion H; subst. apply find_some in Hf. destruct Hf as [_ Hd].
  unfold is_d20 in Hd. destruct t as [d| | |]; simpl in Hd; try discriminate.
  exists d. split; [reflexivity|]. now apply Z.eqb_eq.
Qed.

Lemma one_branch_children t l :
  one_branch t = true -> term_children t = Some l ->
  forallb one_branch l = true /\ nested t = whole_tree l.
Proof.
  assert (Hall : forall l0,
    (fix all (l : list Term) : bool :=
       match l with
       | [] => true
       | x :: l' => one_branch x && all l'
       end) l0 = forallb one_branch l0).
  { induction l0 as [|x l0 IH]; simpl; [reflexivity | now rewrite IH]. }
  assert (Hgo : forall l0,
    (fix go (l : list Term) : list Term :=
       match l with
       | [] => []
       | x :: l' => x :: nested x ++ go l'
       end) l0 = whole_tree l0).
  { induction l0 as [|x l0 IH]; simpl; [reflexivity | now rewrite IH]. }
  destruct t as [d|op|n|ts rs m]; simpl; try discriminate.
  destruct ts as [l1|]; destruct rs as [l2|]; try discriminate;
    intros H1 H2; inversion H2; subst; rewrite Hall in H1;
    rewrite ?Hgo, ?app_nil_r; split; auto.
Qed.

Lemma nested_leaf t : term_children t = None -> nested t = [].
Proof.
  destruct t as [d|op|n|ts rs m]; simpl; try reflexivity.
  destruct ts; [discriminate|]. destruct rs; [discriminate | reflexivity].
Qed.

(** Where no term carries both [terms] and [rolls], the walk of the code
    covers the whole tree. *)
Lemma dfs_whole_tree l :
  forallb one_branch l = true -> dfs l = whole_tree l.
Proof.
  revert l.
  assert (Hterm : forall t l, term_children t = Some l ->
    forallb one_branch l = true -> dfs l = whole_tree l).
  { induction t as [d|op|n|ts rs m IHts IHrs] using Term_nested_ind;
      simpl; try discriminate.
    intros l Hl.
    assert (Hall : Forall (fun t => forall l0, term_children t = Some l0 ->
                     forallb one_branch l0 = true ->
                     dfs l0 = whole_tree l0) l).
    { destruct ts as [l1|]; [|destruct rs as [l2|]]; inversion Hl; subst;
        [exact IHts | exact IHrs]. }
    clear - Hall. induction Hall as [|x l Hx _ IH]; [reflexivity|].
    cbn [forallb]. intros H. apply andb_true_iff in H.
    destruct H as [H1 H2]. unfold dfs, whole_tree in *.
    cbn [flat_map]. rewrite (IH H2). f_equal. f_equal.
    destruct (term_children x) as [ch|] eqn:Hch.
    - destruct (one_branch_children x ch H1 Hch) as [Hb Hn].
      rewrite (descendants_children _ _ Hch), Hn. now apply (Hx ch).
    - now rewrite (descendants_leaf _ Hch), (nested_leaf _ Hch). }
  intros l. apply (Hterm (PoolTerm (Some l) None [])). reflexivity.
Qed.

(** What C9 states of the whole tree fails on a term that carries nested
    terms under [rolls] beside its [terms]: the code descends into
    [terms ?? rolls], so the d20 under [rolls] is in the tree, the first
    one there, and is not found. *)
Lemma findD20Term_rolls_beside_terms_counterexample :
  let d20 := DiceTerm (mkDie 1 20 [] [] no_options) in
  let r := roll_of [PoolTerm (Some []) (Some [d20]) []] in
  In d20 (whole_tree (roll_terms r)) /\
  first_d20 (whole_tree (roll_terms r)) = Obj d20 /\
  findD20Term (Some r) = Undefined.
Proof.
  cbv zeta. split; [right; left; reflexivity|]. split; reflexivity.
Qed.

(** C9, amended.  [findD20Term] returns the first dice term with 20 faces
    that a depth-first walk of the expression meets, the walk descending
    into the [terms] of a term and, only when the term has no [terms],
    into its [rolls]; where no term carries both, that is the first such
    term of the whole tree.  It returns [undefined] when the walk meets no
    such term, and [null] when no expression is given.  The function is
    pure: the expression is its argument and is not changed. *)
Theorem findD20Term_first_depth_first :
  findD20Term None = Null /\
  (forall r, findD20Term (Some r) = first_d20 (dfs (roll_terms r))) /\
  (forall r t, findD20Term (Some r) = Obj t ->
     In t (dfs (roll_terms r)) /\ exists d, t = DiceTerm d /\ faces d = 20) /\
  (forall r, findD20Term (Some r) = Undefined <->
     forall t, In t (dfs (roll_terms r)) -> is_d20 t = false) /\
  (forall r, forallb one_branch (roll_terms r) = true ->
     dfs (roll_terms r) = whole_tree (roll_terms r) /\
     findD20Term (Some r) = first_d20 (whole_tree (roll_terms r)) /\
     (findD20Term (Some r) = Undefined <->
      forall t, In t (whole_tree (roll_terms r)) -> is_d20 t = false)).
Proof.
  assert (Hnone : forall r, findD20Term (Some r) = Undefined <->
     forall t, In t (dfs (roll_terms r)) -> is_d20 t = false).
  { intros r. simpl. rewrite findD20Term_loop_dfs. unfold first_d20.
    destruct (find is_d20 (dfs (roll_terms r))) as [x|] eqn:Hf.
    + split; [discriminate|]. intros H. apply find_some in Hf.
      destruct Hf as [Hin Hd]. rewrite (H _ Hin) in Hd. discriminate.
    + split; [|reflexivity]. intros _ t Hin.
      destruct (is_d20 t) eqn:Hd; [|reflexivity].
      now rewrite (find_none _ _ Hf _ Hin) in Hd. }
  split; [reflexivity|]. split; [intros r; apply findD20Term_loop_dfs|].
  split; [|split; [exact Hnone|]].
  - intros r t H. split; [|now apply (findD20Term_loop_obj (roll_terms r))].
    simpl in H. rewrite findD20Term_loop_dfs in H. unfold first_d20 in H.
    destruct (find is_d20 (dfs (roll_terms r))) as [x|] eqn:Hf;
      [|discriminate].
    inversion H; subst. now apply find_some in Hf.
  - intros r Hr. pose proof (dfs_whole_tree (roll_terms r) Hr) as Hw.
    split; [exact Hw|]. rewrite <- Hw.
    split; [apply findD20Term_loop_dfs | apply Hnone].
Qed.

Lemma findD20Term_first_depth_first_witness :
  let d8 := DiceTerm (mkDie 1 8 [] [] no_options) in
  let inner := DiceTerm (mkDie 2 20 ["kh"] [] no_options) in
  let later := DiceTerm (mkDie 1 20 [] [] no_options) in
  let r := mkRoll
             [NumericTerm 5; OperatorTerm "+";
              PoolTerm None (Some [PoolTerm (Some [d8; inner]) None []]) [];
              OperatorTerm "+"; later]
             None None false false in
  findD20Term (Some r) = Obj inner /\ In inner (dfs (roll_terms r)) /\
  findD20Term (Some r) = first_d20 (whole_tree (roll_terms r)).
Proof.
  intros d8 inner later r.
  destruct findD20Term_first_depth_first as [_ [Hfirst [Hobj [_ Hwhole]]]].
  assert (Hfind : findD20Term (Some r) = Obj inner).
  { rewrite Hfirst. reflexivity. }
  split; [exact Hfind|]. split; [exact (proj1 (Hobj r inner Hfind))|].
  exact (proj1 (proj2 (Hwhole r eq_refl))).
Defined.

(** ** The roll state resolver *)

(** The recursive call of [getRollState] is the function itself. *)
Lemma getRollState_inner_eq a :
  event a = None -> getRollState_inner a = getRollState a.
Proof.
  intros H. unfold getRollState, getRollState_inner, getRollState_body.
  rewrite H. reflexivity.
Qed.

Lemma getRollState_unfold a :
  getRollState a = getRollState_body getRollState a.
Proof.
  unfold getRollState at 1. unfold getRollState_body.
  destruct (event a) as [ev|]; [|reflexivity].
  rewrite getRollState_inner_eq; reflexivity.
Qed.

(** C6.  [getRollState] resolves in this order: an explicit roll state is
    returned as it is, whatever the flags; else an advantage flag gives
    "highest"; else a disadvantage flag gives "lowest"; else the modifier
    keys of the event are translated (shift to advantage, control or meta
    to disadvantage) and resolved again; else the result is [null]. *)
Theorem getRollState_precedence (a : RollStateArgs) :
  getRollState a =
  if truthy_str (rollState a) then rollState a
  else if truthy_flag (advantage a) || truthy_flag (adv a) then Some highest
  else if truthy_flag (disadvantage a) || truthy_flag (disadv a)
  then Some lowest
  else match event a with
       | Some ev =>
           if shiftKey ev then Some highest
           else if ctrlKey ev || metaKey ev then Some lowest
           else None
       | None => None
       end.
Proof.
  unfold getRollState, getRollState_body.
  destruct (truthy_str (rollState a)); [reflexivity|].
  destruct (truthy_flag (advantage a) || truthy_flag (adv a));
    [reflexivity|].
  destruct (truthy_flag (disadvantage a) || truthy_flag (disadv a));
    [reflexivity|].
  destruct (event a) as [ev|]; [|reflexivity].
  unfold eventToAdvantage.
  destruct (shiftKey ev); [reflexivity|].
  destruct (ctrlKey ev || metaKey ev); reflexivity.
Qed.

(** The example of the specification: an explicit "lowest" wins over a set
    advantage flag. *)
Example getRollState_explicit_over_flag :
  getRollState (mkArgs (Some lowest) None (FBool true) FNull FNull FNull)
  = Some lowest.
Proof. reflexivity. Qed.

(** Without arguments there is no roll state. *)
Example getRollState_no_args : getRollState no_args = None.
Proof. reflexivity. Qed.

(** A flag wins over the keys of the event. *)
Example getRollState_flag_over_event :
  getRollState
    (mkArgs None (Some (mkEvent true false false)) FNull (FNum 1) FNull FNull)
  = Some lowest.
Proof. reflexivity. Qed.

(** ** The outcome classifier *)

Lemma tally_nonneg q l : 0 <= tally q l.
Proof. unfold tally. lia. Qed.

Lemma tally_app q l1 l2 : tally q (l1 ++ l2) = tally q l1 + tally q l2.
Proof. unfold tally. rewrite filter_app, List.length_app. lia. Qed.

Lemma tally_cons q d r l :
  tally q ((d, r) :: l) = (if q d r then 1 else 0) + tally q l.
Proof.
  unfold tally. simpl. destruct (q d r); simpl List.length; lia.
Qed.

Lemma count_result_fold threshold d rs h l :
  fold_left (count_result (effective_threshold threshold d)) rs (h, l) =
  (h + tally (is_high threshold) (map (pair d) rs),
   l + tally (is_low threshold) (map (pair d) rs)).
Proof.
  revert h l. induction rs as [|r rs IH]; intros h l.
  - unfold tally. simpl. f_equal; lia.
  - cbn [fold_left map]. rewrite !tally_cons.
    replace (count_result (effective_threshold threshold d) (h, l) r)
      with (if is_high threshold d r then (h + 1, l)
            else if is_one d r then (h, l + 1) else (h, l))
      by reflexivity.
    replace (is_low threshold d r)
      with (is_one d r && negb (is_high threshold d r)) by reflexivity.
    destruct (is_high threshold d r); destruct (is_one d r); simpl andb;
      rewrite IH; f_equal; lia.
Qed.

Lemma critChecks_selects_ret c f :
  c <> CritBool false ->
  critChecks_selects c f = Ret (selected_by_code c f).
Proof.
  intros Hc. unfold critChecks_selects, selected_by_code.
  destruct (loose_eq_true c) eqn:Hl; [reflexivity|].
  destruct c as [[|]|l]; simpl in *; try discriminate; try reflexivity.
  now contradiction Hc.
Qed.

Lemma count_dice_tally threshold c ds h l :
  c <> CritBool false ->
  count_dice threshold c (h, l) ds =
  Ret (h + tally (is_high threshold) (counted (selected_by_code c) ds),
       l + tally (is_low threshold) (counted (selected_by_code c) ds)).
Proof.
  intros Hc. revert h l. induction ds as [|d ds IH]; intros h l.
  - simpl. unfold tally. simpl. do 2 f_equal; lia.
  - simpl count_dice. unfold count_die.
    change (counted (selected_by_code c) (d :: ds)) with
      ((if (faces d >? 1) && selected_by_code c (faces d)
        then map (pair d) (active_results d) else [])
       ++ counted (selected_by_code c) ds).
    rewrite !tally_app.
    destruct (faces d >? 1); simpl andb.
    + rewrite (critChecks_selects_ret c (faces d) Hc). simpl js_bind.
      destruct (selected_by_code c (faces d)).
      * simpl js_bind. rewrite count_result_fold, IH.
        do 2 f_equal; lia.
      * simpl js_bind. rewrite IH. unfold tally at 2 4. simpl.
        do 2 f_equal; lia.
    + simpl js_bind. rewrite IH. unfold tally at 2 4. simpl.
      do 2 f_equal; lia.
Qed.

Lemma crit_selector_code c f :
  crit_selector c -> selected_by_code c f = selected_by c f.
Proof.
  unfold selected_by_code.
  intros [-> | [l [-> Hl]]]; [reflexivity|].
  assert (Hloose : loose_eq_true (CritFaces l) = false).
  { destruct l as [|x [|y l]]; [reflexivity| |].
    - destruct x as [|[p|p|]|p]; try reflexivity. now contradiction Hl.
    - destruct x as [|[p|p|]|p]; reflexivity. }
  now rewrite Hloose.
Qed.

Lemma crit_selector_not_false c : crit_selector c -> c <> CritBool false.
Proof. intros [-> | [l [-> _]]]; discriminate. Qed.

Lemma classify_cases high low :
  0 <= high -> 0 <= low ->
  (0 < high -> 0 < low -> classify high low = Some mixed) /\
  (0 < high -> low = 0 -> classify high low = Some success) /\
  (high = 0 -> 0 < low -> classify high low = Some failure) /\
  (high = 0 -> low = 0 -> classify high low = None).
Proof.
  intros Hh Hl. unfold classify.
  destruct (high >? 0) eqn:H1; destruct (low >? 0) eqn:H2; simpl;
    repeat split; intros; try reflexivity; lia.
Qed.

(** What C1 states of the low tally fails when the threshold is at most 1:
    on a d20 that shows 1 under threshold 1, the result is counted as high
    and not as low, and the roll is a success, where a low tally of every
    result equal to 1 would make it mixed. *)
Lemma processRoll_low_tally_counterexample :
  let d := mkDie 1 20 [] [mkResult 1 false false] no_options in
  let r := mkRoll [DiceTerm d] None (Some 1) false true in
  exists out,
    processRoll (Some r) (Some 1) (CritBool true) None = Ret (Some out) /\
    critType out = Some success /\
    classify
      (tally (is_high (Some 1)) (counted (selected_by (CritBool true)) (dice r)))
      (tally is_one (counted (selected_by (CritBool true)) (dice r)))
    = Some mixed.
Proof. simpl. eexists. repeat split. Qed.

(** C1, amended.  For a roll and a selector that is [true] or an array of
    face counts other than [[1]], [processRoll] returns an outcome whose
    tallies run over the active (not rerolled) results of the dice with
    more than one face that the selector selects: [high] counts
    the results at or above the threshold (the face count of the die when
    the threshold is unset or 0), [low] counts the results equal to 1 that
    are below that threshold.  [critType] is "mixed" when both are
    positive, "success" when only [high] is, "failure" when only [low] is,
    [null] otherwise; [isCrit] is [high > 0].  Without a roll the result
    is [null]. *)
Theorem processRoll_classifies (r : Roll) (threshold : option Z)
    (c : CritChecks) (bonus : option Roll) :
  crit_selector c ->
  let high := tally (is_high threshold) (counted (selected_by c) (dice r)) in
  let low := tally (is_low threshold) (counted (selected_by c) (dice r)) in
  processRoll None threshold c bonus = Ret None /\
  exists out,
    processRoll (Some r) threshold c bonus = Ret (Some out) /\
    out_roll out = r /\
    (isCrit out = true <-> 0 < high) /\
    (0 < high -> 0 < low -> critType out = Some mixed) /\
    (0 < high -> low = 0 -> critType out = Some success) /\
    (high = 0 -> 0 < low -> critType out = Some failure) /\
    (high = 0 -> low = 0 -> critType out = None).
Proof.
  intros Hc high low. split; [reflexivity|].
  unfold processRoll.
  rewrite (count_dice_tally threshold c (dice r) 0 0
             (crit_selector_not_false c Hc)).
  simpl js_bind. eexists. split; [reflexivity|].
  simpl.
  assert (Hsel : counted (selected_by_code c) (dice r)
                 = counted (selected_by c) (dice r)).
  { unfold counted. apply flat_map_ext. intros d.
    now rewrite (crit_selector_code c (faces d) Hc). }
  rewrite Hsel. fold high. fold low.
  split; [reflexivity|]. split; [apply Z.gtb_lt|].
  apply classify_cases; apply tally_nonneg.
Qed.

Lemma processRoll_classifies_witness :
  let d := mkDie 2 20 ["kh"]
             [mkResult 20 false false; mkResult 1 false true] no_options in
  let r := mkRoll [DiceTerm d] None (Some 20) false true in
  exists out,
    processRoll (Some r) (Some 20) (CritFaces [20]) None = Ret (Some out) /\
    critType out = Some mixed /\ isCrit out = true.
Proof.
  intros d r.
  assert (Hc : crit_selector (CritFaces [20])).
  { right. exists [20]. split; [reflexivity | discriminate]. }
  destruct (processRoll_classifies r (Some 20) (CritFaces [20]) None Hc)
    as [_ [out [Hout [_ [Hcrit [Hmixed _]]]]]].
  exists out. split; [exact Hout|]. split.
  - apply Hmixed; vm_compute; reflexivity.
  - apply Hcrit. vm_compute. reflexivity.
Defined.

(** The array [[1]] compares equal to [true], so it selects every die: a
    d20 is counted although 20 is not in the array. *)
Example processRoll_array_of_one :
  let d := mkDie 1 20 [] [mkResult 20 false false] no_options in
  let r := mkRoll [DiceTerm d] None (Some 20) false true in
  selected_by (CritFaces [1]) 20 = false /\
  exists out,
    processRoll (Some r) None (CritFaces [1]) None = Ret (Some out) /\
    isCrit out = true.
Proof. simpl. split; [reflexivity|]. eexists. split; reflexivity. Qed.

(** [false] has no [includes]: the call throws on the first die with more
    than one face. *)
Example processRoll_false_throws :
  let d := mkDie 1 20 [] [mkResult 20 false false] no_options in
  let r := mkRoll [DiceTerm d] None (Some 20) false true in
  processRoll (Some r) None (CritBool false) None = Threw.
Proof. reflexivity. Qed.

Lemma tally_none q l :
  (forall d r, q d r = false) -> tally q l = 0.
Proof.
  intros Hq. unfold tally.
  induction l as [|[d r] l IH]; [reflexivity|].
  simpl. rewrite Hq. exact IH.
Qed.

Lemma tally_hit q l d x :
  In (d, x) l -> q d x = true -> 0 < tally q l.
Proof.
  intros Hin Hq. apply in_split in Hin. destruct Hin as [l1 [l2 ->]].
  rewrite tally_app, tally_cons, Hq.
  pose proof (tally_nonneg q l1). pose proof (tally_nonneg q l2). lia.
Qed.

Lemma is_low_threshold_one d r : is_low (Some 1) d r = false.
Proof.
  unfold is_low, is_one, is_high, effective_threshold. simpl.
  destruct (result r =? 1) eqn:H1; [|reflexivity].
  apply Z.eqb_eq in H1. rewrite H1. reflexivity.
Qed.

Lemma classify_no_low high :
  classify high 0 <> Some failure /\ classify high 0 <> Some mixed.
Proof.
  unfold classify. destruct (high >? 0); simpl; split; discriminate.
Qed.

Lemma count_dice_threshold_zero c ds hl :
  count_dice (Some 0) c hl ds = count_dice None c hl ds.
Proof.
  revert hl. induction ds as [|d ds IH]; intros hl; [reflexivity|].
  simpl. replace (count_die (Some 0) c hl d) with (count_die None c hl d)
    by reflexivity.
  destruct (count_die None c hl d); simpl; [apply IH | reflexivity].
Qed.

(** C10.  Under threshold 1 every active result of a selected die that is
    at least 1, a result of exactly 1 included, is counted as high, and the
    low tally stays 0: the outcome is a critical hit exactly when there is
    such a result, its [critType] is then "success" and otherwise [null],
    never "failure" or "mixed".  A threshold of 0 is falsy and is treated
    as an unset threshold: the outcome is the one without a threshold,
    classified by the tallies against the face count of each die. *)
Theorem processRoll_threshold_one (r : Roll) (c : CritChecks)
    (bonus : option Roll) :
  c <> CritBool false ->
  let selected := counted (selected_by_code c) (dice r) in
  let high := tally (fun _ res => result res >=? 1) selected in
  let high0 := tally (fun d res => result res >=? faces d) selected in
  let low0 :=
    tally (fun d res => (result res =? 1) && negb (result res >=? faces d))
      selected in
  (forall hl res, 1 <= result res ->
     count_result 1 hl res = (fst hl + 1, snd hl)) /\
  (forall d, effective_threshold (Some 1) d = 1 /\
             effective_threshold (Some 0) d = faces d) /\
  (exists out,
     processRoll (Some r) (Some 1) c bonus = Ret (Some out) /\
     out_roll out = r /\
     (isCrit out = true <-> 0 < high) /\
     (0 < high -> critType out = Some success) /\
     (high = 0 -> critType out = None) /\
     (forall d res, In (d, res) selected -> 1 <= result res ->
        isCrit out = true /\ critType out = Some success) /\
     critType out <> Some failure /\ critType out <> Some mixed) /\
  (exists out0,
     processRoll (Some r) (Some 0) c bonus = Ret (Some out0) /\
     processRoll (Some r) None c bonus = Ret (Some out0) /\
     out_roll out0 = r /\
     (isCrit out0 = true <-> 0 < high0) /\
     (0 < high0 -> 0 < low0 -> critType out0 = Some mixed) /\
     (0 < high0 -> low0 = 0 -> critType out0 = Some success) /\
     (high0 = 0 -> 0 < low0 -> critType out0 = Some failure) /\
     (high0 = 0 -> low0 = 0 -> critType out0 = None)).
Proof.
  intros Hc selected high high0 low0. split; [|split; [|split]].
  - intros hl res Hres. unfold count_result.
    destruct (result res >=? 1) eqn:H1; [reflexivity|].
    rewrite Z.geb_leb in H1. apply Z.leb_gt in H1. lia.
  - intros d. split; reflexivity.
  - assert (Hcount : count_dice (Some 1) c (0, 0) (dice r) = Ret (high, 0)).
    { rewrite (count_dice_tally (Some 1) c (dice r) 0 0 Hc).
      rewrite (tally_none (is_low (Some 1))
                 _ is_low_threshold_one).
      reflexivity. }
    unfold processRoll. rewrite Hcount. cbn [js_bind].
    eexists. split; [reflexivity|].
    cbn [out_roll isCrit critType fst snd].
    pose proof (tally_nonneg (fun _ res => result res >=? 1) selected) as Hh.
    fold high in Hh.
    destruct (classify_cases high 0 Hh (Z.le_refl 0))
      as [_ [Hsuccess [_ Hnone]]].
    assert (Hpos : forall d res, In (d, res) selected -> 1 <= result res ->
                     0 < high).
    { intros d res Hin Hres. apply (tally_hit _ selected d res Hin).
      apply Z.geb_le. exact Hres. }
    split; [reflexivity|]. split; [apply Z.gtb_lt|].
    split; [intros H; now apply Hsuccess|].
    split; [intros H; now apply Hnone|].
    split; [|apply classify_no_low].
    intros d res Hin Hres. pose proof (Hpos d res Hin Hres) as H.
    split; [now apply Z.gtb_lt | now apply Hsuccess].
  - assert (Hcount : count_dice None c (0, 0) (dice r) = Ret (high0, low0)).
    { rewrite (count_dice_tally None c (dice r) 0 0 Hc). reflexivity. }
    unfold processRoll. rewrite count_dice_threshold_zero, Hcount.
    cbn [js_bind]. eexists. split; [reflexivity|]. split; [reflexivity|].
    cbn [out_roll isCrit critType fst snd].
    split; [reflexivity|]. split; [apply Z.gtb_lt|].
    apply classify_cases; apply tally_nonneg.
Qed.

Lemma processRoll_threshold_one_witness :
  let d := mkDie 2 20 []
             [mkResult 1 false false; mkResult 7 false false] no_options in
  let r := mkRoll [DiceTerm d] None (Some 8) false true in
  exists out,
    processRoll (Some r) (Some 1) (CritBool true) None = Ret (Some out) /\
    isCrit out = true /\ critType out = Some success.
Proof.
  intros d r.
  assert (Hc : CritBool true <> CritBool false) by discriminate.
  destruct (processRoll_threshold_one r (CritBool true) None Hc)
    as [_ [_ [[out [Hout [_ [_ [_ [_ [Hhit _]]]]]]] _]]].
  exists out. split; [exact Hout|].
  apply (Hhit d (mkResult 1 false false)).
  - left. reflexivity.
  - cbn [result]. lia.
Defined.

(** ** The formula normalizer *)

#[local] Arguments findD20Term : simpl never.

Lemma is_d20_dice t : is_d20 t = true -> exists d, t = DiceTerm d /\ faces d = 20.
Proof.
  unfold is_d20. destruct t as [d| | |]; simpl; try discriminate.
  intros H. exists d. split; [reflexivity | now apply Z.eqb_eq].
Qed.

Lemma updateD20_term_children f t l :
  term_children t = Some l ->
  term_children (updateD20_term f t) = Some (updateD20_loop f l) /\
  is_d20 (updateD20_term f t) = false.
Proof.
  destruct t as [d|op|n|ts rs m]; simpl; try discriminate.
  assert (Hloop : forall l0,
    (fix loop (l : list Term) : list Term :=
       match l with
       | [] => []
       | x :: l' =>
           if is_d20 x then
             match x with
             | DiceTerm d => DiceTerm (f d) :: l'
             | _ => x :: l'
             end
           else match term_children x with
                | Some _ => match findD20Term_term x with
                            | Obj _ => updateD20_term f x :: l'
                            | _ => x :: loop l'
                            end
                | None => x :: loop l'
                end
       end) l0 = updateD20_loop f l0).
  { induction l0 as [|x l0 IH]; simpl; [reflexivity|]. now rewrite IH. }
  destruct ts as [l1|]; [|destruct rs as [l2|]]; intros H; inversion H;
    subst; rewrite Hloop; split; reflexivity.
Qed.

(** After the assignment the locator returns the assigned term, when the
    assignment leaves the face count alone. *)
Lemma findD20Term_updateD20_loop f l :
  (forall d, faces (f d) = faces d) ->
  findD20Term_loop (updateD20_loop f l)
  = map_ref (apply_die f) (findD20Term_loop l).
Proof.
  intros Hf. revert l.
  assert (Hterm : forall t l, term_children t = Some l ->
    findD20Term_loop (updateD20_loop f l)
    = map_ref (apply_die f) (findD20Term_loop l)).
  { induction t as [d|op|n|ts rs m IHts IHrs] using Term_nested_ind;
      simpl; try discriminate.
    intros l Hl.
    assert (Hall : Forall (fun t => forall l0, term_children t = Some l0 ->
        findD20Term_loop (updateD20_loop f l0)
        = map_ref (apply_die f) (findD20Term_loop l0)) l).
    { destruct ts as [l1|]; [|destruct rs as [l2|]]; inversion Hl; subst;
        [exact IHts | exact IHrs]. }
    clear - Hall Hf. induction Hall as [|x l Hx _ IH]; [reflexivity|].
    simpl. destruct (is_d20 x) eqn:Hd.
    - destruct (is_d20_dice x Hd) as [d [-> Hfaces]]. simpl.
      unfold is_d20. simpl. rewrite Hf, Hfaces. reflexivity.
    - destruct (term_children x) as [ch|] eqn:Hch.
      + rewrite (findD20Term_term_children _ _ Hch).
        destruct (findD20Term_loop ch) as [| |y] eqn:Hfind.
        * simpl. rewrite Hd, Hch, (findD20Term_term_children _ _ Hch), Hfind.
          exact IH.
        * simpl. rewrite Hd, Hch, (findD20Term_term_children _ _ Hch), Hfind.
          exact IH.
        * destruct (updateD20_term_children f x ch Hch) as [Hch' Hd'].
          simpl. rewrite Hd', Hch'.
          rewrite (findD20Term_term_children _ _ Hch'), (Hx _ eq_refl), Hfind.
          reflexivity.
      + simpl. rewrite Hd, Hch. exact IH. }
  intros l. apply (Hterm (PoolTerm (Some l) None [])). reflexivity.
Qed.

(** An assignment that changes nothing leaves the terms as they are. *)
Lemma updateD20_loop_id f l :
  (forall d, findD20Term_loop l = Obj (DiceTerm d) -> f d = d) ->
  updateD20_loop f l = l.
Proof.
  revert l.
  assert (Hterm : forall t l, term_children t = Some l ->
    (forall d, findD20Term_loop l = Obj (DiceTerm d) -> f d = d) ->
    updateD20_loop f l = l).
  { induction t as [d|op|n|ts rs m IHts IHrs] using Term_nested_ind;
      simpl; try discriminate.
    intros l Hl.
    assert (Hall : Forall (fun t => forall l0, term_children t = Some l0 ->
        (forall d, findD20Term_loop l0 = Obj (DiceTerm d) -> f d = d) ->
        updateD20_loop f l0 = l0) l).
    { destruct ts as [l1|]; [|destruct rs as [l2|]]; inversion Hl; subst;
        [exact IHts | exact IHrs]. }
    clear - Hall. induction Hall as [|x l Hx _ IH]; [reflexivity|].
    simpl. intros Hid. destruct (is_d20 x) eqn:Hd.
    - destruct (is_d20_dice x Hd) as [d [-> _]].
      now rewrite (Hid d eq_refl).
    - destruct (term_children x) as [ch|] eqn:Hch.
      + rewrite (findD20Term_term_children _ _ Hch) in *.
        destruct (findD20Term_loop ch) as [| |y] eqn:Hfind.
        * now rewrite (IH Hid).
        * now rewrite (IH Hid).
        * f_equal.
          assert (Hch' : updateD20_loop f ch = ch).
          { apply (Hx ch eq_refl). intros d Hy. apply Hid.
            rewrite Hfind in Hy. exact Hy. }
          destruct x as [d|op|n|ts rs m]; simpl in Hch; try discriminate.
          destruct (updateD20_term_children f (PoolTerm ts rs m) ch Hch)
            as [Hc _].
          destruct ts as [l1|]; [|destruct rs as [l2|]];
            simpl in Hch, Hc |- *; inversion Hch; subst;
            inversion Hc as [Heq]; rewrite Heq, Hch'; reflexivity.
      + now rewrite (IH Hid). }
  intros l. apply (Hterm (PoolTerm (Some l) None [])). reflexivity.
Qed.

Lemma includes_str_In x l : includes_str x l = true <-> In x l.
Proof.
  unfold includes_str. rewrite existsb_exists. split.
  - intros [y [Hin Heq]]. apply String.eqb_eq in Heq. now subst.
  - intros Hin. exists x. split; [exact Hin | apply String.eqb_refl].
Qed.

Lemma strip_keep_modifiers d m :
  In m (modifiers (strip_keep d)) -> m <> "kh" /\ m <> "kl".
Proof.
  unfold strip_keep. simpl. rewrite filter_In. intros [_ H].
  split; intros ->; discriminate.
Qed.

Lemma strip_keep_id d :
  number d = 1 -> ~ In "kh" (modifiers d) -> ~ In "kl" (modifiers d) ->
  strip_keep d = d.
Proof.
  intros Hn Hkh Hkl. destruct d as [n f ms rs o]. unfold strip_keep.
  simpl in *. subst n. f_equal.
  induction ms as [|m ms IH]; [reflexivity|].
  simpl. destruct (String.eqb m "kh") eqn:E1.
  { apply String.eqb_eq in E1. subst. exfalso. apply Hkh. now left. }
  destruct (String.eqb m "kl") eqn:E2.
  { apply String.eqb_eq in E2. subst. exfalso. apply Hkl. now left. }
  simpl. f_equal. apply IH; intros H; [apply Hkh | apply Hkl]; now right.
Qed.

Section Engine_properties.

Context {E : RollEngine}.
Variable Settings : Type.
Variable getSettings : option Settings -> BRSettings.

Lemma parseD20Formula_as_roll roll :
  parseD20Formula roll = (r <- as_roll roll ;; parseD20Formula (inr r)).
Proof.
  destruct roll as [s|r]; [|reflexivity].
  unfold parseD20Formula, as_roll. destruct (newRoll s); reflexivity.
Qed.

(** On a roll [parseD20Formula] always returns. *)
Lemma parseD20Formula_returns r :
  exists out r', parseD20Formula (inr r) = Ret (out, r').
Proof.
  unfold parseD20Formula. simpl js_bind.
  destruct (findD20Term (Some r)) as [| |t] eqn:Hfind;
    try (eexists; eexists; reflexivity).
  unfold findD20Term in Hfind.
  destruct (findD20Term_loop_obj _ _ Hfind) as [d [-> _]].
  eexists; eexists; reflexivity.
Qed.

(** C5.  For an expression whose d20 term has count 2 and the modifier
    "kh", [parseD20Formula] returns [numRolls = 2], the roll state
    "highest", and the formula of the rewritten expression, whose d20 term
    has count 1 and neither "kh" nor "kl".  For an expression without a d20
    term it returns the formula of the expression alone, [numRolls] and
    [rollState] being absent, and leaves the expression as it is. *)
Theorem parseD20Formula_keep_highest (roll : string + Roll) (r : Roll) :
  as_roll roll = Ret r ->
  (forall d,
     findD20Term (Some r) = Obj (DiceTerm d) ->
     number d = 2 -> In "kh" (modifiers d) ->
     exists r' d',
       parseD20Formula roll =
         Ret ({| pf_formula := formula r';
                 numRolls := Some 2;
                 pf_rollState := Some (Some highest) |}, r') /\
       findD20Term (Some r') = Obj (DiceTerm d') /\
       number d' = 1 /\ faces d' = 20 /\
       ~ In "kh" (modifiers d') /\ ~ In "kl" (modifiers d')) /\
  (findD20Term (Some r) = Undefined ->
     parseD20Formula roll =
       Ret ({| pf_formula := formula r;
               numRolls := None;
               pf_rollState := None |}, r)).
Proof.
  intros Hroll. rewrite parseD20Formula_as_roll, Hroll. simpl js_bind.
  split.
  - intros d Hfind Hn Hkh. unfold parseD20Formula. simpl js_bind.
    rewrite Hfind. apply includes_str_In in Hkh. rewrite Hkh, Hn.
    eexists. exists (strip_keep d). split; [reflexivity|].
    unfold findD20Term in Hfind |- *. simpl.
    rewrite findD20Term_updateD20_loop by reflexivity.
    rewrite Hfind. simpl. split; [reflexivity|]. split; [reflexivity|].
    destruct (findD20Term_loop_obj _ _ Hfind) as [d0 [Heq Hfaces]].
    inversion Heq; subst d0. split; [exact Hfaces|].
    split; intros Hin; apply strip_keep_modifiers in Hin;
      destruct Hin as [H1 H2]; congruence.
  - intros Hfind. unfold parseD20Formula. simpl js_bind.
    rewrite Hfind. reflexivity.
Qed.

(** The expression that [parseD20Formula] leaves behind is normalized. *)
Lemma parseD20Formula_shape r out r' :
  parseD20Formula (inr r) = Ret (out, r') ->
  pf_formula out = formula r' /\
  match d20_shape r' with
  | Some (n, ms) =>
      n = 1 /\ ~ In "kh" ms /\ ~ In "kl" ms /\ _formula r' = None /\
      numRolls out <> None
  | None => numRolls out = None /\ pf_rollState out = None
  end.
Proof.
  unfold parseD20Formula, d20_shape. simpl js_bind.
  destruct (findD20Term (Some r)) as [| |t] eqn:Hfind.
  - intros H. inversion H; subst. rewrite Hfind. simpl. repeat split.
  - intros H. inversion H; subst. rewrite Hfind. simpl. repeat split.
  - unfold findD20Term in Hfind.
    destruct (findD20Term_loop_obj _ _ Hfind) as [d [-> _]].
    intros H. inversion H; subst. clear H. unfold findD20Term. simpl.
    rewrite findD20Term_updateD20_loop by reflexivity.
    rewrite Hfind. simpl. split; [reflexivity|].
    split; [reflexivity|].
    repeat split; try discriminate;
      try (intros Hin; apply (strip_keep_modifiers d) in Hin;
           destruct Hin as [H1 H2]; congruence).
Qed.

(** [parseD20Formula] reports [numRolls] exactly when the expression has a
    d20 term. *)
Lemma parseD20Formula_numRolls r out r' :
  parseD20Formula (inr r) = Ret (out, r') ->
  numRolls out <> None <-> exists d, findD20Term (Some r) = Obj (DiceTerm d).
Proof.
  unfold parseD20Formula. simpl js_bind.
  destruct (findD20Term (Some r)) as [| |t] eqn:Hfind.
  - intros H. inversion H; subst. simpl.
    split; [congruence | intros [d Hd]; discriminate].
  - intros H. inversion H; subst. simpl.
    split; [congruence | intros [d Hd]; discriminate].
  - unfold findD20Term in Hfind.
    destruct (findD20Term_loop_obj _ _ Hfind) as [d [-> _]].
    intros H. inversion H; subst. simpl.
    split; [intros _; now exists d | discriminate].
Qed.

(** On a roll whose d20 term is normalized, [parseD20Formula] changes no
    term and reports one roll and no roll state. *)
Lemma parseD20Formula_normalized r n ms :
  d20_shape r = Some (n, ms) ->
  n = 1 -> ~ In "kh" ms -> ~ In "kl" ms ->
  parseD20Formula (inr r) =
    Ret ({| pf_formula := formula (uncached r);
            numRolls := Some 1;
            pf_rollState := Some None |}, uncached r).
Proof.
  unfold d20_shape, parseD20Formula. simpl js_bind.
  destruct (findD20Term (Some r)) as [| |t] eqn:Hfind; try discriminate.
  destruct t as [d| | |]; try discriminate.
  intros H Hn Hkh Hkl. inversion H as [[Hnum Hms]]. subst ms.
  rewrite Hn in Hnum. clear H Hn.
  assert (E1 : includes_str "kh" (modifiers d) = false).
  { destruct (includes_str "kh" (modifiers d)) eqn:E1; [|reflexivity].
    apply includes_str_In in E1. contradiction. }
  assert (E2 : includes_str "kl" (modifiers d) = false).
  { destruct (includes_str "kl" (modifiers d)) eqn:E2; [|reflexivity].
    apply includes_str_In in E2. contradiction. }
  rewrite E1, E2, Hnum.
  assert (Hid : updateD20_loop strip_keep (roll_terms r) = roll_terms r).
  { apply updateD20_loop_id. intros d0 Hd0. unfold findD20Term in Hfind.
    rewrite Hfind in Hd0. inversion Hd0; subst d0.
    now apply strip_keep_id. }
  rewrite Hid. reflexivity.
Qed.

(** Normalizing the formula that a first call produced, when the engine
    parses it back to an expression of the same formula and the same d20
    count and modifiers. *)
Lemma parseD20Formula_on_formula (r r1 r2 : Roll) (out1 : D20Formula) :
  parseD20Formula (inr r) = Ret (out1, r1) ->
  newRoll (pf_formula out1) = Ret r2 ->
  formula r2 = pf_formula out1 ->
  formula (uncached r2) = pf_formula out1 ->
  d20_shape r2 = d20_shape r1 ->
  exists out2 r2', parseD20Formula (inl (pf_formula out1)) = Ret (out2, r2') /\
                   renormalized out1 out2.
Proof.
  intros H1 Hnew Hf Hfu Hshape.
  destruct (parseD20Formula_shape _ _ _ H1) as [Hform Hnorm].
  rewrite parseD20Formula_as_roll. simpl as_roll. rewrite Hnew.
  simpl js_bind. rewrite <- Hshape in Hnorm. unfold renormalized.
  destruct (d20_shape r2) as [[n ms]|] eqn:Hs.
  - destruct Hnorm as [Hn [Hkh [Hkl [_ Hnum]]]].
    rewrite (parseD20Formula_normalized r2 n ms Hs Hn Hkh Hkl).
    eexists. eexists. split; [reflexivity|].
    split; [exact Hfu|].
    destruct (numRolls out1); [split; reflexivity | congruence].
  - destruct Hnorm as [Hnum _]. rewrite Hnum.
    unfold d20_shape in Hs. unfold parseD20Formula. simpl js_bind.
    destruct (findD20Term (Some r2)) as [| |t] eqn:Hfind.
    + eexists. eexists. split; [reflexivity|].
      split; [exact Hf | split; reflexivity].
    + eexists. eexists. split; [reflexivity|].
      split; [exact Hf | split; reflexivity].
    + unfold findD20Term in Hfind.
      destruct (findD20Term_loop_obj _ _ Hfind) as [d [-> _]].
      discriminate.
Qed.

(** C8.  Normalizing again is a no-op.  Applied to the expression that a
    first call left behind, and applied to the formula that the first call
    produced, which the engine parses back to an expression of the same
    formula and the same d20 count and modifiers, [parseD20Formula]
    returns the same formula; when the expression has a d20 term, which is
    when the first call reported [numRolls], it returns [numRolls = 1] and
    the roll state [null]; when it has none, [numRolls] and [rollState] are
    absent as they were.  The second call leaves the expression as it
    is. *)
Theorem parseD20Formula_idempotent (r r1 r2 : Roll) (out1 : D20Formula) :
  parseD20Formula (inr r) = Ret (out1, r1) ->
  newRoll (pf_formula out1) = Ret r2 ->
  formula r2 = pf_formula out1 ->
  formula (uncached r2) = pf_formula out1 ->
  d20_shape r2 = d20_shape r1 ->
  (numRolls out1 <> None <->
   exists d, findD20Term (Some r) = Obj (DiceTerm d)) /\
  (exists out2, parseD20Formula (inr r1) = Ret (out2, r1) /\
                renormalized out1 out2) /\
  (exists out2 r2', parseD20Formula (inl (pf_formula out1)) = Ret (out2, r2') /\
                    renormalized out1 out2).
Proof.
  intros H1 Hnew Hf Hfu Hshape.
  split; [exact (parseD20Formula_numRolls r out1 r1 H1)|].
  split; [|exact (parseD20Formula_on_formula r r1 r2 out1 H1 Hnew Hf Hfu
                    Hshape)].
  destruct (parseD20Formula_shape _ _ _ H1) as [Hform Hnorm].
  unfold renormalized.
  destruct (d20_shape r1) as [[n ms]|] eqn:Hs.
  - destruct Hnorm as [Hn [Hkh [Hkl [Hcache Hnum]]]].
    rewrite (parseD20Formula_normalized r1 n ms Hs Hn Hkh Hkl).
    assert (Hu : uncached r1 = r1).
    { destruct r1 as [ts fo to ig ev]. unfold uncached. simpl in *.
      now subst fo. }
    rewrite Hu. eexists. split; [reflexivity|].
    split; [simpl; now rewrite Hform|].
    destruct (numRolls out1); [split; reflexivity | congruence].
  - destruct Hnorm as [Hnum _]. rewrite Hnum.
    unfold d20_shape in Hs. unfold parseD20Formula. simpl js_bind.
    destruct (findD20Term (Some r1)) as [| |t] eqn:Hfind.
    + eexists. split; [reflexivity|].
      split; [simpl; now rewrite Hform | split; reflexivity].
    + eexists. split; [reflexivity|].
      split; [simpl; now rewrite Hform | split; reflexivity].
    + unfold findD20Term in Hfind.
      destruct (findD20Term_loop_obj _ _ Hfind) as [d [-> _]].
      discriminate.
Qed.

(** ** The critical damage deriver *)

Lemma getCritRoll_baseline settings base baseTotal extra g :
  String.eqb (critBehavior (getSettings settings)) "2" = false ->
  String.eqb (critBehavior (getSettings settings)) "3" = false ->
  String.eqb (critBehavior (getSettings settings)) "4" = false ->
  getCritRoll Settings getSettings base baseTotal settings extra g
  = baseline (rolledCritRoll base extra g) g.
Proof.
  intros H2 H3 H4. unfold getCritRoll, baseline.
  destruct (rolledCritRoll base extra g) as [[[critRoll g']|]|];
    simpl js_bind; try reflexivity.
  now rewrite H2, H3, H4.
Qed.

End Engine_properties.

(** C7.  For a policy value that is none of "1", "2", "3" and "4",
    [getCritRoll] returns what it returns under policy "1": the crit roll
    evaluated in step 5, unchanged.  The policy adds no failure: the call
    throws only where the first half of the function does. *)
Theorem getCritRoll_unrecognized_policy {E : RollEngine} (Settings : Type)
    (getSettings : option Settings -> BRSettings)
    (settings : option Settings) (base : option string) (baseTotal : Z)
    (extra : option Z) (g : rng) :
  let policy := critBehavior (getSettings settings) in
  policy <> "1" -> policy <> "2" -> policy <> "3" -> policy <> "4" ->
  getCritRoll Settings getSettings base baseTotal settings extra g
  = baseline (rolledCritRoll base extra g) g /\
  getCritRoll Settings getSettings base baseTotal settings extra g
  = getCritRoll Settings (fun _ => mkSettings "1") base baseTotal settings
      extra g.
Proof.
  intros policy _ H2 H3 H4.
  rewrite !getCritRoll_baseline; try reflexivity;
    try (apply String.eqb_neq; assumption).
  split; reflexivity.
Qed.

Lemma getCritRoll_unrecognized_policy_witness :
  exists r g,
    getCritRoll unit (fun _ => mkSettings "7") (Some "1d8+3") 7 None None 42
    = Ret (Some r, g) /\ formula r = "1d8" /\ total r = Some 1.
Proof.
  assert (H1 : "7" <> "1") by discriminate.
  assert (H2 : "7" <> "2") by discriminate.
  assert (H3 : "7" <> "3") by discriminate.
  assert (H4 : "7" <> "4") by discriminate.
  destruct (@getCritRoll_unrecognized_policy host_engine unit
              (fun _ => mkSettings "7") None (Some "1d8+3") 7 None 42
              H1 H2 H3 H4) as [H _].
  rewrite H. eexists. eexists.
  split; [vm_compute; reflexivity | split; vm_compute; reflexivity].
Defined.

(** ** The reference engine: printing and parsing *)

Lemma append_assoc (a b c : string) :
  ((a ++ b) ++ c = a ++ (b ++ c))%string.
Proof. induction a as [|x a IH]; simpl; [reflexivity | now rewrite IH]. Qed.

Lemma append_nil_r (a : string) : (a ++ "")%string = a.
Proof. induction a as [|x a IH]; simpl; [reflexivity | now rewrite IH]. Qed.

Lemma string_of_uint_digits u :
  all_in is_digit (NilEmpty.string_of_uint u) = true.
Proof. induction u; simpl; try reflexivity; exact IHu. Qed.

Lemma showZ_nonneg n :
  0 <= n ->
  exists u, Host.showZ n = NilEmpty.string_of_uint u /\
            u <> Decimal.Nil /\ Z.of_uint u = n.
Proof.
  intros Hn. unfold Host.showZ, toString.
  pose proof (DecimalZ.of_to n) as Hof.
  destruct n as [|p|p]; [| |lia].
  - exists (Decimal.D0 Decimal.Nil). repeat split. discriminate.
  - exists (Pos.to_uint p). simpl in *. repeat split.
    + apply DecimalPos.Unsigned.to_uint_nonnil.
    + exact Hof.
Qed.

Lemma showZ_digits n : 0 <= n -> all_in is_digit (Host.showZ n) = true.
Proof.
  intros Hn. destruct (showZ_nonneg n Hn) as [u [-> _]].
  apply string_of_uint_digits.
Qed.

Lemma showZ_nonempty n : 0 <= n -> exists c t, Host.showZ n = String c t.
Proof.
  intros Hn. destruct (showZ_nonneg n Hn) as [u [-> [Hu _]]].
  destruct u; simpl; try (eexists; eexists; reflexivity). contradiction.
Qed.

Lemma showZ_negative n :
  n < 0 -> Host.showZ n = String "-" (Host.showZ (- n)).
Proof. intros Hn. destruct n as [|p|p]; try lia. reflexivity. Qed.

Lemma read_number_showZ n :
  0 <= n -> Host.read_number (Host.showZ n) = Ret n.
Proof.
  intros Hn. destruct (showZ_nonneg n Hn) as [u [-> [_ Hu]]].
  unfold Host.read_number. now rewrite NilEmpty.usu, Hu.
Qed.

Lemma span_all p a b :
  all_in p a = true -> stops p b = true ->
  Host.span p (a ++ b) = (a, b).
Proof.
  intros Ha Hb. induction a as [|x a IH]; simpl in *.
  - destruct b as [|c b]; [reflexivity|]. simpl in Hb |- *.
    destruct (p c); [discriminate | reflexivity].
  - apply andb_true_iff in Ha. destruct Ha as [Hx Ha].
    rewrite Hx, (IH Ha). reflexivity.
Qed.

Lemma span_none p s : stops p s = true -> Host.span p s = (EmptyString, s).
Proof. intros H. exact (span_all p EmptyString s eq_refl H). Qed.

Lemma digit_not_space c : is_digit c = true -> is_space c = false.
Proof.
  unfold is_digit, is_space, in_range. intros H.
  apply andb_true_iff in H. destruct H as [H1 H2].
  apply Nat.leb_le in H1. apply Nat.leb_le in H2.
  destruct (9 <=? nat_of_ascii c)%nat eqn:E1;
    destruct (nat_of_ascii c <=? 13)%nat eqn:E2;
    destruct (nat_of_ascii c =? 32)%nat eqn:E3;
    destruct (nat_of_ascii c =? 160)%nat eqn:E4; try reflexivity;
    try apply Nat.leb_le in E2; try apply Nat.eqb_eq in E3;
    try apply Nat.eqb_eq in E4; lia.
Qed.

Lemma digit_not_sign c : is_digit c = true -> is_sign c = false.
Proof.
  unfold is_digit, in_range, is_sign. intros H.
  destruct (Ascii.eqb c "+") eqn:E1.
  { apply Ascii.eqb_eq in E1. subst. discriminate. }
  destruct (Ascii.eqb c "-") eqn:E2.
  { apply Ascii.eqb_eq in E2. subst. discriminate. }
  reflexivity.
Qed.

Lemma digit_not_Dd c : is_digit c = true -> is_Dd c = false.
Proof.
  unfold is_digit, in_range, is_Dd. intros H.
  destruct (Ascii.eqb c "D") eqn:E1.
  { apply Ascii.eqb_eq in E1. subst. discriminate. }
  destruct (Ascii.eqb c "d") eqn:E2.
  { apply Ascii.eqb_eq in E2. subst. discriminate. }
  reflexivity.
Qed.

Lemma all_in_app p a b :
  all_in p (a ++ b) = all_in p a && all_in p b.
Proof.
  induction a as [|x a IH]; simpl; [reflexivity|].
  now rewrite IH, andb_assoc.
Qed.

Lemma all_in_weaken (p q : ascii -> bool) s :
  (forall c, p c = true -> q c = true) ->
  all_in p s = true -> all_in q s = true.
Proof.
  intros Hpq. induction s as [|c s IH]; simpl; [reflexivity|].
  intros H. apply andb_true_iff in H. destruct H as [Hc Hs].
  now rewrite (Hpq c Hc), (IH Hs).
Qed.

(** *** Cutting at the operators *)

Lemma lex_head s : exists h r, Host.lex s = Host.TChunk h :: r.
Proof.
  induction s as [|c s [h [r IH]]]; simpl.
  - eexists; eexists; reflexivity.
  - destruct (is_sign c); [eexists; eexists; reflexivity|].
    rewrite IH. eexists; eexists; reflexivity.
Qed.

Lemma lex_app_sign a c b :
  is_sign c = true ->
  Host.lex (a ++ String c b) = Host.lex a ++ Host.TOp c :: Host.lex b.
Proof.
  intros Hc. induction a as [|x a IH]; simpl.
  - now rewrite Hc.
  - destruct (is_sign x); [now rewrite IH|].
    rewrite IH. destruct (lex_head a) as [h [r ->]]. reflexivity.
Qed.

Lemma lex_plain a :
  all_in (fun c => negb (is_sign c)) a = true ->
  Host.lex a = [Host.TChunk a].
Proof.
  induction a as [|x a IH]; simpl; [reflexivity|].
  intros H. apply andb_true_iff in H. destruct H as [Hx Ha].
  apply negb_true_iff in Hx. now rewrite Hx, (IH Ha).
Qed.

Lemma parse_tokens_app l1 l2 :
  Host.parse_tokens (l1 ++ l2) =
  (ts1 <- Host.parse_tokens l1 ;;
   ts2 <- Host.parse_tokens l2 ;;
   Ret (ts1 ++ ts2)).
Proof.
  induction l1 as [|[s|c] l1 IH]; simpl.
  - destruct (Host.parse_tokens l2); reflexivity.
  - destruct (Host.parse_chunk s) as [t|]; simpl; [|reflexivity].
    rewrite IH. destruct (Host.parse_tokens l1) as [ts1|]; simpl;
      [|reflexivity].
    destruct (Host.parse_tokens l2) as [ts2|]; simpl; [|reflexivity].
    destruct t; reflexivity.
  - rewrite IH. destruct (Host.parse_tokens l1) as [ts1|]; simpl;
      [|reflexivity].
    destruct (Host.parse_tokens l2) as [ts2|]; reflexivity.
Qed.

(** A formula cut at an operator parses as its two sides around the
    operator. *)
Lemma parse_app_sign a c b :
  is_sign c = true ->
  Host.parse (a ++ String c b) =
  (ta <- Host.parse a ;;
   tb <- Host.parse b ;;
   Ret (ta ++ OperatorTerm (String c EmptyString) :: tb)).
Proof.
  intros Hc. unfold Host.parse.
  rewrite (lex_app_sign a c b Hc), parse_tokens_app. simpl.
  destruct (Host.parse_tokens (Host.lex a)) as [ta|]; simpl; [|reflexivity].
  destruct (Host.parse_tokens (Host.lex b)) as [tb|]; reflexivity.
Qed.

(** A chunk that is a number, with white space around it. *)
Lemma parse_chunk_number n pre post :
  0 <= n ->
  all_in is_space pre = true -> all_in is_space post = true ->
  Host.parse_chunk (pre ++ Host.showZ n ++ post) = Ret (Some (NumericTerm n)).
Proof.
  intros Hn Hpre Hpost. unfold Host.parse_chunk.
  pose proof (showZ_digits n Hn) as Hd.
  destruct (showZ_nonempty n Hn) as [c [t Hshow]].
  assert (Hstop : stops is_space (Host.showZ n ++ post) = true).
  { rewrite Hshow in *. simpl in *. apply andb_true_iff in Hd.
    destruct Hd as [Hc _]. now rewrite (digit_not_space c Hc). }
  rewrite (span_all is_space pre _ Hpre Hstop). simpl snd.
  assert (Hstop2 : stops is_digit post = true).
  { destruct post as [|x post]; [reflexivity|]. simpl in *.
    apply andb_true_iff in Hpost. destruct Hpost as [Hx _].
    destruct (is_digit x) eqn:E; [|reflexivity].
    now rewrite (digit_not_space x E) in Hx. }
  rewrite (span_all is_digit _ post Hd Hstop2).
  rewrite Hshow at 1. simpl.
  destruct post as [|x post].
  - rewrite (read_number_showZ n Hn). reflexivity.
  - assert (Hx : is_space x = true).
    { simpl in Hpost. now apply andb_true_iff in Hpost. }
    assert (HD : is_Dd x = false).
    { unfold is_Dd. destruct (Ascii.eqb x "D") eqn:E1.
      { apply Ascii.eqb_eq in E1. subst. discriminate. }
      destruct (Ascii.eqb x "d") eqn:E2.
      { apply Ascii.eqb_eq in E2. subst. discriminate. }
      reflexivity. }
    rewrite HD. unfold Host.all_space.
    pose proof (span_all is_space (String x post) "" Hpost eq_refl) as Hsp.
    rewrite append_nil_r in Hsp. rewrite Hsp. simpl snd.
    rewrite (read_number_showZ n Hn). reflexivity.
Qed.

(** *** Evaluation *)

#[local] Arguments Z.add : simpl never.
#[local] Arguments Z.mul : simpl never.
#[local] Arguments Z.opp : simpl never.
#[local] Arguments Z.sub : simpl never.

Lemma evaluate_terms_app m a b g :
  Host.evaluate_terms m (a ++ b) g =
  (ea <- Host.evaluate_terms m a g ;;
   eb <- Host.evaluate_terms m b (snd ea) ;;
   Ret (fst ea ++ fst eb, snd eb)).
Proof.
  revert g. induction a as [|t a IH]; intros g; simpl.
  - destruct (Host.evaluate_terms m b g) as [[eb g']|]; reflexivity.
  - destruct t as [d|op|n|ts rs ms]; simpl; try reflexivity;
      rewrite IH;
      match goal with
      | |- context [Host.evaluate_terms m a ?g0] =>
          destruct (Host.evaluate_terms m a g0) as [[ea g1]|]; simpl;
            [|reflexivity];
          destruct (Host.evaluate_terms m b g1) as [[eb g2]|]; reflexivity
      end.
Qed.

(** The sign is 1 wherever a value may end the sum. *)
Lemma sum_terms_app_plus A B acc sign pos a :
  (pos <> Host.AfterOperator -> sign = 1) ->
  Host.sum_terms A acc sign pos = Ret a ->
  Host.sum_terms (A ++ OperatorTerm "+" :: B) acc sign pos
  = Host.sum_terms B a 1 Host.AfterOperator.
Proof.
  revert acc sign pos. induction A as [|t A IH]; intros acc sign pos Hs H.
  - simpl in *. destruct pos; try discriminate; inversion H; subst;
      rewrite Hs by discriminate; reflexivity.
  - destruct t as [d|op|n|ts rs ms]; simpl in *.
    + destruct pos; try discriminate; apply IH; auto.
    + destruct (String.eqb op "+"); [apply IH; [intros C; now contradiction C | exact H]|].
      destruct (String.eqb op "-"); [|discriminate].
      apply IH; [intros C; now contradiction C | exact H].
    + destruct pos; try discriminate; apply IH; auto.
    + destruct pos; discriminate.
Qed.

Lemma parse_showZ n :
  Host.parse (Host.showZ n) =
  Ret (if n <? 0 then [OperatorTerm "-"; NumericTerm (- n)]
       else [NumericTerm n]).
Proof.
  destruct (n <? 0) eqn:E.
  - apply Z.ltb_lt in E. rewrite (showZ_negative n E).
    change (String "-" (Host.showZ (- n)))
      with ("" ++ String "-" (Host.showZ (- n)))%string.
    rewrite (parse_app_sign EmptyString "-" (Host.showZ (- n)) eq_refl).
    assert (Hn : 0 <= - n) by lia.
    change (Host.parse "") with (Ret (@nil Term)). simpl js_bind.
    unfold Host.parse.
    rewrite lex_plain.
    2:{ apply (all_in_weaken is_digit); [|now apply showZ_digits].
        intros c Hc. now rewrite (digit_not_sign c Hc). }
    simpl.
    pose proof (parse_chunk_number (- n) "" "" Hn eq_refl eq_refl) as Hp.
    simpl in Hp. rewrite append_nil_r in Hp. rewrite Hp. reflexivity.
  - apply Z.ltb_ge in E. unfold Host.parse. rewrite lex_plain.
    2:{ apply (all_in_weaken is_digit); [|now apply showZ_digits].
        intros c Hc. now rewrite (digit_not_sign c Hc). }
    simpl.
    pose proof (parse_chunk_number n "" "" E eq_refl eq_refl) as Hp.
    simpl in Hp. rewrite append_nil_r in Hp. rewrite Hp. reflexivity.
Qed.

(** What a maximized evaluation of a formula is made of. *)
Lemma host_max_eval s g :
  @max_eval host_engine s g =
  (ts <- Host.parse s ;;
   ev <- Host.evaluate_terms true ts g ;;
   t <- Host.sum_terms (fst ev) 0 1 Host.AtStart ;;
   Ret (mkRoll (fst ev) None (Some t) false true, snd ev)).
Proof.
  unfold max_eval. simpl. unfold Host.newRoll.
  destruct (Host.parse s) as [ts|]; reflexivity.
Qed.

(** The reference engine adds an appended number to the maximized total. *)
Lemma host_additive_max : additive_max host_engine.
Proof.
  intros F n g res g' cres g'' H1 H2.
  rewrite host_max_eval in H1, H2.
  change (F ++ "+" ++ toString (Some n))%string
    with (F ++ String "+" (Host.showZ n))%string in H1.
  rewrite (parse_app_sign F "+" _ eq_refl), parse_showZ in H1.
  destruct (Host.parse F) as [tF|]; [|discriminate].
  simpl js_bind in H1, H2.
  rewrite evaluate_terms_app in H1.
  destruct (Host.evaluate_terms true tF g) as [[eF g1]|]; [|discriminate].
  simpl js_bind in H1, H2. simpl fst in *. simpl snd in *.
  destruct (Host.sum_terms eF 0 1 Host.AtStart) as [a|] eqn:Hsum;
    [|discriminate].
  simpl in H2. inversion H2; subst. clear H2. simpl.
  destruct (n <? 0) eqn:E; simpl in H1;
    rewrite (sum_terms_app_plus eF _ 0 1 Host.AtStart a (fun _ => eq_refl) Hsum)
      in H1;
    simpl in H1; inversion H1; subst; simpl; f_equal; lia.
Qed.

(** ** Policy "3": maximize base and critical dice *)

(** Policy "3" as one maximized evaluation of the extended formula. *)
Lemma getCritRoll_policy3 {E : RollEngine} (Settings : Type)
    (getSettings : option Settings -> BRSettings)
    (settings : option Settings) (f : string) (baseTotal : Z)
    (extra : option Z) (g g1 g2 : rng) (critRoll maxRoll : Roll) (m : Z) :
  critBehavior (getSettings settings) = "3" ->
  rolledCritRoll (Some f) extra g = Ret (Some (critRoll, g1)) ->
  max_eval f g1 = Ret (maxRoll, g2) ->
  total maxRoll = Some m ->
  getCritRoll Settings getSettings (Some f) baseTotal settings extra g
  = (res <- max_eval (formula critRoll ++ "+"
                      ++ toString (Some (m - baseTotal))) g2 ;;
     Ret (Some (fst res), snd res)).
Proof.
  intros Hcb Hrolled Hmax Hm.
  unfold getCritRoll. rewrite Hrolled. simpl js_bind. rewrite Hcb.
  simpl String.eqb. cbv iota.
  unfold max_eval in Hmax |- *.
  destruct (newRoll f) as [baseRoll|]; [|discriminate].
  simpl js_bind in Hmax |- *. rewrite Hmax. simpl js_bind.
  unfold total_minus. simpl fst. simpl snd. rewrite Hm.
  unfold toString. cbn [append].
  match goal with
  | |- context [newRoll ?x] => destruct (newRoll x) as [fresh|]
  end; [|reflexivity].
  simpl js_bind. destruct (evaluate true fresh g2); reflexivity.
Qed.

(** C2.  Under policy "3", [getCritRoll] takes [maxDifference] to be the
    total of the base formula evaluated with every die at its maximum,
    minus the base total; it appends "+" and [maxDifference] to the
    formula of the crit roll built from the stripped expression, and
    returns that formula evaluated with every die at its maximum.  With an
    engine that adds an appended number to a maximized total, the returned
    total is the maximized total of the crit formula plus
    [maxDifference]. *)
Theorem getCritRoll_maximize_all {E : RollEngine} (Settings : Type)
    (getSettings : option Settings -> BRSettings)
    (settings : option Settings) (f : string) (baseTotal : Z)
    (extra : option Z) (g g1 g2 : rng) (critRoll maxRoll : Roll) (m : Z) :
  critBehavior (getSettings settings) = "3" ->
  rolledCritRoll (Some f) extra g = Ret (Some (critRoll, g1)) ->
  max_eval f g1 = Ret (maxRoll, g2) ->
  total maxRoll = Some m ->
  let maxDifference := m - baseTotal in
  let newFormula :=
    (formula critRoll ++ "+" ++ toString (Some maxDifference))%string in
  getCritRoll Settings getSettings (Some f) baseTotal settings extra g
  = (res <- max_eval newFormula g2 ;; Ret (Some (fst res), snd res)) /\
  (additive_max E ->
   forall res g3 cres g4,
     max_eval newFormula g2 = Ret (res, g3) ->
     max_eval (formula critRoll) g2 = Ret (cres, g4) ->
     total res = option_map (fun c => c + maxDifference) (total cres)).
Proof.
  intros Hcb Hrolled Hmax Hm maxDifference newFormula. split.
  - exact (getCritRoll_policy3 Settings getSettings settings f baseTotal
             extra g g1 g2 critRoll maxRoll m Hcb Hrolled Hmax Hm).
  - intros Hadd res g3 cres g4 H1 H2. exact (Hadd _ _ _ _ _ _ _ H1 H2).
Qed.

Lemma getCritRoll_maximize_all_witness :
  exists res g3,
    @getCritRoll host_engine unit (fun _ => mkSettings "3")
      (Some "1d8+3") 7 None None 42 = Ret (Some res, g3) /\
    formula res = "1d8 + 4" /\ total res = Some (8 + (11 - 7)).
Proof.
  pose (rolled := @rolledCritRoll host_engine (Some "1d8+3") None 42).
  pose (critRoll := match rolled with
                    | Ret (Some (c, _)) => c
                    | _ => mkRoll [] None None false false
                    end).
  pose (g1 := match rolled with Ret (Some (_, x)) => x | _ => 0 end).
  pose (maxed := @max_eval host_engine "1d8+3" g1).
  pose (maxRoll := match maxed with
                   | Ret (c, _) => c
                   | _ => mkRoll [] None None false false
                   end).
  pose (g2 := match maxed with Ret (_, x) => x | _ => 0 end).
  destruct (@getCritRoll_maximize_all host_engine unit
              (fun _ => mkSettings "3") None "1d8+3" 7 None 42 g1 g2
              critRoll maxRoll 11 eq_refl)
    as [Hret Htotal]; try (vm_compute; reflexivity).
  pose (again := @max_eval host_engine
                   (formula critRoll ++ "+" ++ toString (Some (11 - 7))) g2).
  pose (res := match again with
               | Ret (c, _) => c
               | _ => mkRoll [] None None false false
               end).
  pose (g3 := match again with Ret (_, x) => x | _ => 0 end).
  pose (crit := @max_eval host_engine (formula critRoll) g2).
  pose (cres := match crit with
                | Ret (c, _) => c
                | _ => mkRoll [] None None false false
                end).
  pose (g4 := match crit with Ret (_, x) => x | _ => 0 end).
  exists res, g3. split; [rewrite Hret; vm_compute; reflexivity|].
  split; [vm_compute; reflexivity|].
  rewrite (Htotal host_additive_max res g3 cres g4);
    vm_compute; reflexivity.
Defined.

(** ** The formula normalizer on the reference engine *)

Example parse_advantage_roll :
  Host.newRoll "2d20kh + 5" = Ret advantage_roll.
Proof. reflexivity. Qed.

Lemma parseD20Formula_keep_highest_witness :
  exists r',
    @parseD20Formula host_engine (inl "2d20kh + 5") =
      Ret ({| pf_formula := "1d20 + 5";
              numRolls := Some 2;
              pf_rollState := Some (Some highest) |}, r') /\
    @parseD20Formula host_engine (inl "1d8 + 3") =
      Ret ({| pf_formula := "1d8 + 3";
              numRolls := None;
              pf_rollState := None |}, roll_of
                [DiceTerm (mkDie 1 8 [] [] no_options);
                 OperatorTerm "+"; NumericTerm 3]).
Proof.
  destruct (@parseD20Formula_keep_highest host_engine
              (inl "2d20kh + 5") advantage_roll eq_refl) as [Hkh _].
  destruct (Hkh (mkDie 2 20 ["kh"] [] no_options) eq_refl eq_refl
              (or_introl eq_refl)) as [r' [d' [Hret _]]].
  destruct (@parseD20Formula_keep_highest host_engine
              (inl "1d8 + 3")
              (roll_of [DiceTerm (mkDie 1 8 [] [] no_options);
                        OperatorTerm "+"; NumericTerm 3]) eq_refl)
    as [_ Hnone].
  exists r'. split.
  - rewrite Hret. f_equal. f_equal. f_equal.
    assert (Hr' : r' = mkRoll [DiceTerm (mkDie 1 20 [] [] no_options);
                              OperatorTerm "+"; NumericTerm 5]
                        None None false false).
    { vm_compute in Hret. inversion Hret. reflexivity. }
    rewrite Hr'. reflexivity.
  - exact (Hnone eq_refl).
Defined.

Lemma parseD20Formula_idempotent_witness :
  let r1 := roll_of [DiceTerm (mkDie 1 20 [] [] no_options);
                     OperatorTerm "+"; NumericTerm 5] in
  let out2 := {| pf_formula := "1d20 + 5";
                 numRolls := Some 1;
                 pf_rollState := Some None |} in
  @parseD20Formula host_engine (inr r1) = Ret (out2, r1) /\
  @parseD20Formula host_engine (inl "1d20 + 5") = Ret (out2, r1).
Proof.
  intros r1 out2.
  pose (out1 := {| pf_formula := "1d20 + 5";
                   numRolls := Some 2;
                   pf_rollState := Some (Some highest) |}).
  destruct (@parseD20Formula_idempotent host_engine advantage_roll r1 r1 out1
              eq_refl eq_refl eq_refl eq_refl eq_refl)
    as [_ [[o2 [Ha _]] [o2' [r2' [Hb _]]]]].
  split.
  - rewrite Ha. vm_compute in Ha. inversion Ha. reflexivity.
  - change (pf_formula out1) with "1d20 + 5" in Hb.
    rewrite Hb. vm_compute in Hb. inversion Hb. reflexivity.
Defined.

(** ** The pattern that removes flat modifiers *)

Lemma match_at_not_sign c t :
  is_sign c = false -> match_at critRegex (String c t) = None.
Proof.
  intros Hc. unfold match_at, critRegex. simpl. now rewrite Hc.
Qed.

(** Text without an operator is kept as it is. *)
Lemma remove_from_plain a b :
  all_in not_sign a = true ->
  remove_from critRegex 0 (a ++ b) = (a ++ remove_from critRegex 0 b)%string.
Proof.
  induction a as [|x a IH]; intros Ha; [reflexivity|].
  simpl in Ha. apply andb_true_iff in Ha. destruct Ha as [Hx Ha].
  apply negb_true_iff in Hx.
  change (String x a ++ b)%string with (String x (a ++ b)%string).
  cbn [remove_from]. rewrite (match_at_not_sign x _ Hx), (IH Ha).
  reflexivity.
Qed.

Lemma remove_all_plain s :
  all_in not_sign s = true -> remove_all critRegex s = s.
Proof.
  intros Hs. unfold remove_all.
  rewrite <- (append_nil_r s) at 1.
  rewrite (remove_from_plain s "" Hs). simpl. apply append_nil_r.
Qed.

(** The rest of a match is dropped. *)
Lemma remove_from_skip r m b :
  remove_from r (String.length m) (m ++ b) = remove_from r 0 b.
Proof. induction m as [|x m IH]; [destruct b|]; simpl; auto. Qed.

(** Greedy repetition over a run of the class that ends the run takes the
    whole run when the rest of the pattern then succeeds. *)
Lemma star_all p a b n k m :
  all_in p a = true -> stops p b = true ->
  k b (n + String.length a)%nat = Some m ->
  star p (a ++ b) n k = Some m.
Proof.
  revert n. induction a as [|x a IH]; intros n Ha Hb Hk.
  - simpl in *. rewrite Nat.add_0_r in Hk.
    destruct b as [|c b]; [exact Hk|]. simpl in *.
    destruct (p c); [discriminate | exact Hk].
  - simpl in Ha. apply andb_true_iff in Ha. destruct Ha as [Hx Ha].
    simpl. rewrite Hx. rewrite (IH (S n) Ha Hb); [reflexivity|].
    simpl in Hk. now rewrite Nat.add_succ_r in Hk.
Qed.

Lemma digit_not_at c : is_digit c = true -> Ascii.eqb "@" c = false.
Proof.
  intros H. destruct (Ascii.eqb "@" c) eqn:E; [|reflexivity].
  apply Ascii.eqb_eq in E. subst. discriminate.
Qed.

(** An operator, a space and a number that no [d] follows: the pattern
    matches all of it. *)
Lemma match_at_flat_number s c ds rest :
  is_sign s = true ->
  is_digit c = true -> all_in is_digit ds = true ->
  stops is_digit rest = true -> stops is_Dd rest = true ->
  match_at critRegex (String s (String " " (String c ds ++ rest)))
  = Some (S (S (S (String.length ds)))).
Proof.
  intros Hs Hc Hds Hstop HDd. unfold match_at, critRegex.
  cbn [exec]. rewrite Hs. cbn [star]. change (is_sign " ") with false.
  cbv iota. cbn [exec star]. change (is_space " ") with true. cbv iota.
  change (String c ds ++ rest)%string with (String c (ds ++ rest)%string).
  cbn [star]. rewrite (digit_not_space c Hc). cbn [exec].
  rewrite (digit_not_at c Hc), Hc.
  rewrite (star_all is_digit ds rest 3 _ (3 + String.length ds) Hds Hstop);
    [reflexivity|].
  destruct rest as [|x rest]; [reflexivity|].
  simpl in HDd. apply negb_true_iff in HDd. now rewrite HDd.
Qed.

(** An operator, a space and a dice term with a one-digit count: the
    pattern does not match. *)
Lemma match_at_one_digit_dice s c x rest :
  is_sign s = true -> is_digit c = true -> is_Dd x = true ->
  match_at critRegex (String s (String " " (String c (String x rest))))
  = None.
Proof.
  intros Hs Hc Hx. unfold match_at, critRegex.
  cbn [exec]. rewrite Hs. cbn [star]. change (is_sign " ") with false.
  cbv iota. cbn [exec star]. change (is_space " ") with true. cbv iota.
  rewrite (digit_not_space c Hc). cbn [exec].
  rewrite (digit_not_at c Hc), Hc. cbn [star].
  assert (Hxd : is_digit x = false).
  { destruct (is_digit x) eqn:E; [|reflexivity].
    now rewrite (digit_not_Dd x E) in Hx. }
  rewrite Hxd. cbn [exec]. rewrite Hx. reflexivity.
Qed.

Lemma concat_cons x xs :
  String.concat "" (x :: xs) = (x ++ String.concat "" xs)%string.
Proof.
  destruct xs as [|y ys]; simpl; [now rewrite append_nil_r | reflexivity].
Qed.

Lemma getFormula_cons t ts :
  Host.getFormula (t :: ts)
  = (Host.term_formula t ++ Host.getFormula ts)%string.
Proof. unfold Host.getFormula. simpl map. apply concat_cons. Qed.

Lemma term_formula_plain_die d :
  Host.term_formula (clear_options (DiceTerm d)) = dice_text d.
Proof.
  unfold dice_text. simpl. now rewrite !append_nil_r.
Qed.

Lemma getFormula_items items :
  Host.getFormula (map clear_options (item_terms items)) = items_text items.
Proof.
  induction items as [|[s t] items IH]; [reflexivity|].
  unfold item_terms in *. cbn [flat_map app map fst snd].
  rewrite !getFormula_cons, IH. reflexivity.
Qed.

Lemma mods_not_sign ms :
  Forall (fun m => m = "kh" \/ m = "kl") ms ->
  all_in not_sign (String.concat "" ms) = true.
Proof.
  induction 1 as [|m ms [->| ->] _ IH]; [reflexivity| |];
    rewrite concat_cons; simpl; exact IH.
Qed.

Lemma digits_not_sign s : all_in is_digit s = true -> all_in not_sign s = true.
Proof.
  apply all_in_weaken. intros c Hc. unfold not_sign.
  now rewrite (digit_not_sign c Hc).
Qed.

Lemma dice_text_not_sign d : plain_die d -> all_in not_sign (dice_text d) = true.
Proof.
  intros [Hn [Hf [Hms _]]]. unfold dice_text.
  rewrite !all_in_app, (digits_not_sign _ (showZ_digits _ Hn)),
    (digits_not_sign _ (showZ_digits _ Hf)), (mods_not_sign _ Hms).
  reflexivity.
Qed.

Lemma items_text_stops p items :
  p " "%char = false -> stops p (items_text items) = true.
Proof. intros Hp. destruct items; simpl; [reflexivity | now rewrite Hp]. Qed.

Lemma showZ_one_digit n :
  0 <= n <= 9 ->
  exists c, Host.showZ n = String c EmptyString /\ is_digit c = true.
Proof.
  intros Hn. rewrite <- (Z2Nat.id n) by lia.
  assert (Hk : (Z.to_nat n < 10)%nat) by lia.
  clear Hn. revert Hk. generalize (Z.to_nat n). intros k Hk.
  do 10 (destruct k as [|k]; [eexists; split; reflexivity|]). lia.
Qed.

(** The pattern removes from the text of the items each flat number with
    its operator, and nothing else. *)
Lemma remove_from_items items :
  Forall plain_item items ->
  remove_from critRegex 0 (items_text items) = stripped_text items.
Proof.
  induction 1 as [|[s t] items [Hs Ht] _ IH]; [reflexivity|].
  simpl fst in *. simpl snd in *.
  cbn [items_text stripped_text fst snd].
  cbn [remove_from]. rewrite (match_at_not_sign " " _ eq_refl).
  destruct t as [d|op|k|ts rs ms]; try contradiction.
  - destruct Ht as [Hd H9]. rewrite term_formula_plain_die.
    destruct (showZ_one_digit (number d)) as [c [Hshow Hc]].
    { destruct Hd as [Hn _]. lia. }
    f_equal. cbn [remove_from].
    assert (Htext : (dice_text d ++ items_text items)%string
                    = String c (String "d"
                        ((Host.showZ (faces d) ++ String.concat "" (modifiers d))
                         ++ items_text items))).
    { unfold dice_text. rewrite Hshow. simpl. now rewrite append_assoc. }
    rewrite Htext at 1.
    rewrite (match_at_one_digit_dice s c "d" _ Hs Hc eq_refl).
    f_equal.
    change (String " " (dice_text d ++ items_text items))
      with ((String " " (dice_text d)) ++ items_text items)%string.
    rewrite remove_from_plain, IH; [reflexivity|].
    simpl. now apply dice_text_not_sign.
  - f_equal. simpl clear_options. cbn [Host.term_formula].
    destruct (showZ_nonempty k Ht) as [c [ds Hshow]].
    pose proof (showZ_digits k Ht) as Hdig. rewrite Hshow in *.
    simpl in Hdig. apply andb_true_iff in Hdig. destruct Hdig as [Hc Hds].
    cbn [remove_from].
    rewrite (match_at_flat_number s c ds (items_text items) Hs Hc Hds
               (items_text_stops is_digit items eq_refl)
               (items_text_stops is_Dd items eq_refl)).
    change (S (String.length ds)) with (String.length (String c ds)).
    rewrite remove_from_skip. exact IH.
Qed.

(** ** Parsing what the pattern leaves *)

Lemma read_modifiers_stop post :
  stops (fun c => Ascii.eqb c "k") post = true ->
  Host.read_modifiers post = ([], post).
Proof.
  destruct post as [|c t]; [reflexivity|]. simpl stops. intros H.
  apply negb_true_iff in H.
  destruct c as [[|] [|] [|] [|] [|] [|] [|] [|]];
    solve [reflexivity | discriminate].
Qed.

Lemma read_modifiers_all ms post :
  Forall (fun m => m = "kh" \/ m = "kl") ms ->
  stops (fun c => Ascii.eqb c "k") post = true ->
  Host.read_modifiers (String.concat "" ms ++ post) = (ms, post).
Proof.
  intros Hms Hpost. induction Hms as [|m ms [->| ->] _ IH].
  - simpl. now apply read_modifiers_stop.
  - rewrite concat_cons.
    change (("kh" ++ String.concat "" ms) ++ post)%string
      with (String "k" (String "h" (String.concat "" ms ++ post))).
    cbn [Host.read_modifiers]. now rewrite IH.
  - rewrite concat_cons.
    change (("kl" ++ String.concat "" ms) ++ post)%string
      with (String "k" (String "l" (String.concat "" ms ++ post))).
    cbn [Host.read_modifiers]. now rewrite IH.
Qed.

Lemma space_stops (p : ascii -> bool) post :
  (forall c, is_space c = true -> p c = false) ->
  all_in is_space post = true -> stops p post = true.
Proof.
  intros Hp Hpost. destruct post as [|c t]; [reflexivity|].
  simpl in *. apply andb_true_iff in Hpost. destruct Hpost as [Hc _].
  now rewrite (Hp c Hc).
Qed.

Lemma space_not_digit c : is_space c = true -> is_digit c = false.
Proof.
  intros H. destruct (is_digit c) eqn:E; [|reflexivity].
  now rewrite (digit_not_space c E) in H.
Qed.

Lemma space_not_k c : is_space c = true -> Ascii.eqb c "k" = false.
Proof.
  intros H. destruct (Ascii.eqb c "k") eqn:E; [|reflexivity].
  apply Ascii.eqb_eq in E. subst. discriminate.
Qed.

Lemma mods_stops_digit ms post :
  Forall (fun m => m = "kh" \/ m = "kl") ms ->
  all_in is_space post = true ->
  stops is_digit (String.concat "" ms ++ post) = true.
Proof.
  intros Hms Hpost. destruct Hms as [|m ms [->| ->] _].
  - simpl. now apply (space_stops is_digit post space_not_digit).
  - rewrite concat_cons. reflexivity.
  - rewrite concat_cons. reflexivity.
Qed.

Lemma span_space_all post :
  all_in is_space post = true -> Host.all_space post = true.
Proof.
  intros H. unfold Host.all_space.
  pose proof (span_all is_space post "" H eq_refl) as Hsp.
  rewrite append_nil_r in Hsp. now rewrite Hsp.
Qed.

(** A chunk that is a dice term, with white space around it. *)
Lemma parse_chunk_dice d pre post :
  plain_die d ->
  all_in is_space pre = true -> all_in is_space post = true ->
  Host.parse_chunk (pre ++ dice_text d ++ post) = Ret (Some (DiceTerm d)).
Proof.
  intros [Hn [Hf [Hms [Hres Hopt]]]] Hpre Hpost.
  destruct d as [n f ms rs o]. simpl in *. subst rs o.
  unfold Host.parse_chunk, dice_text. simpl number. simpl faces.
  simpl modifiers.
  pose proof (showZ_digits n Hn) as Hdn.
  pose proof (showZ_digits f Hf) as Hdf.
  destruct (showZ_nonempty n Hn) as [c [t Hshow]].
  rewrite !append_assoc.
  assert (Hstop : stops is_space
            (Host.showZ n ++ "d" ++ Host.showZ f ++ String.concat "" ms ++ post)
          = true).
  { rewrite Hshow in *. simpl in *. apply andb_true_iff in Hdn.
    destruct Hdn as [Hc _]. now rewrite (digit_not_space c Hc). }
  rewrite (span_all is_space pre _ Hpre Hstop). cbn [snd].
  rewrite (span_all is_digit (Host.showZ n)
             ("d" ++ Host.showZ f ++ String.concat "" ms ++ post) Hdn eq_refl).
  rewrite Hshow at 1. cbn [append]. cbv iota.
  change (is_Dd "d") with true. cbv iota.
  rewrite Hshow at 1. cbv iota.
  rewrite (read_number_showZ n Hn). simpl js_bind.
  rewrite (span_all is_digit (Host.showZ f) _ Hdf
             (mods_stops_digit ms post Hms Hpost)).
  rewrite (read_number_showZ f Hf). simpl js_bind.
  rewrite (read_modifiers_all ms post Hms
             (space_stops _ post space_not_k Hpost)).
  now rewrite (span_space_all post Hpost).
Qed.

(** The stripped text parses as the dice terms with their operators: the
    chunk in front takes the spaces that the removed numbers leave. *)
Lemma parse_stripped items :
  Forall plain_item items ->
  forall pre t,
    all_in not_sign pre = true ->
    (forall sp, all_in is_space sp = true ->
       Host.parse_chunk (pre ++ sp) = Ret (Some t)) ->
    Host.parse (pre ++ stripped_text items) = Ret (t :: item_dice items).
Proof.
  induction 1 as [|[s x] items [Hs Hx] _ IH]; intros pre t Hpre Hchunk.
  - simpl. rewrite append_nil_r. unfold Host.parse.
    rewrite (lex_plain pre Hpre). simpl.
    pose proof (Hchunk "" eq_refl) as Hc. rewrite append_nil_r in Hc.
    now rewrite Hc.
  - simpl fst in *. simpl snd in *.
    assert (Hpre' : all_in not_sign (pre ++ " ") = true).
    { now rewrite all_in_app, Hpre. }
    assert (Hchunk' : forall sp, all_in is_space sp = true ->
              Host.parse_chunk ((pre ++ " ") ++ sp) = Ret (Some t)).
    { intros sp Hsp. rewrite append_assoc. apply Hchunk. exact Hsp. }
    destruct x as [d|op|k|ts rs ms]; try contradiction.
    + destruct Hx as [Hd _].
      unfold item_dice. cbn [stripped_text flat_map fst snd app].
      fold (item_dice items).
      change (pre ++ String " " (String s (String " "
                (dice_text d ++ stripped_text items))))%string
        with (pre ++ " " ++ String s ((" " ++ dice_text d)
                ++ stripped_text items))%string.
      rewrite <- append_assoc.
      rewrite (parse_app_sign (pre ++ " ") s _ Hs).
      unfold Host.parse at 1. rewrite (lex_plain _ Hpre').
      cbn [Host.parse_tokens].
      pose proof (Hchunk' "" eq_refl) as Hc. rewrite append_nil_r in Hc.
      rewrite Hc. cbn [js_bind].
      rewrite (IH (" " ++ dice_text d)%string (DiceTerm d)).
      * reflexivity.
      * simpl. now apply dice_text_not_sign.
      * intros sp Hsp. rewrite append_assoc.
        now apply (parse_chunk_dice d " " sp Hd).
    + unfold item_dice. cbn [stripped_text flat_map fst snd app].
      fold (item_dice items).
      change (pre ++ String " " (stripped_text items))%string
        with (pre ++ " " ++ stripped_text items)%string.
      rewrite <- append_assoc. now apply IH.
Qed.

(** ** Rolling the crit dice *)

Lemma alter_term_add e t : Host.alter_term 1 e t = add_dice e t.
Proof.
  destruct t as [d| | |]; try reflexivity. simpl.
  now rewrite Z.mul_1_r.
Qed.

Lemma term_formula_unrolled t :
  Host.term_formula (unrolled t) = Host.term_formula t.
Proof. destruct t; reflexivity. Qed.

Lemma getFormula_unrolled ts :
  Host.getFormula (map unrolled ts) = Host.getFormula ts.
Proof.
  induction ts as [|t ts IH]; [reflexivity|].
  cbn [map]. now rewrite !getFormula_cons, term_formula_unrolled, IH.
Qed.

(** Evaluation fills in results and changes nothing else. *)
Lemma evaluate_terms_shape m ts g :
  forallb (fun t => negb (is_pool t)) ts = true ->
  exists ev g',
    Host.evaluate_terms m ts g = Ret (ev, g') /\
    map unrolled ev = map unrolled ts.
Proof.
  revert g. induction ts as [|t ts IH]; intros g Hts.
  - exists [], g. split; reflexivity.
  - simpl in Hts. apply andb_true_iff in Hts. destruct Hts as [Ht Hts].
    destruct t as [d|op|n|a b c]; try discriminate; simpl;
      match goal with
      | |- context [Host.evaluate_terms m ts ?g0] =>
          destruct (IH g0 Hts) as [ev [g' [Hev Hshape]]]; rewrite Hev
      end;
      simpl; eexists; eexists; (split; [reflexivity|]);
      simpl; now rewrite Hshape.
Qed.

(** Whether the sum of terms returns depends on their shape only. *)
Lemma sum_terms_shape ts1 :
  forall ts2 acc1 sign1 acc2 sign2 pos,
    map unrolled ts1 = map unrolled ts2 ->
    returns (Host.sum_terms ts1 acc1 sign1 pos) ->
    returns (Host.sum_terms ts2 acc2 sign2 pos).
Proof.
  induction ts1 as [|t1 ts1 IH]; intros [|t2 ts2] acc1 sign1 acc2 sign2 pos
    Hmap Hret; try discriminate.
  - simpl in *. destruct pos; try (eexists; reflexivity).
    destruct Hret as [a Ha]. discriminate.
  - cbn [map] in Hmap. inversion Hmap as [[Ht Hts]].
    destruct t1 as [d1|op1|n1|a1 b1 c1], t2 as [d2|op2|n2|a2 b2 c2];
      simpl in Ht; try discriminate; simpl in Hret |- *.
    + destruct pos; try (destruct Hret as [a Ha]; discriminate);
        eapply IH; eauto.
    + inversion Ht; subst op2.
      destruct (String.eqb op1 "+"); [eapply IH; eauto|].
      destruct (String.eqb op1 "-"); [eapply IH; eauto|].
      destruct Hret as [a Ha]. discriminate.
    + destruct pos; try (destruct Hret as [a Ha]; discriminate);
        eapply IH; eauto.
    + destruct pos; destruct Hret as [a Ha]; discriminate.
Qed.

Lemma is_sign_cases s : is_sign s = true -> s = "+"%char \/ s = "-"%char.
Proof.
  unfold is_sign. intros H. apply orb_true_iff in H.
  destruct H as [H|H]; apply Ascii.eqb_eq in H; auto.
Qed.

(** The sum of dice terms joined by operators returns. *)
Lemma sum_terms_item_dice e items :
  Forall plain_item items ->
  forall acc,
    returns (Host.sum_terms (map (add_dice e) (item_dice items)) acc 1
               Host.AfterValue).
Proof.
  induction 1 as [|[s x] items [Hs Hx] _ IH]; intros acc.
  - eexists. reflexivity.
  - simpl fst in *. simpl snd in *.
    unfold item_dice. cbn [flat_map fst snd]. fold (item_dice items).
    destruct x as [d|op|k|a b c]; try contradiction.
    + cbn [app map add_dice].
      destruct (is_sign_cases s Hs) as [-> | ->]; simpl; apply IH.
    + simpl. apply IH.
Qed.

Lemma item_dice_no_pool e items :
  Forall plain_item items ->
  forallb (fun t => negb (is_pool t)) (map (add_dice e) (item_dice items))
  = true.
Proof.
  induction 1 as [|[s x] items [Hs Hx] _ IH]; [reflexivity|].
  unfold item_dice. cbn [flat_map fst snd]. fold (item_dice items).
  simpl snd in Hx. destruct x as [d|op|k|a b c]; try contradiction;
    simpl; exact IH.
Qed.

Lemma item_dice_unrolled e items :
  Forall plain_item items ->
  map unrolled (map (add_dice e) (item_dice items))
  = map (add_dice e) (item_dice items).
Proof.
  induction 1 as [|[s x] items [Hs Hx] _ IH]; [reflexivity|].
  unfold item_dice. cbn [flat_map fst snd]. fold (item_dice items).
  simpl snd in Hx. destruct x as [d|op|k|a b c]; try contradiction.
  - destruct Hx as [[_ [_ [_ [Hres _]]]] _].
    cbn [app map add_dice unrolled]. rewrite IH.
    destruct d as [n f ms rs o]. simpl in *. now subst rs.
  - simpl. exact IH.
Qed.

Lemma item_dice_no_number e items :
  Forall (fun t => typeof_number t = false)
    (map (add_dice e) (item_dice items)).
Proof.
  induction items as [|[s x] items IH]; [constructor|].
  unfold item_dice. cbn [flat_map fst snd]. fold (item_dice items).
  destruct x as [d|op|k|a b c]; simpl; try exact IH.
  constructor; [reflexivity|]. constructor; [reflexivity | exact IH].
Qed.

(** The crit roll of a formula that starts with a dice term: the dice
    terms with their operators, the flat numbers gone. *)
Lemma host_getBaseCritRoll_items base d0 items :
  Host.parse base = Ret (DiceTerm d0 :: item_terms items) ->
  plain_die d0 -> Forall plain_item items ->
  @getBaseCritRoll host_engine (Some base)
  = Ret (Some (roll_of (DiceTerm d0 :: item_dice items))).
Proof.
  intros Hparse Hd0 Hitems.
  destruct base as [|c s]; [discriminate|].
  unfold getBaseCritRoll. cbn [newRoll formula host_engine].
  unfold Host.newRoll at 1. rewrite Hparse. unfold cleared.
  cbn [js_bind roll_terms map].
  rewrite getFormula_cons, term_formula_plain_die, getFormula_items.
  unfold remove_all.
  rewrite (remove_from_plain _ _ (dice_text_not_sign d0 Hd0)),
    (remove_from_items items Hitems).
  unfold Host.newRoll.
  rewrite (parse_stripped items Hitems (dice_text d0) (DiceTerm d0)
             (dice_text_not_sign d0 Hd0)).
  - cbn [js_bind roll_terms]. destruct (item_dice items); reflexivity.
  - intros sp Hsp. exact (parse_chunk_dice d0 "" sp Hd0 eq_refl Hsp).
Qed.

(** What C3 states fails for a flat number in front of the dice: the
    pattern removes a number only together with the operator before it,
    so the crit roll of "3+1d8" keeps the 3. *)
Lemma getCritRoll_leading_number_counterexample :
  exists r g',
    @getCritRoll host_engine unit (fun _ => mkSettings "1")
      (Some "3+1d8") 4 None None 42 = Ret (Some r, g') /\
    formula r = "3 + 1d8" /\
    In (NumericTerm 3) (roll_terms r).
Proof.
  eexists. eexists. split; [vm_compute; reflexivity|].
  split; [reflexivity | left; reflexivity].
Qed.

(** A dice term with a count of two digits after an operator loses the
    first digit to the pattern, and what is left does not parse. *)
Example getCritRoll_two_digit_count :
  remove_all critRegex "1d8 + 12d6" = "1d8 2d6" /\
  @getCritRoll host_engine unit (fun _ => mkSettings "1")
    (Some "1d8+12d6") 40 None None 42 = Threw.
Proof. split; vm_compute; reflexivity. Qed.

(** The first half of [getCritRoll] on a formula that starts with a dice
    term: the dice terms with their operators, each count increased,
    evaluated. *)
Lemma host_rolledCritRoll_items (base : string) (d0 : Die)
    (items : list item) (extra : option Z) (g : Z) :
  Host.parse base = Ret (DiceTerm d0 :: item_terms items) ->
  plain_die d0 -> Forall plain_item items ->
  let kept :=
    map (add_dice (extra_dice extra)) (DiceTerm d0 :: item_dice items) in
  exists r g',
    @rolledCritRoll host_engine (Some base) extra g = Ret (Some (r, g')) /\
    map unrolled (roll_terms r) = kept /\
    formula r = Host.getFormula kept /\
    Forall (fun t => typeof_number t = false) (roll_terms r) /\
    _evaluated r = true.
Proof.
  intros Hparse Hd0 Hitems kept.
  unfold rolledCritRoll.
  rewrite (host_getBaseCritRoll_items base d0 items Hparse Hd0 Hitems).
  cbn [js_bind alter evaluate host_engine].
  unfold Host.alter, roll_of. cbn [_evaluated roll_terms js_bind].
  fold (extra_dice extra).
  assert (Halter : map (Host.alter_term 1 (extra_dice extra))
                     (DiceTerm d0 :: item_dice items) = kept).
  { unfold kept. apply map_ext. intros t. apply alter_term_add. }
  rewrite Halter.
  assert (Hkept : map unrolled kept = kept).
  { unfold kept. cbn [map]. rewrite (item_dice_unrolled _ items Hitems).
    destruct Hd0 as [_ [_ [_ [Hres _]]]].
    destruct d0 as [n f ms rs o]. simpl in *. now subst rs. }
  assert (Hnopool : forallb (fun t => negb (is_pool t)) kept = true).
  { unfold kept. cbn [map forallb add_dice is_pool negb andb].
    apply item_dice_no_pool. exact Hitems. }
  destruct (evaluate_terms_shape false kept g Hnopool)
    as [ev [g' [Hev Hshape]]].
  unfold Host.evaluate. cbn [_evaluated roll_terms]. rewrite Hev.
  cbn [js_bind fst snd].
  assert (Hsum : returns (Host.sum_terms ev 0 1 Host.AtStart)).
  { apply (sum_terms_shape kept ev 0 1 0 1 Host.AtStart);
      [now rewrite Hshape, Hkept|].
    unfold kept. cbn [map add_dice Host.sum_terms].
    apply sum_terms_item_dice. exact Hitems. }
  destruct Hsum as [t Ht]. rewrite Ht. cbn [js_bind].
  eexists. eexists. split; [reflexivity|].
  cbn [roll_terms formula host_engine _evaluated].
  split; [now rewrite Hshape|].
  split; [now rewrite <- (getFormula_unrolled ev), Hshape, Hkept|].
  split; [|reflexivity].
  assert (Hnum : Forall (fun t => typeof_number t = false) kept).
  { unfold kept. cbn [map]. constructor; [reflexivity|].
    apply item_dice_no_number. }
  rewrite <- Hkept, <- Hshape in Hnum.
  clear - Hnum. induction ev as [|x ev IH]; [constructor|].
  inversion Hnum; subst. constructor; [|now apply IH].
  destruct x; cbn in *; congruence.
Qed.

(** C3, amended.  For a base formula that starts with a dice term and goes
    on with flat numbers and dice terms of a one-digit count, each after a
    [+] or [-], [getCritRoll] under policy "1" returns an evaluated roll
    whose terms are the dice terms of the formula with their operators,
    each count increased by the extra crit dice (0 when absent); no flat
    number is left, and the formula of the roll is that of these terms. *)
Theorem getCritRoll_dice_only (Settings : Type)
    (getSettings : option Settings -> BRSettings)
    (settings : option Settings) (base : string) (d0 : Die)
    (items : list item) (baseTotal : Z) (extra : option Z) (g : Z) :
  critBehavior (getSettings settings) = "1" ->
  Host.parse base = Ret (DiceTerm d0 :: item_terms items) ->
  plain_die d0 -> Forall plain_item items ->
  let kept :=
    map (add_dice (extra_dice extra)) (DiceTerm d0 :: item_dice items) in
  exists r g',
    @getCritRoll host_engine Settings getSettings (Some base) baseTotal
      settings extra g = Ret (Some r, g') /\
    map unrolled (roll_terms r) = kept /\
    formula r = Host.getFormula kept /\
    Forall (fun t => typeof_number t = false) (roll_terms r) /\
    _evaluated r = true.
Proof.
  intros Hcb Hparse Hd0 Hitems kept.
  rewrite (@getCritRoll_baseline host_engine Settings getSettings settings
             (Some base) baseTotal extra g) by (rewrite Hcb; reflexivity).
  destruct (host_rolledCritRoll_items base d0 items extra g Hparse Hd0 Hitems)
    as [r [g' [Hret Hrest]]].
  exists r, g'. split; [|exact Hrest].
  now rewrite Hret.
Qed.

Lemma getCritRoll_dice_only_witness :
  exists r g',
    @getCritRoll host_engine unit (fun _ => mkSettings "1")
      (Some "1d8+3") 7 None (Some 1) 42 = Ret (Some r, g') /\
    formula r = "2d8" /\
    map unrolled (roll_terms r) = [DiceTerm (mkDie 2 8 [] [] no_options)].
Proof.
  assert (Hd0 : plain_die (mkDie 1 8 [] [] no_options)).
  { unfold plain_die. simpl. repeat split; try lia. constructor. }
  assert (Hitems : Forall plain_item [("+"%char, NumericTerm 3)]).
  { constructor; [|constructor]. split; [reflexivity | simpl; lia]. }
  destruct (getCritRoll_dice_only unit (fun _ => mkSettings "1") None
              "1d8+3" (mkDie 1 8 [] [] no_options)
              [("+"%char, NumericTerm 3)] 7 (Some 1) 42
              eq_refl eq_refl Hd0 Hitems)
    as [r [g' [Hret [Hterms [Hformula _]]]]].
  exists r, g'. split; [exact Hret|]. split; [exact Hformula | exact Hterms].
Defined.

(** ** Formulas without dice *)

(** Where the host keeps flat numbers as JavaScript numbers, a crit
    formula that is one flat number gives no crit roll. *)
Lemma getBaseCritRoll_no_dice {E : RollEngine} (f : string) (r0 r1 : Roll)
    (n : Z) :
  primitive_numbers = true ->
  f <> EmptyString ->
  newRoll f = Ret r0 ->
  newRoll (remove_all critRegex (formula (cleared r0))) = Ret r1 ->
  roll_terms r1 = [NumericTerm n] ->
  getBaseCritRoll (Some f) = Ret None.
Proof.
  intros Hp Hf H0 H1 Hterms.
  unfold getBaseCritRoll. destruct f as [|c s]; [contradiction|].
  rewrite H0. cbn [js_bind]. fold (cleared r0). rewrite H1.
  cbn [js_bind]. rewrite Hterms. unfold typeof_number. rewrite Hp.
  reflexivity.
Qed.

(** Where every term is an object, the test for a flat number never
    holds, and the crit roll is the roll of the stripped formula. *)
Lemma getBaseCritRoll_objects {E : RollEngine} (f : string) (r0 r1 : Roll) :
  primitive_numbers = false ->
  f <> EmptyString ->
  newRoll f = Ret r0 ->
  newRoll (remove_all critRegex (formula (cleared r0))) = Ret r1 ->
  getBaseCritRoll (Some f) = Ret (Some r1).
Proof.
  intros Hp Hf H0 H1.
  unfold getBaseCritRoll. destruct f as [|c s]; [contradiction|].
  rewrite H0. cbn [js_bind]. fold (cleared r0). rewrite H1.
  cbn [js_bind]. unfold typeof_number. rewrite Hp. cbn [andb].
  destruct (roll_terms r1) as [|t [|t' ts]]; reflexivity.
Qed.

Lemma getBaseCritRoll_objects_not_null {E : RollEngine} (f : string) :
  primitive_numbers = false -> f <> EmptyString ->
  getBaseCritRoll (Some f) <> Ret None.
Proof.
  intros Hp Hf. unfold getBaseCritRoll.
  destruct f as [|c s]; [contradiction|].
  destruct (newRoll (String c s)) as [r0|]; cbn [js_bind]; [|discriminate].
  destruct (newRoll _) as [r1|]; cbn [js_bind]; [|discriminate].
  unfold typeof_number. rewrite Hp. cbn [andb].
  destruct (roll_terms r1) as [|t [|t' ts]]; discriminate.
Qed.

(** With a base crit roll, [getCritRoll] does not return [null]. *)
Lemma getCritRoll_of_base {E : RollEngine} (Settings : Type)
    (getSettings : option Settings -> BRSettings)
    (settings : option Settings) (base : option string) (baseTotal : Z)
    (extra : option Z) (g g' : rng) :
  getBaseCritRoll base <> Ret None ->
  getCritRoll Settings getSettings base baseTotal settings extra g
  <> Ret (None, g').
Proof.
  intros Hbase. unfold getCritRoll, rolledCritRoll.
  destruct (getBaseCritRoll base) as [[critRoll|]|]; cbn [js_bind];
    [|contradiction|discriminate].
  destruct (alter 1 (extra_dice extra) critRoll) as [altered|];
    cbn [js_bind]; [|discriminate].
  destruct (evaluate false altered g) as [[rolled g1]|]; cbn [js_bind];
    [|discriminate].
  repeat match goal with
  | |- context [String.eqb ?a ?b] => destruct (String.eqb a b)
  | |- context [js_bind ?m _] =>
      match m with
      | Ret _ => fail 1
      | _ => destruct m as [?|]; cbn [js_bind]
      end
  | |- context [js_bind (Ret _) _] => cbn [js_bind]
  end; discriminate.
Qed.

(** C4.  The code does not do what the claim and the documentation of
    [getBaseCritRoll] say.  The test for a crit formula without dice,
    [typeof critRoll.terms[0] === "number"], never holds on a host whose
    terms are objects: there [getBaseCritRoll] returns the roll of the
    stripped formula for every formula that is not empty, a flat number
    such as "5" included, and [getCritRoll] does not return [null],
    whatever the policy. *)
Theorem getCritRoll_flat_number {E : RollEngine} (Settings : Type)
    (getSettings : option Settings -> BRSettings)
    (settings : option Settings) (f : string) (baseTotal : Z)
    (extra : option Z) (g : rng) :
  primitive_numbers = false ->
  f <> EmptyString ->
  (forall r0 r1,
     newRoll f = Ret r0 ->
     newRoll (remove_all critRegex (formula (cleared r0))) = Ret r1 ->
     getBaseCritRoll (Some f) = Ret (Some r1)) /\
  getBaseCritRoll (Some f) <> Ret None /\
  forall g',
    getCritRoll Settings getSettings (Some f) baseTotal settings extra g
    <> Ret (None, g').
Proof.
  intros Hp Hf. split; [|split].
  - intros r0 r1. now apply getBaseCritRoll_objects.
  - now apply getBaseCritRoll_objects_not_null.
  - intros g'. apply getCritRoll_of_base.
    now apply getBaseCritRoll_objects_not_null.
Qed.

Lemma read_number_nonneg s n : Host.read_number s = Ret n -> 0 <= n.
Proof.
  unfold Host.read_number.
  destruct (NilEmpty.uint_of_string s) as [u|]; [|discriminate].
  intros H. inversion H. unfold Z.of_uint. lia.
Qed.

Lemma parse_chunk_number_nonneg s n :
  Host.parse_chunk s = Ret (Some (NumericTerm n)) -> 0 <= n.
Proof.
  unfold Host.parse_chunk.
  destruct (snd (Host.span is_space s)) as [|c t]; [discriminate|].
  destruct (Host.span is_digit (String c t)) as [ds rest].
  destruct rest as [|x rest].
  - destruct (Host.read_number ds) as [k|] eqn:Hk; [|discriminate].
    simpl. intros H. inversion H; subst. now apply (read_number_nonneg ds).
  - destruct (is_Dd x).
    + destruct (match ds with
                | EmptyString => Ret 1
                | String _ _ => Host.read_number ds
                end); [|discriminate].
      simpl. destruct (Host.span is_digit rest) as [fs rest''].
      destruct (Host.read_number fs); [|discriminate].
      simpl. destruct (Host.read_modifiers rest'') as [ms tail].
      destruct (Host.all_space tail); discriminate.
    + destruct (Host.all_space (String x rest)); [|discriminate].
      destruct (Host.read_number ds) as [k|] eqn:Hk; [|discriminate].
      simpl. intros H. inversion H; subst. now apply (read_number_nonneg ds).
Qed.

Lemma parse_tokens_number_nonneg l :
  forall ts, Host.parse_tokens l = Ret ts ->
  forall n, In (NumericTerm n) ts -> 0 <= n.
Proof.
  induction l as [|[s|c] l IH]; intros ts Hts n Hin.
  - inversion Hts; subst. contradiction.
  - simpl in Hts.
    destruct (Host.parse_chunk s) as [t|] eqn:Hs; [|discriminate].
    destruct (Host.parse_tokens l) as [ts'|]; [|discriminate].
    simpl in Hts. inversion Hts; subst. clear Hts.
    destruct t as [x|]; [|now apply (IH ts' eq_refl)].
    destruct Hin as [-> | Hin]; [|now apply (IH ts' eq_refl)].
    now apply (parse_chunk_number_nonneg s).
  - simpl in Hts. destruct (Host.parse_tokens l) as [ts'|]; [|discriminate].
    simpl in Hts. inversion Hts; subst. clear Hts.
    destruct Hin as [Hin | Hin]; [discriminate|].
    now apply (IH ts' eq_refl).
Qed.

(** On the reference engine, which keeps flat numbers as JavaScript
    numbers: a base formula that parses as one flat number has no crit
    roll. *)
Lemma host_flat_number_no_crit (Settings : Type)
    (getSettings : option Settings -> BRSettings)
    (settings : option Settings) (f : string) (n : Z) (baseTotal : Z)
    (extra : option Z) (g : Z) :
  Host.parse f = Ret [NumericTerm n] ->
  @getCritRoll host_engine Settings getSettings (Some f) baseTotal settings
    extra g = Ret (None, g).
Proof.
  intros Hparse.
  assert (Hn : 0 <= n).
  { apply (parse_tokens_number_nonneg (Host.lex f) _ Hparse). now left. }
  assert (Hf : f <> EmptyString).
  { intros ->. discriminate. }
  assert (H0 : @newRoll host_engine f = Ret (roll_of [NumericTerm n])).
  { cbn [newRoll host_engine]. unfold Host.newRoll. now rewrite Hparse. }
  assert (Hform : @formula host_engine (cleared (roll_of [NumericTerm n]))
                  = Host.showZ n).
  { reflexivity. }
  assert (H1 : @newRoll host_engine
                 (remove_all critRegex
                    (@formula host_engine (cleared (roll_of [NumericTerm n]))))
               = Ret (roll_of [NumericTerm n])).
  { rewrite Hform.
    rewrite (remove_all_plain _ (digits_not_sign _ (showZ_digits n Hn))).
    cbn [newRoll host_engine]. unfold Host.newRoll. rewrite parse_showZ.
    assert (E : (n <? 0) = false) by (apply Z.ltb_ge; exact Hn).
    now rewrite E. }
  unfold getCritRoll, rolledCritRoll.
  rewrite (@getBaseCritRoll_no_dice host_engine f _ _ n eq_refl Hf H0 H1
             eq_refl).
  reflexivity.
Qed.

(** Also there, a flat number with a sign has a crit roll: the pattern
    removes the number with its sign, and the roll of the empty formula
    has no term. *)
Example host_signed_number_crit :
  @getBaseCritRoll host_engine (Some "-5") = Ret (Some (roll_of [])) /\
  @getBaseCritRoll host_engine (Some "+5") = Ret (Some (roll_of [])).
Proof. split; vm_compute; reflexivity. Qed.

Lemma getCritRoll_flat_number_witness :
  @getBaseCritRoll object_engine (Some "5")
  = Ret (Some (roll_of [NumericTerm 5])) /\
  (forall g',
     @getCritRoll object_engine unit (fun _ => mkSettings "1")
       (Some "5") 5 None None 42 <> Ret (None, g')) /\
  exists r g',
    @getCritRoll object_engine unit (fun _ => mkSettings "1")
      (Some "5") 5 None None 42 = Ret (Some r, g') /\
    @formula object_engine r = "5" /\ total r = Some 5.
Proof.
  assert (Hf : "5" <> EmptyString) by discriminate.
  destruct (@getCritRoll_flat_number object_engine unit
              (fun _ => mkSettings "1") None "5" 5 None 42 eq_refl Hf)
    as [Hbase [_ Hcrit]].
  split; [exact (Hbase _ _ eq_refl eq_refl)|]. split; [exact Hcrit|].
  eexists. eexists. split; [vm_compute; reflexivity|].
  split; vm_compute; reflexivity.
Defined.

(** ** The reference engine reads back what it prints *)

Lemma plain_item_parsed it : plain_item it -> parsed_item it.
Proof.
  destruct it as [s x]. intros [Hs Hx]. split; [exact Hs|].
  simpl in *. destruct x; try contradiction; [now destruct Hx | exact Hx].
Qed.

Lemma clear_options_plain t : plain_term t -> clear_options t = t.
Proof.
  destruct t as [d| | |]; simpl; try reflexivity.
  intros [_ [_ [_ [_ Hopt]]]]. destruct d as [n f ms rs o]. simpl in *.
  now subst o.
Qed.

Lemma term_formula_not_sign t :
  plain_term t -> all_in not_sign (Host.term_formula t) = true.
Proof.
  destruct t as [d| |k|]; simpl plain_term; try contradiction; intros H.
  - rewrite <- (clear_options_plain (DiceTerm d) H), term_formula_plain_die.
    now apply dice_text_not_sign.
  - apply digits_not_sign, showZ_digits. exact H.
Qed.

Lemma parse_chunk_plain t pre post :
  plain_term t ->
  all_in is_space pre = true -> all_in is_space post = true ->
  Host.parse_chunk (pre ++ Host.term_formula t ++ post) = Ret (Some t).
Proof.
  destruct t as [d| |k|]; simpl plain_term; try contradiction;
    intros H Hpre Hpost.
  - rewrite <- (clear_options_plain (DiceTerm d) H) at 1.
    rewrite term_formula_plain_die. now apply parse_chunk_dice.
  - now apply parse_chunk_number.
Qed.

Lemma parse_items items :
  Forall parsed_item items ->
  forall pre t,
    all_in not_sign pre = true ->
    (forall sp, all_in is_space sp = true ->
       Host.parse_chunk (pre ++ sp) = Ret (Some t)) ->
    Host.parse (pre ++ items_text items) = Ret (t :: item_terms items).
Proof.
  induction 1 as [|[s x] items [Hs Hx] _ IH]; intros pre t Hpre Hchunk.
  - simpl. rewrite append_nil_r. unfold Host.parse.
    rewrite (lex_plain pre Hpre). simpl.
    pose proof (Hchunk "" eq_refl) as Hc. rewrite append_nil_r in Hc.
    now rewrite Hc.
  - simpl fst in *. simpl snd in *.
    assert (Hpre' : all_in not_sign (pre ++ " ") = true).
    { now rewrite all_in_app, Hpre. }
    unfold item_terms. cbn [items_text flat_map fst snd app].
    fold (item_terms items). rewrite (clear_options_plain x Hx).
    change (pre ++ String " " (String s (String " "
              (Host.term_formula x ++ items_text items))))%string
      with (pre ++ " " ++ String s ((" " ++ Host.term_formula x)
              ++ items_text items))%string.
    rewrite <- append_assoc.
    rewrite (parse_app_sign (pre ++ " ") s _ Hs).
    unfold Host.parse at 1. rewrite (lex_plain _ Hpre').
    cbn [Host.parse_tokens].
    pose proof (Hchunk " "%string eq_refl) as Hc.
    rewrite Hc. cbn [js_bind].
    rewrite (IH (" " ++ Host.term_formula x)%string x).
    + reflexivity.
    + simpl. now apply term_formula_not_sign.
    + intros sp Hsp. rewrite append_assoc.
      now apply (parse_chunk_plain x " " sp Hx).
Qed.

(** Printing a plain formula and parsing the text gives the terms back. *)
Lemma host_parse_getFormula t0 items :
  plain_term t0 -> Forall parsed_item items ->
  Host.parse (Host.getFormula (t0 :: item_terms items))
  = Ret (t0 :: item_terms items).
Proof.
  intros Ht0 Hitems.
  assert (Hclear : map clear_options (item_terms items) = item_terms items).
  { clear Ht0. induction Hitems as [|[s x] items [_ Hx] _ IH];
      [reflexivity|].
    unfold item_terms in *. cbn [flat_map fst snd app map].
    simpl snd in Hx. now rewrite (clear_options_plain x Hx), IH. }
  rewrite getFormula_cons, <- Hclear, getFormula_items, Hclear.
  apply (parse_items items Hitems).
  - now apply term_formula_not_sign.
  - intros sp Hsp. exact (parse_chunk_plain t0 "" sp Ht0 eq_refl Hsp).
Qed.

Lemma strip_keep_plain d : plain_die d -> plain_die (strip_keep d).
Proof.
  intros [Hn [Hf [Hms [Hres Hopt]]]]. unfold plain_die, strip_keep. simpl.
  repeat split; try assumption; try lia.
  induction Hms as [|m ms Hm _ IH]; [constructor|].
  simpl. destruct (negb _); [constructor; assumption | exact IH].
Qed.

Lemma plain_term_no_children t : plain_term t -> term_children t = None.
Proof. destruct t; simpl; try reflexivity; contradiction. Qed.

(** Normalizing the d20 term of a plain formula leaves a plain formula. *)
Lemma updateD20_loop_items items :
  Forall parsed_item items ->
  exists items',
    updateD20_loop strip_keep (item_terms items) = item_terms items' /\
    Forall parsed_item items'.
Proof.
  induction 1 as [|[s x] items [Hs Hx] Hitems [items' [IH1 IH2]]].
  - exists []. split; [reflexivity | constructor].
  - simpl fst in *. simpl snd in *.
    unfold item_terms in *. cbn [flat_map fst snd app].
    cbn [updateD20_loop is_d20 term_faces term_children].
    destruct (is_d20 x) eqn:Hd.
    + destruct (is_d20_dice x Hd) as [d [-> _]].
      exists ((s, DiceTerm (strip_keep d)) :: items). split; [reflexivity|].
      constructor; [|exact Hitems].
      split; [exact Hs | now apply strip_keep_plain].
    + rewrite (plain_term_no_children x Hx), IH1.
      exists ((s, x) :: items'). split; [reflexivity|].
      constructor; [split; assumption | exact IH2].
Qed.

Lemma updateD20_loop_plain t0 items :
  plain_term t0 -> Forall parsed_item items ->
  exists t0' items',
    updateD20_loop strip_keep (t0 :: item_terms items)
    = t0' :: item_terms items' /\
    plain_term t0' /\ Forall parsed_item items'.
Proof.
  intros Ht0 Hitems. cbn [updateD20_loop].
  destruct (is_d20 t0) eqn:Hd.
  - destruct (is_d20_dice t0 Hd) as [d [-> _]].
    exists (DiceTerm (strip_keep d)), items.
    split; [reflexivity|]. split; [now apply strip_keep_plain | exact Hitems].
  - rewrite (plain_term_no_children t0 Ht0).
    destruct (updateD20_loop_items items Hitems) as [items' [H1 H2]].
    rewrite H1. exists t0, items'. repeat split; assumption.
Qed.

(** On the reference engine, normalizing the formula that a first call
    produced from a plain expression is a no-op. *)
Lemma host_renormalize_formula r t0 items :
  roll_terms r = t0 :: item_terms items ->
  plain_term t0 -> Forall parsed_item items ->
  exists out1 r1 out2 r2,
    @parseD20Formula host_engine (inr r) = Ret (out1, r1) /\
    @parseD20Formula host_engine (inl (pf_formula out1)) = Ret (out2, r2) /\
    renormalized out1 out2.
Proof.
  intros Hterms Ht0 Hitems.
  destruct (@parseD20Formula_returns host_engine r) as [out1 [r1 H1]].
  assert (Hplain : exists t1 items1,
            roll_terms r1 = t1 :: item_terms items1 /\
            plain_term t1 /\ Forall parsed_item items1).
  { unfold parseD20Formula in H1. cbn [js_bind] in H1.
    destruct (findD20Term (Some r)) as [| |t]; try destruct t;
      inversion H1; subst; cbn [roll_terms];
      try (exists t0, items; repeat split; assumption).
    rewrite Hterms. now apply updateD20_loop_plain. }
  destruct Hplain as [t1 [items1 [Hterms1 [Ht1 Hitems1]]]].
  destruct (parseD20Formula_shape _ _ _ H1) as [Hform _].
  assert (Hnew : @newRoll host_engine (pf_formula out1)
                 = Ret (roll_of (roll_terms r1))).
  { rewrite Hform. cbn [newRoll formula host_engine]. unfold Host.newRoll.
    now rewrite Hterms1, (host_parse_getFormula t1 items1 Ht1 Hitems1). }
  destruct (@parseD20Formula_on_formula host_engine r r1
              (roll_of (roll_terms r1)) out1 H1 Hnew
              (eq_sym Hform) (eq_sym Hform) eq_refl)
    as [out2 [r2 [H2 Hre]]].
  exists out1, r1, out2, r2. repeat split; try assumption; apply Hre.
Qed.

(** ** Policy "3" on the reference engine *)

Lemma add_dice_plain e d :
  0 <= e -> plain_die d -> plain_term (add_dice e (DiceTerm d)).
Proof.
  intros He [Hn [Hf [Hms [Hres Hopt]]]]. simpl. unfold plain_die. simpl.
  repeat split; try assumption; lia.
Qed.

Lemma kept_items_terms e items :
  map (add_dice e) (item_dice items) = item_terms (kept_items e items).
Proof.
  induction items as [|[s x] items IH]; [reflexivity|].
  unfold item_dice, item_terms, kept_items in *.
  cbn [flat_map fst snd]. destruct x as [d| | |]; cbn [app map flat_map];
    try exact IH.
  cbn [add_dice fst snd]. now rewrite IH.
Qed.

Lemma kept_items_parsed e items :
  0 <= e -> Forall plain_item items -> Forall parsed_item (kept_items e items).
Proof.
  intros He. induction 1 as [|[s x] items [Hs Hx] _ IH]; [constructor|].
  unfold kept_items. cbn [flat_map fst snd]. fold (kept_items e items).
  simpl fst in Hs. simpl snd in Hx.
  destruct x as [d| | |]; try contradiction; cbn [app]; [|exact IH].
  constructor; [|exact IH]. split; [exact Hs|].
  apply add_dice_plain; [exact He | now destruct Hx].
Qed.

(** The sum of a plain formula returns. *)
Lemma sum_terms_items items :
  Forall parsed_item items ->
  forall acc,
    returns (Host.sum_terms (item_terms items) acc 1 Host.AfterValue).
Proof.
  induction 1 as [|[s x] items [Hs Hx] _ IH]; intros acc.
  - eexists. reflexivity.
  - simpl fst in *. simpl snd in *.
    unfold item_terms. cbn [flat_map fst snd app]. fold (item_terms items).
    destruct x as [d| |k|]; try contradiction;
      destruct (is_sign_cases s Hs) as [-> | ->]; simpl; apply IH.
Qed.

Lemma sum_terms_plain t0 items :
  plain_term t0 -> Forall parsed_item items ->
  returns (Host.sum_terms (t0 :: item_terms items) 0 1 Host.AtStart).
Proof.
  intros Ht0 Hitems.
  destruct t0 as [d| |k|]; try contradiction; simpl;
    apply sum_terms_items; exact Hitems.
Qed.

Lemma items_no_pool items :
  Forall parsed_item items ->
  forallb (fun t => negb (is_pool t)) (item_terms items) = true.
Proof.
  induction 1 as [|[s x] items [Hs Hx] _ IH]; [reflexivity|].
  unfold item_terms. cbn [flat_map fst snd app]. fold (item_terms items).
  simpl snd in Hx. destruct x; try contradiction; simpl; exact IH.
Qed.

(** A maximized evaluation returns when the terms have no pool and their
    sum returns. *)
Lemma host_max_eval_returns s ts g :
  Host.parse s = Ret ts ->
  forallb (fun t => negb (is_pool t)) ts = true ->
  returns (Host.sum_terms ts 0 1 Host.AtStart) ->
  exists res g' t,
    @max_eval host_engine s g = Ret (res, g') /\ total res = Some t.
Proof.
  intros Hparse Hpool Hsum. rewrite host_max_eval, Hparse. cbn [js_bind].
  destruct (evaluate_terms_shape true ts g Hpool) as [ev [g' [Hev Hshape]]].
  rewrite Hev. cbn [js_bind fst snd].
  destruct (sum_terms_shape ts ev 0 1 0 1 Host.AtStart (eq_sym Hshape) Hsum)
    as [t Ht].
  rewrite Ht. cbn [js_bind]. eexists. eexists. exists t.
  split; reflexivity.
Qed.

(** On the reference engine, for a formula that starts with a dice term and
    extra crit dice that are not negative, policy "3" returns the maximized
    total of the crit formula plus the difference between the maximized
    base total and the base total. *)
Lemma host_policy3_total (Settings : Type)
    (getSettings : option Settings -> BRSettings)
    (settings : option Settings) (base : string) (d0 : Die)
    (items : list item) (baseTotal : Z) (extra : option Z) (g : Z) :
  critBehavior (getSettings settings) = "3" ->
  Host.parse base = Ret (DiceTerm d0 :: item_terms items) ->
  plain_die d0 -> Forall plain_item items -> 0 <= extra_dice extra ->
  exists critRoll g1 maxRoll g2 m cres g3 c res g4,
    @rolledCritRoll host_engine (Some base) extra g
      = Ret (Some (critRoll, g1)) /\
    @max_eval host_engine base g1 = Ret (maxRoll, g2) /\
    total maxRoll = Some m /\
    @max_eval host_engine (formula critRoll) g2 = Ret (cres, g3) /\
    total cres = Some c /\
    @getCritRoll host_engine Settings getSettings (Some base) baseTotal
      settings extra g = Ret (Some res, g4) /\
    total res = Some (c + (m - baseTotal)).
Proof.
  intros Hcb Hparse Hd0 Hitems He.
  destruct (host_rolledCritRoll_items base d0 items extra g Hparse Hd0 Hitems)
    as [critRoll [g1 [Hrolled [_ [Hformula _]]]]].
  assert (Hparsed : Forall parsed_item items).
  { eapply Forall_impl; [|exact Hitems]. apply plain_item_parsed. }
  destruct (host_max_eval_returns base _ g1 Hparse) as [maxRoll [g2 [m [Hmax Hm]]]].
  { cbn [forallb is_pool negb andb]. now apply items_no_pool. }
  { now apply (sum_terms_plain (DiceTerm d0)). }
  set (kept := map (add_dice (extra_dice extra))
                 (DiceTerm d0 :: item_dice items)) in *.
  assert (Hkept : kept = add_dice (extra_dice extra) (DiceTerm d0)
                         :: item_terms (kept_items (extra_dice extra) items)).
  { unfold kept. cbn [map]. now rewrite kept_items_terms. }
  assert (Hk0 : plain_term (add_dice (extra_dice extra) (DiceTerm d0))).
  { now apply add_dice_plain. }
  assert (Hkitems : Forall parsed_item (kept_items (extra_dice extra) items)).
  { now apply kept_items_parsed. }
  assert (Hkparse : Host.parse (formula critRoll) = Ret kept).
  { rewrite Hformula, Hkept. now apply host_parse_getFormula. }
  assert (Hkpool : forallb (fun t => negb (is_pool t)) kept = true).
  { rewrite Hkept. cbn [forallb add_dice is_pool negb andb].
    now apply items_no_pool. }
  assert (Hksum : returns (Host.sum_terms kept 0 1 Host.AtStart)).
  { rewrite Hkept. now apply sum_terms_plain. }
  destruct (host_max_eval_returns (formula critRoll) kept g2 Hkparse Hkpool
              Hksum) as [cres [g3 [c [Hcres Hc]]]].
  set (md := m - baseTotal).
  set (tn := if md <? 0 then [OperatorTerm "-"; NumericTerm (- md)]
             else [NumericTerm md]).
  assert (Hnparse : Host.parse (formula critRoll ++ "+" ++ toString (Some md))
                    = Ret (kept ++ OperatorTerm "+" :: tn)).
  { change (formula critRoll ++ "+" ++ toString (Some md))%string
      with (formula critRoll ++ String "+" (Host.showZ md))%string.
    rewrite (parse_app_sign _ "+" _ eq_refl), Hkparse, parse_showZ.
    reflexivity. }
  assert (Hnpool : forallb (fun t => negb (is_pool t))
                     (kept ++ OperatorTerm "+" :: tn) = true).
  { rewrite forallb_app, Hkpool. unfold tn. destruct (md <? 0); reflexivity. }
  assert (Hnsum : returns (Host.sum_terms (kept ++ OperatorTerm "+" :: tn)
                             0 1 Host.AtStart)).
  { destruct Hksum as [a Ha].
    rewrite (sum_terms_app_plus kept tn 0 1 Host.AtStart a
               (fun _ => eq_refl) Ha).
    unfold tn. destruct (md <? 0); eexists; reflexivity. }
  destruct (host_max_eval_returns _ _ g2 Hnparse Hnpool Hnsum)
    as [res [g4 [t [Hres Ht]]]].
  exists critRoll, g1, maxRoll, g2, m, cres, g3, c, res, g4.
  repeat (split; [assumption|]).
  split.
  - rewrite (@getCritRoll_policy3 host_engine Settings getSettings settings
               base baseTotal extra g g1 g2 critRoll maxRoll m
               Hcb Hrolled Hmax Hm).
    fold md. now rewrite Hres.
  - pose proof (host_additive_max _ _ _ _ _ _ _ Hres Hcres) as Hadd.
    now rewrite Hadd, Hc.
Qed.

(** * Further properties of the functions above *)

(** ** What the classifier reads *)

Lemma active_results_view d d' :
  map (fun x => (result x, rerolled x)) (results d)
  = map (fun x => (result x, rerolled x)) (results d') ->
  forall thr hl,
    fold_left (count_result thr) (active_results d) hl
    = fold_left (count_result thr) (active_results d') hl.
Proof.
  unfold active_results.
  generalize (results d) (results d'). clear d d'.
  induction l as [|x l IH]; intros [|y l'] Hmap thr hl;
    try discriminate; [reflexivity|].
  cbn [map] in Hmap. inversion Hmap as [[Hres Hre Hrest]].
  cbn [filter]. rewrite Hre. destruct (negb (rerolled y)).
  - cbn [fold_left].
    replace (count_result thr hl x) with (count_result thr hl y)
      by (unfold count_result; now rewrite Hres).
    now apply IH.
  - now apply IH.
Qed.

Lemma count_die_view threshold c hl d d' :
  die_view d = die_view d' ->
  count_die threshold c hl d = count_die threshold c hl d'.
Proof.
  unfold die_view. intros H. inversion H as [[Hfaces Hres]].
  unfold count_die, effective_threshold. rewrite Hfaces.
  destruct (faces d' >? 1); [|reflexivity].
  destruct (critChecks_selects c (faces d')) as [[|]|]; try reflexivity.
  cbn [js_bind]. now rewrite (active_results_view d d' Hres).
Qed.

Lemma count_dice_view threshold c ds :
  forall ds' hl,
    map die_view ds = map die_view ds' ->
    count_dice threshold c hl ds = count_dice threshold c hl ds'.
Proof.
  induction ds as [|d ds IH]; intros [|d' ds'] hl Hmap; try discriminate;
    [reflexivity|].
  cbn [map] in Hmap.
  pose proof (f_equal (hd (die_view d)) Hmap) as Hd.
  pose proof (f_equal (@tl _) Hmap) as Hds. cbn [hd tl] in Hd, Hds.
  cbn [count_dice]. rewrite (count_die_view threshold c hl d d' Hd).
  destruct (count_die threshold c hl d') as [hl'|]; [|reflexivity].
  cbn [js_bind]. now apply IH.
Qed.

(** X1.  The classification of a roll depends only on the face counts of
    its dice and on the value and the [rerolled] flag of their results: the
    [discarded] flag that a keep modifier sets, the count, the modifiers and
    the flavor of a die do not enter. *)
Theorem processRoll_reads_faces_and_results (r r' : Roll)
    (threshold : option Z) (c : CritChecks) (bonus bonus' : option Roll) :
  map die_view (dice r) = map die_view (dice r') ->
  verdict (processRoll (Some r) threshold c bonus)
  = verdict (processRoll (Some r') threshold c bonus').
Proof.
  intros Hview. unfold processRoll.
  rewrite (count_dice_view threshold c (dice r) (dice r') (0, 0) Hview).
  destruct (count_dice threshold c (0, 0) (dice r')) as [hl|]; reflexivity.
Qed.

Lemma processRoll_reads_faces_and_results_witness :
  let kept := mkRoll
    [DiceTerm (mkDie 2 20 ["kh"]
       [mkResult 20 false false; mkResult 1 false true] no_options)]
    None (Some 20) false true in
  let plain := mkRoll
    [DiceTerm (mkDie 2 20 []
       [mkResult 20 false false; mkResult 1 false false] no_options)]
    None (Some 21) false true in
  verdict (processRoll (Some kept) None (CritBool true) None)
  = verdict (processRoll (Some plain) None (CritBool true) None) /\
  verdict (processRoll (Some kept) None (CritBool true) None)
  = Ret (Some (Some mixed, true)).
Proof.
  intros kept plain. split.
  - exact (processRoll_reads_faces_and_results kept plain None
             (CritBool true) None None eq_refl).
  - reflexivity.
Defined.

Lemma tally_permutation q l l' :
  Permutation l l' -> tally q l = tally q l'.
Proof.
  induction 1 as [|[d x] l l' _ IH|[d x] [d' x'] l|l l' l'' _ IH1 _ IH2].
  - reflexivity.
  - now rewrite !tally_cons, IH.
  - rewrite !tally_cons. lia.
  - now rewrite IH1.
Qed.

(** With [critChecks = false] the loop throws at the first die with more
    than one face and otherwise counts nothing. *)
Lemma count_dice_false threshold ds hl :
  count_dice threshold (CritBool false) hl ds =
  if existsb (fun d => faces d >? 1) ds then Threw else Ret hl.
Proof.
  induction ds as [|d ds IH]; [reflexivity|].
  cbn [count_dice existsb]. unfold count_die.
  destruct (faces d >? 1); [reflexivity|]. exact IH.
Qed.

Lemma existsb_permutation {A : Type} (p : A -> bool) l l' :
  Permutation l l' -> existsb p l = existsb p l'.
Proof.
  intros H. destruct (existsb p l) eqn:E.
  - apply existsb_exists in E. destruct E as [x [Hin Hp]].
    symmetry. apply existsb_exists. exists x. split; [|exact Hp].
    now apply (Permutation_in x H).
  - destruct (existsb p l') eqn:E'; [|reflexivity].
    apply existsb_exists in E'. destruct E' as [x [Hin Hp]].
    assert (Hex : existsb p l = true).
    { apply existsb_exists. exists x. split; [|exact Hp].
      now apply (Permutation_in x (Permutation_sym H)). }
    congruence.
Qed.

(** X2.  The classification does not depend on the order of the dice of
    the roll. *)
Theorem processRoll_dice_order (r r' : Roll) (threshold : option Z)
    (c : CritChecks) (bonus bonus' : option Roll) :
  Permutation (dice r) (dice r') ->
  verdict (processRoll (Some r) threshold c bonus)
  = verdict (processRoll (Some r') threshold c bonus').
Proof.
  intros Hperm. unfold processRoll.
  assert (Hcount : count_dice threshold c (0, 0) (dice r)
                   = count_dice threshold c (0, 0) (dice r')).
  { destruct c as [[|]|l].
    - rewrite !count_dice_tally by discriminate.
      assert (Hc : Permutation
                (counted (selected_by_code (CritBool true)) (dice r))
                (counted (selected_by_code (CritBool true)) (dice r'))).
      { unfold counted. now apply Permutation_flat_map. }
      now rewrite !(tally_permutation _ _ _ Hc).
    - rewrite !count_dice_false.
      now rewrite (existsb_permutation _ _ _ Hperm).
    - rewrite !count_dice_tally by discriminate.
      assert (Hc : Permutation
                (counted (selected_by_code (CritFaces l)) (dice r))
                (counted (selected_by_code (CritFaces l)) (dice r'))).
      { unfold counted. now apply Permutation_flat_map. }
      now rewrite !(tally_permutation _ _ _ Hc). }
  rewrite Hcount.
  destruct (count_dice threshold c (0, 0) (dice r')) as [hl|]; reflexivity.
Qed.

Lemma processRoll_dice_order_witness :
  let d20 := DiceTerm (mkDie 1 20 [] [mkResult 20 false false] no_options) in
  let d8 := DiceTerm (mkDie 1 8 [] [mkResult 1 false false] no_options) in
  let r := mkRoll [d20; OperatorTerm "+"; d8] None (Some 21) false true in
  let r' := mkRoll [d8; OperatorTerm "+"; d20] None (Some 21) false true in
  verdict (processRoll (Some r) None (CritFaces [20; 8]) None)
  = verdict (processRoll (Some r') None (CritFaces [20; 8]) None).
Proof.
  intros d20 d8 r r'.
  apply (processRoll_dice_order r r' None (CritFaces [20; 8]) None None).
  apply perm_swap.
Defined.

(** ** Normalizing a roll and classifying it *)

Lemma term_dice_children t l :
  term_children t = Some l -> term_dice t = flat_map term_dice l.
Proof.
  destruct t as [d|op|n|ts rs m]; simpl; try discriminate.
  assert (Hgo : forall l0,
    (fix go (l : list Term) : list Die :=
       match l with
       | [] => []
       | x :: l' => term_dice x ++ go l'
       end) l0 = flat_map term_dice l0).
  { induction l0 as [|x l0 IH]; simpl; [reflexivity|]. now rewrite IH. }
  destruct ts as [l1|]; [|destruct rs as [l2|]]; intros H; inversion H;
    subst; apply Hgo.
Qed.

(** Assigning to the d20 term leaves the dice what they were, as far as the
    assignment does. *)
Lemma dice_view_updateD20_loop f l :
  (forall d, die_view (f d) = die_view d) ->
  map die_view (flat_map term_dice (updateD20_loop f l))
  = map die_view (flat_map term_dice l).
Proof.
  intros Hf. revert l.
  assert (Hterm : forall t l, term_children t = Some l ->
    map die_view (flat_map term_dice (updateD20_loop f l))
    = map die_view (flat_map term_dice l)).
  { induction t as [d|op|n|ts rs m IHts IHrs] using Term_nested_ind;
      simpl; try discriminate.
    intros l Hl.
    assert (Hall : Forall (fun t => forall l0, term_children t = Some l0 ->
        map die_view (flat_map term_dice (updateD20_loop f l0))
        = map die_view (flat_map term_dice l0)) l).
    { destruct ts as [l1|]; [|destruct rs as [l2|]]; inversion Hl; subst;
        [exact IHts | exact IHrs]. }
    clear - Hall Hf. induction Hall as [|x l Hx _ IH]; [reflexivity|].
    cbn [updateD20_loop]. destruct (is_d20 x) eqn:Hd.
    - destruct (is_d20_dice x Hd) as [d [-> _]].
      cbn [flat_map term_dice app map]. now rewrite Hf.
    - destruct (term_children x) as [ch|] eqn:Hch.
      + destruct (findD20Term_term x) as [| |y].
        * cbn [flat_map]. now rewrite !map_app, IH.
        * cbn [flat_map]. now rewrite !map_app, IH.
        * destruct (updateD20_term_children f x ch Hch) as [Hch' _].
          cbn [flat_map]. rewrite !map_app.
          rewrite (term_dice_children _ _ Hch'), (term_dice_children _ _ Hch).
          now rewrite (Hx ch eq_refl).
      + cbn [flat_map]. now rewrite !map_app, IH. }
  intros l. apply (Hterm (PoolTerm (Some l) None [])). reflexivity.
Qed.

Lemma strip_keep_view d : die_view (strip_keep d) = die_view d.
Proof. reflexivity. Qed.

(** X3.  Normalizing the d20 term of a roll does not change how the roll is
    classified: [processRoll] returns the same total, [ignored], [critType]
    and [isCrit] on the roll that [parseD20Formula] leaves behind as on the
    roll it was given.  The results already rolled stay in place. *)
Theorem parseD20Formula_keeps_classification {E : RollEngine} (r : Roll) :
  exists out r',
    parseD20Formula (inr r) = Ret (out, r') /\
    map die_view (dice r') = map die_view (dice r) /\
    forall threshold c bonus,
      outcome_fields (processRoll (Some r') threshold c bonus)
      = outcome_fields (processRoll (Some r) threshold c bonus).
Proof.
  destruct (parseD20Formula_returns r) as [out [r' Hret]].
  exists out, r'. split; [exact Hret|].
  assert (Hfields : map die_view (dice r') = map die_view (dice r) /\
                    total r' = total r /\ ignored r' = ignored r).
  { unfold parseD20Formula in Hret. cbn [js_bind] in Hret.
    destruct (findD20Term (Some r)) as [| |t]; try destruct t;
      inversion Hret; subst; try (repeat split; reflexivity).
    unfold dice. cbn [roll_terms total ignored].
    split; [|split; reflexivity].
    apply dice_view_updateD20_loop. exact strip_keep_view. }
  destruct Hfields as [Hview [Htotal Hignored]].
  split; [exact Hview|].
  intros threshold c bonus. unfold processRoll.
  rewrite (count_dice_view threshold c (dice r') (dice r) (0, 0) Hview).
  destruct (count_dice threshold c (0, 0) (dice r)) as [hl|]; [|reflexivity].
  cbn [js_bind outcome_fields out_total out_ignored critType isCrit].
  now rewrite Htotal, Hignored.
Qed.

(** X4.  [parseD20Formula] reports the count of the d20 term as it was, and
    reads the roll state off its modifiers: "kh" gives "highest", also when
    "kl" is present as well; "kl" alone gives "lowest"; neither gives
    [null]. *)
Theorem parseD20Formula_rollState {E : RollEngine} (r : Roll) (d : Die) :
  findD20Term (Some r) = Obj (DiceTerm d) ->
  exists out r',
    parseD20Formula (inr r) = Ret (out, r') /\
    numRolls out = Some (number d) /\
    (In "kh" (modifiers d) -> pf_rollState out = Some (Some highest)) /\
    (~ In "kh" (modifiers d) -> In "kl" (modifiers d) ->
       pf_rollState out = Some (Some lowest)) /\
    (~ In "kh" (modifiers d) -> ~ In "kl" (modifiers d) ->
       pf_rollState out = Some None).
Proof.
  intros Hfind. unfold parseD20Formula. cbn [js_bind]. rewrite Hfind.
  eexists. eexists. split; [reflexivity|].
  cbn [numRolls pf_rollState]. split; [reflexivity|].
  destruct (includes_str "kh" (modifiers d)) eqn:Ekh;
    destruct (includes_str "kl" (modifiers d)) eqn:Ekl;
    repeat split; intros; try reflexivity;
    try (apply includes_str_In in Ekh; contradiction);
    try (apply includes_str_In in Ekl; contradiction);
    match goal with
    | H : In "kh" _ |- _ => apply includes_str_In in H; congruence
    | H : In "kl" _ |- _ => apply includes_str_In in H; congruence
    end.
Qed.

Lemma parseD20Formula_rollState_witness :
  exists out r',
    @parseD20Formula host_engine
      (inr (roll_of [DiceTerm (mkDie 3 20 ["kl"; "kh"] [] no_options)]))
    = Ret (out, r') /\
    numRolls out = Some 3 /\ pf_rollState out = Some (Some highest) /\
    pf_formula out = "1d20".
Proof.
  destruct (@parseD20Formula_rollState host_engine
              (roll_of [DiceTerm (mkDie 3 20 ["kl"; "kh"] [] no_options)])
              (mkDie 3 20 ["kl"; "kh"] [] no_options) eq_refl)
    as [out [r' [Hret [Hn [Hkh _]]]]].
  exists out, r'. split; [exact Hret|]. split; [exact Hn|].
  split; [apply Hkh; right; left; reflexivity|].
  vm_compute in Hret. inversion Hret. reflexivity.
Defined.

(** ** What the pattern removes and what it leaves *)

Lemma space_not_sign c : is_space c = true -> is_sign c = false.
Proof.
  destruct c as [[|] [|] [|] [|] [|] [|] [|] [|]];
    solve [reflexivity | discriminate].
Qed.

Lemma length_append a b :
  String.length (a ++ b) = (String.length a + String.length b)%nat.
Proof. induction a as [|x a IH]; simpl; [reflexivity | now rewrite IH]. Qed.

(** Greedy repetition goes through a run of the class when repetition
    from the end of the run succeeds. *)
Lemma star_run p a b n k m :
  all_in p a = true ->
  star p b (n + String.length a)%nat k = Some m ->
  star p (a ++ b) n k = Some m.
Proof.
  revert n. induction a as [|x a IH]; intros n Ha Hk.
  - simpl in *. now rewrite Nat.add_0_r in Hk.
  - simpl in Ha. apply andb_true_iff in Ha. destruct Ha as [Hx Ha].
    simpl. rewrite Hx. rewrite (IH (S n) Ha); [reflexivity|].
    simpl in Hk. now rewrite Nat.add_succ_r in Hk.
Qed.

Lemma stops_after (p q : ascii -> bool) ws b :
  (forall c, q c = true -> p c = false) ->
  all_in q ws = true -> stops p b = true -> stops p (ws ++ b) = true.
Proof.
  intros Hpq Hws Hb. destruct ws as [|c ws]; [exact Hb|].
  simpl in *. apply andb_true_iff in Hws. destruct Hws as [Hc _].
  now rewrite (Hpq c Hc).
Qed.

(** The operators and the white space in front of an operand that begins
    with neither: the pattern matches when the operand does. *)
Lemma match_at_operator s ss ws b m :
  is_sign s = true -> all_in is_sign ss = true -> all_in is_space ws = true ->
  stops is_sign b = true -> stops is_space b = true ->
  exec critOperand b (S (String.length ss + String.length ws))
       (fun _ n => Some n) = Some m ->
  match_at critRegex (String s (ss ++ ws ++ b)) = Some m.
Proof.
  intros Hs Hss Hws Hb1 Hb2 Hop. unfold match_at, critRegex.
  fold critOperand. cbn [exec]. rewrite Hs.
  apply star_all; [exact Hss | |].
  - apply (stops_after is_sign is_space); auto using space_not_sign.
  - apply star_all; [exact Hws | exact Hb2 |].
    rewrite <- Hop. reflexivity.
Qed.

(** Removing a match with the operators and the white space in front of
    it. *)
Lemma remove_match pre s ss ws b rest :
  all_in not_sign pre = true ->
  match_at critRegex (String s (ss ++ ws ++ b ++ rest))
  = Some (S (String.length ss + String.length ws + String.length b)) ->
  remove_all critRegex (pre ++ String s (ss ++ ws ++ b ++ rest))
  = (pre ++ remove_all critRegex rest)%string.
Proof.
  intros Hpre Hm. unfold remove_all. rewrite (remove_from_plain _ _ Hpre).
  f_equal. cbn [remove_from]. rewrite Hm.
  replace (String.length ss + String.length ws + String.length b)%nat
    with (String.length (ss ++ ws ++ b)%string)
    by (rewrite !length_append; lia).
  replace (ss ++ ws ++ b ++ rest)%string
    with ((ss ++ ws ++ b) ++ rest)%string
    by now rewrite !append_assoc.
  apply remove_from_skip.
Qed.

(** X5.  The pattern of [getBaseCritRoll] removes a reference to roll data
    ([@] and a name of letters, digits and dots) together with the operators
    and the white space in front of it, wherever it stands in text that has
    no operator before it; what follows the name is processed as if it
    stood alone. *)
Theorem critRegex_removes_reference (pre : string) (s : ascii)
    (ss ws : string) (c : ascii) (name rest : string) :
  all_in not_sign pre = true ->
  is_sign s = true -> all_in is_sign ss = true ->
  all_in is_space ws = true ->
  is_ref_char c = true -> all_in is_ref_char name = true ->
  stops is_ref_char rest = true ->
  remove_all critRegex
    (pre ++ String s (ss ++ ws ++ String "@" (String c name) ++ rest))
  = (pre ++ remove_all critRegex rest)%string.
Proof.
  intros Hpre Hs Hss Hws Hc Hname Hrest.
  apply remove_match; [exact Hpre|].
  apply match_at_operator; try assumption; try reflexivity.
  unfold critOperand. cbn [exec append]. cbn [Ascii.eqb]. 
  change (Ascii.eqb "@" "@") with true. cbv iota. rewrite Hc.
  rewrite (star_all is_ref_char name rest _ _
             (S (String.length ss + String.length ws
                 + String.length (String "@" (String c name))))
             Hname Hrest); [reflexivity|].
  f_equal. simpl. lia.
Qed.

Lemma critRegex_removes_reference_witness :
  remove_all critRegex "1d8 + @abilities.str.mod + 2d6" = "1d8  + 2d6".
Proof.
  exact (critRegex_removes_reference "1d8 " "+" "" " " "a" "bilities.str.mod"
           " + 2d6" eq_refl eq_refl eq_refl eq_refl eq_refl eq_refl eq_refl).
Defined.

(** X6.  The pattern of [getBaseCritRoll] removes a number with the
    operators and the white space in front of it when neither a digit nor
    a [d] follows the number. *)
Theorem critRegex_removes_number (pre : string) (s : ascii)
    (ss ws : string) (c : ascii) (ds rest : string) :
  all_in not_sign pre = true ->
  is_sign s = true -> all_in is_sign ss = true ->
  all_in is_space ws = true ->
  is_digit c = true -> all_in is_digit ds = true ->
  stops is_digit rest = true -> stops is_Dd rest = true ->
  remove_all critRegex (pre ++ String s (ss ++ ws ++ String c ds ++ rest))
  = (pre ++ remove_all critRegex rest)%string.
Proof.
  intros Hpre Hs Hss Hws Hc Hds Hrest HDd.
  apply remove_match; [exact Hpre|].
  apply match_at_operator; try assumption;
    try (simpl; now rewrite ?(digit_not_sign c Hc), ?(digit_not_space c Hc)).
  unfold critOperand. cbn [exec append].
  rewrite (digit_not_at c Hc), Hc.
  rewrite (star_all is_digit ds rest _ _
             (S (String.length ss + String.length ws
                 + String.length (String c ds))) Hds Hrest); [reflexivity|].
  cbn [exec]. destruct rest as [|x rest].
  - f_equal. simpl. lia.
  - simpl in HDd. apply negb_true_iff in HDd. rewrite HDd.
    f_equal. simpl. lia.
Qed.

Lemma critRegex_removes_number_witness :
  remove_all critRegex "2d6 +- 13 + 1d4" = "2d6  + 1d4".
Proof.
  exact (critRegex_removes_number "2d6 " "+" "-" " " "1" "3" " + 1d4"
           eq_refl eq_refl eq_refl eq_refl eq_refl eq_refl eq_refl eq_refl).
Defined.

(** X7.  A dice term whose count has two or more digits is cut by the
    pattern of [getBaseCritRoll]: after an operator, the operator and all
    digits of the count but the last are removed, and the last digit stays
    in front of the [d]. *)
Theorem critRegex_cuts_long_count (pre : string) (s : ascii)
    (ss ws : string) (c : ascii) (ds : string) (last x : ascii)
    (rest : string) :
  all_in not_sign pre = true ->
  is_sign s = true -> all_in is_sign ss = true ->
  all_in is_space ws = true ->
  is_digit c = true -> all_in is_digit ds = true ->
  is_digit last = true -> is_Dd x = true ->
  remove_all critRegex
    (pre ++ String s (ss ++ ws ++ String c ds ++ String last (String x rest)))
  = (pre ++ String last (String x (remove_all critRegex rest)))%string.
Proof.
  intros Hpre Hs Hss Hws Hc Hds Hlast Hx.
  assert (HxD : is_digit x = false).
  { destruct (is_digit x) eqn:E; [|reflexivity].
    now rewrite (digit_not_Dd x E) in Hx. }
  assert (Hxs : is_sign x = false).
  { destruct x as [[|] [|] [|] [|] [|] [|] [|] [|]];
      solve [reflexivity | discriminate]. }
  rewrite remove_match.
  - f_equal. unfold remove_all. cbn [remove_from].
    rewrite (match_at_not_sign last _ (digit_not_sign last Hlast)).
    rewrite (match_at_not_sign x _ Hxs). reflexivity.
  - exact Hpre.
  - apply match_at_operator; try assumption;
      try (simpl; now rewrite ?(digit_not_sign c Hc), ?(digit_not_space c Hc)).
    unfold critOperand. cbn [exec append].
    rewrite (digit_not_at c Hc), Hc.
    rewrite (star_run is_digit ds (String last (String x rest)) _ _
               (S (String.length ss + String.length ws
                   + String.length (String c ds))) Hds); [reflexivity|].
    cbn [star]. rewrite Hlast, HxD. cbn [exec]. rewrite Hx.
    rewrite (digit_not_Dd last Hlast). f_equal. simpl. lia.
Qed.

Lemma critRegex_cuts_long_count_witness :
  remove_all critRegex "1d8 + 10d6" = "1d8 0d6".
Proof.
  exact (critRegex_cuts_long_count "1d8 " "+" "" " " "1" "" "0" "d" "6"
           eq_refl eq_refl eq_refl eq_refl eq_refl eq_refl eq_refl eq_refl).
Defined.

(** ** When there is a critical roll *)

(** X8.  [getCritRoll] returns [null] exactly when [getBaseCritRoll] does,
    under every policy and on every engine: when the base crit roll is
    [null], the call returns [null] and draws nothing from the random
    source; when there is a base crit roll, the call never returns [null];
    and when [getBaseCritRoll] throws, so does [getCritRoll]. *)
Theorem getCritRoll_null_as_base {E : RollEngine} (Settings : Type)
    (getSettings : option Settings -> BRSettings)
    (settings : option Settings) (base : option string) (baseTotal : Z)
    (extra : option Z) (g : rng) :
  match getBaseCritRoll base,
        getCritRoll Settings getSettings base baseTotal settings extra g with
  | Ret None, out => out = Ret (None, g)
  | Ret (Some _), Ret (None, _) => False
  | Ret (Some _), _ => True
  | Threw, out => out = Threw
  end.
Proof.
  unfold getCritRoll, rolledCritRoll.
  destruct (getBaseCritRoll base) as [[critRoll|]|]; cbn [js_bind];
    try reflexivity.
  destruct (alter 1 (extra_dice extra) critRoll) as [altered|];
    cbn [js_bind]; [|exact I].
  destruct (evaluate false altered g) as [[rolled g']|]; cbn [js_bind];
    [|exact I].
  repeat match goal with
  | |- context [String.eqb ?a ?b] => destruct (String.eqb a b)
  | |- context [js_bind ?m _] =>
      match m with
      | Ret _ => fail 1
      | _ => destruct m as [?|]; cbn [js_bind]
      end
  | |- context [js_bind (Ret _) _] => cbn [js_bind]
  end; exact I.
Qed.

(** ** Resolving a resolved state *)

(** X9.  [getRollState] is idempotent: its result passed back as the
    explicit roll state resolves to itself, and a result that is not
    [null] does so whatever flags and event come with it. *)
Theorem getRollState_idempotent (a : RollStateArgs) :
  getRollState (mkArgs (getRollState a) None FNull FNull FNull FNull)
  = getRollState a /\
  forall ev f1 f2 f3 f4,
    getRollState a = None \/
    getRollState (mkArgs (getRollState a) ev f1 f2 f3 f4) = getRollState a.
Proof.
  assert (Hcases : (truthy_str (getRollState a) = true) \/
                   getRollState a = None).
  { unfold getRollState, getRollState_inner, getRollState_body,
      eventToAdvantage.
    destruct (truthy_str (rollState a)) eqn:Hr; [left; exact Hr|].
    destruct (truthy_flag (advantage a) || truthy_flag (adv a));
      [left; reflexivity|].
    destruct (truthy_flag (disadvantage a) || truthy_flag (disadv a));
      [left; reflexivity|].
    destruct (event a) as [ev|]; [|right; reflexivity].
    destruct (shiftKey ev); [left; reflexivity|].
    destruct (ctrlKey ev || metaKey ev); [left | right]; reflexivity. }
  destruct Hcases as [Ht | Hn].
  - assert (Hgo : forall ev f1 f2 f3 f4,
      getRollState (mkArgs (getRollState a) ev f1 f2 f3 f4) = getRollState a).
    { intros. generalize Ht. generalize (getRollState a). intros s Hs.
      unfold getRollState, getRollState_body. cbn [rollState].
      now rewrite Hs. }
    split; [apply Hgo | intros; right; apply Hgo].
  - rewrite Hn. split; [reflexivity | intros; left; reflexivity].
Qed.

(** ** Lowering the threshold *)

Lemma count_result_lower t t' hl hl' x :
  t' <= t ->
  fst hl <= fst hl' /\ 0 <= snd hl' <= snd hl ->
  fst (count_result t hl x) <= fst (count_result t' hl' x) /\
  0 <= snd (count_result t' hl' x) <= snd (count_result t hl x).
Proof.
  intros Ht [Hh Hl]. unfold count_result.
  destruct (result x >=? t) eqn:E1; destruct (result x >=? t') eqn:E2;
    destruct (result x =? 1) eqn:E3; cbn [fst snd]; lia.
Qed.

Lemma fold_count_result_lower t t' rs : forall hl hl',
  t' <= t ->
  fst hl <= fst hl' /\ 0 <= snd hl' <= snd hl ->
  fst (fold_left (count_result t) rs hl)
  <= fst (fold_left (count_result t') rs hl') /\
  0 <= snd (fold_left (count_result t') rs hl')
    <= snd (fold_left (count_result t) rs hl).
Proof.
  induction rs as [|x rs IH]; intros hl hl' Ht H; [exact H|].
  cbn [fold_left]. apply IH; [exact Ht|].
  now apply count_result_lower.
Qed.

Lemma count_dice_lower t t' c ds : forall hl hl' out,
  t <> 0 -> t' <> 0 -> t' <= t ->
  fst hl <= fst hl' /\ 0 <= snd hl' <= snd hl ->
  count_dice (Some t) c hl ds = Ret out ->
  exists out',
    count_dice (Some t') c hl' ds = Ret out' /\
    fst out <= fst out' /\ 0 <= snd out' <= snd out.
Proof.
  induction ds as [|d ds IH]; intros hl hl' out H0 H0' Ht H Hret.
  - inversion Hret; subst. exists hl'. split; [reflexivity | exact H].
  - cbn [count_dice] in *. unfold count_die in *.
    assert (Ethr : effective_threshold (Some t) d = t).
    { unfold effective_threshold. apply Z.eqb_neq in H0. now rewrite H0. }
    assert (Ethr' : effective_threshold (Some t') d = t').
    { unfold effective_threshold. apply Z.eqb_neq in H0'. now rewrite H0'. }
    rewrite Ethr in Hret. rewrite Ethr'.
    destruct (faces d >? 1).
    + destruct (critChecks_selects c (faces d)) as [[|]|];
        cbn [js_bind] in *; try discriminate.
      * apply (IH (fold_left (count_result t) (active_results d) hl) _ out
                 H0 H0' Ht); [|exact Hret].
        now apply fold_count_result_lower.
      * now apply (IH hl hl' out).
    + cbn [js_bind] in *. now apply (IH hl hl' out).
Qed.

(** X10.  Lowering a threshold that is set never loses a critical hit:
    when [processRoll] reports [isCrit] at a threshold, it returns and
    reports it at every lower threshold as well, and a roll classified as
    "success" stays a "success". *)
Theorem processRoll_lower_threshold (r : Roll) (t t' : Z) (c : CritChecks)
    (bonus : option Roll) (o : Outcome) :
  t <> 0 -> t' <> 0 -> t' <= t ->
  processRoll (Some r) (Some t) c bonus = Ret (Some o) ->
  isCrit o = true ->
  exists o',
    processRoll (Some r) (Some t') c bonus = Ret (Some o') /\
    isCrit o' = true /\
    (critType o = Some success -> critType o' = Some success).
Proof.
  intros H0 H0' Ht Hret Hcrit. unfold processRoll in *.
  destruct (count_dice (Some t) c (0, 0) (dice r)) as [hl|] eqn:Hcount;
    cbn [js_bind] in Hret; [|discriminate].
  destruct (count_dice_lower t t' c (dice r) (0, 0) (0, 0) hl H0 H0' Ht)
    as [hl' [Hcount' [Hh Hl]]]; [cbn [fst snd]; lia | exact Hcount |].
  rewrite Hcount'. cbn [js_bind]. eexists. split; [reflexivity|].
  inversion Hret; subst o. cbn [isCrit critType] in *.
  split; [lia|].
  unfold classify. intros Hs.
  destruct (fst hl >? 0) eqn:E1; [|discriminate].
  destruct (snd hl >? 0) eqn:E2; [discriminate|].
  replace (fst hl' >? 0) with true by lia.
  replace (snd hl' >? 0) with false by lia. reflexivity.
Qed.

Lemma processRoll_lower_threshold_witness :
  exists o',
    processRoll
      (Some (roll_of [DiceTerm (mkDie 2 20 []
                        [mkResult 19 false false; mkResult 1 false false]
                        no_options)]))
      (Some 18) (CritBool true) None = Ret (Some o') /\
    isCrit o' = true.
Proof.
  pose (r := roll_of [DiceTerm (mkDie 2 20 []
                        [mkResult 19 false false; mkResult 1 false false]
                        no_options)]).
  pose (o := match processRoll (Some r) (Some 19) (CritBool true) None with
             | Ret (Some o) => o
             | _ => mkOutcome r None None None false
             end).
  assert (H19 : 19 <> 0) by discriminate.
  assert (H18 : 18 <> 0) by discriminate.
  assert (Hle : 18 <= 19) by discriminate.
  destruct (processRoll_lower_threshold r 19 18 (CritBool true) None o
              H19 H18 Hle eq_refl eq_refl) as [o' [Hret [Hcrit _]]].
  exists o'. split; [exact Hret | exact Hcrit].
Defined.

(** ** The flavors of rolls *)

Section Node_induction.

Variable P : Node -> Prop.
Hypothesis P_node : forall f ts rs,
  Forall P (node_list ts) -> Forall P (node_list rs) -> P (mkNode f ts rs).

Fixpoint Node_nested_ind (t : Node) : P t :=
  let fix all (l : list Node) : Forall P l :=
    match l with
    | [] => Forall_nil P
    | x :: l' => Forall_cons x (Node_nested_ind x) (all l')
    end in
  match t with
  | mkNode f ts rs =>
      P_node f ts rs
        (match ts return Forall P (node_list ts) with
         | Some l => all l
         | None => Forall_nil P
         end)
        (match rs return Forall P (node_list rs) with
         | Some l => all l
         | None => Forall_nil P
         end)
  end.

End Node_induction.

Lemma flavors_add_In flavors x y :
  In y (flavors_add flavors x) <-> In y flavors \/ y = x.
Proof.
  unfold flavors_add. destruct (includes_str x flavors) eqn:E.
  - apply includes_str_In in E. split; [auto|]. intros [H| ->]; auto.
  - rewrite in_app_iff. simpl. intuition congruence.
Qed.

Lemma adds_In l : forall flavors y,
  In y (fold_left flavors_add l flavors) <-> In y flavors \/ In y l.
Proof.
  induction l as [|x l IH]; intros flavors y; simpl; [tauto|].
  rewrite IH, flavors_add_In. intuition congruence.
Qed.

Lemma flavors_add_member s x : In x s -> flavors_add s x = s.
Proof.
  intros H. unfold flavors_add. apply includes_str_In in H. now rewrite H.
Qed.

(** Adding the elements of a set built from [l] is adding those of [l]. *)
Lemma adds_add a s x :
  fold_left flavors_add (flavors_add a x) s
  = flavors_add (fold_left flavors_add a s) x.
Proof.
  destruct (includes_str x a) eqn:E.
  - apply includes_str_In in E. rewrite (flavors_add_member a x E).
    symmetry. apply flavors_add_member, adds_In. now right.
  - unfold flavors_add at 2. rewrite E. now rewrite fold_left_app.
Qed.

Lemma adds_adds l : forall a s,
  fold_left flavors_add (fold_left flavors_add l a) s
  = fold_left flavors_add l (fold_left flavors_add a s).
Proof.
  induction l as [|x l IH]; intros a s; [reflexivity|].
  cbn [fold_left]. now rewrite IH, adds_add.
Qed.

Lemma add_own_adds flavors t :
  add_own flavors t = fold_left flavors_add (own_flavor t) flavors.
Proof.
  unfold add_own, own_flavor.
  destruct (node_flavor t) as [[|c s]|]; reflexivity.
Qed.

Lemma node_flavors_children t :
  node_flavors t = own_flavor t ++ flat_map node_flavors (node_children (Some t)).
Proof.
  assert (Hgo : forall l,
    (fix go (l : list Node) : list string :=
       match l with
       | [] => []
       | x :: l' => node_flavors x ++ go l'
       end) l = flat_map node_flavors l).
  { induction l as [|x l IH]; simpl; [reflexivity | now rewrite IH]. }
  destruct t as [f [l|] [l'|]]; simpl; now rewrite ?Hgo.
Qed.

Lemma getRollFlavors_term_loop t :
  getRollFlavors_term t = getRollFlavors_loop (node_children (Some t)) [].
Proof.
  assert (Hgo : forall l flavors,
    (fix loop (l : list Node) (flavors : list string) : list string :=
       match l with
       | [] => flavors
       | term :: l' =>
           let flavors := add_own flavors term in
           let flavors :=
             if has_children term
             then fold_left flavors_add (getRollFlavors_term term) flavors
             else flavors in
           loop l' flavors
       end) l flavors = getRollFlavors_loop l flavors).
  { induction l as [|x l IH]; intros flavors; simpl; [reflexivity|].
    now rewrite IH. }
  destruct t as [f [l|] [l'|]]; simpl; now rewrite ?Hgo.
Qed.

Lemma no_children t :
  has_children t = false -> node_children (Some t) = [].
Proof. destruct t as [f [l|] [l'|]]; simpl; congruence. Qed.

(** The loop adds to the set the flavors on and below the objects it runs
    over, in depth-first order. *)
Lemma getRollFlavors_loop_adds l : forall flavors,
  getRollFlavors_loop l flavors
  = fold_left flavors_add (flat_map node_flavors l) flavors.
Proof.
  assert (Hnode : forall t k, node_children (Some t) = k -> forall flavors,
    getRollFlavors_loop k flavors
    = fold_left flavors_add (flat_map node_flavors k) flavors).
  { clear l. induction t as [f ts rs IHts IHrs] using Node_nested_ind.
    intros k Hk.
    assert (Hall : Forall (fun t => forall k0, node_children (Some t) = k0 ->
        forall flavors, getRollFlavors_loop k0 flavors
        = fold_left flavors_add (flat_map node_flavors k0) flavors) k).
    { destruct ts as [l1|]; [|destruct rs as [l2|]]; simpl in Hk; subst k;
        [exact IHts | exact IHrs | constructor]. }
    clear - Hall. induction Hall as [|x k Hx _ IH]; intros flavors;
      [reflexivity|].
    cbn [getRollFlavors_loop flat_map]. rewrite IH, fold_left_app.
    f_equal. rewrite node_flavors_children, fold_left_app, <- add_own_adds.
    destruct (has_children x) eqn:Hc.
    - rewrite getRollFlavors_term_loop, (Hx _ eq_refl), adds_adds.
      reflexivity.
    - now rewrite (no_children x Hc). }
  apply (Hnode (mkNode None (Some l) None)). reflexivity.
Qed.

Lemma getRollFlavors_adds rolls :
  getRollFlavors rolls = fold_left flavors_add (flavors_below rolls) [].
Proof.
  unfold getRollFlavors, flavors_below. generalize (@nil string).
  induction rolls as [|r rolls IH]; intros flavors; [reflexivity|].
  cbn [fold_left flat_map]. rewrite IH, flat_map_app, fold_left_app.
  now rewrite getRollFlavors_loop_adds.
Qed.

Lemma filter_filter {A : Type} (p q : A -> bool) l :
  filter p (filter q l) = filter (fun x => q x && p x) l.
Proof.
  induction l as [|x l IH]; simpl; [reflexivity|].
  destruct (q x); simpl; [destruct (p x)|]; now rewrite IH.
Qed.

(** Adding a list to a set appends the first occurrences of its new
    elements. *)
Lemma adds_firsts l : forall s,
  fold_left flavors_add l s
  = s ++ filter (fun y => negb (includes_str y s)) (firsts l).
Proof.
  induction l as [|x l IH]; intros s; [simpl; now rewrite app_nil_r|].
  cbn [fold_left firsts filter]. rewrite IH. unfold flavors_add.
  rewrite filter_filter.
  destruct (includes_str x s) eqn:E; cbn [negb].
  - f_equal. apply filter_ext_in. intros y _.
    destruct (String.eqb x y) eqn:Exy; [|reflexivity].
    apply String.eqb_eq in Exy. subst y. now rewrite E.
  - rewrite <- app_assoc. cbn [app]. f_equal. f_equal.
    apply filter_ext_in. intros y _. unfold includes_str.
    rewrite existsb_app. cbn [existsb]. rewrite orb_false_r, negb_orb.
    rewrite (String.eqb_sym y x). apply andb_comm.
Qed.

Lemma firsts_In l y : In y (firsts l) <-> In y l.
Proof.
  induction l as [|x l IH]; simpl; [tauto|].
  rewrite filter_In, IH, negb_true_iff, String.eqb_neq.
  destruct (string_dec x y); intuition congruence.
Qed.

Lemma firsts_NoDup l : NoDup (firsts l).
Proof.
  induction l as [|x l IH]; simpl; constructor.
  - rewrite filter_In, negb_true_iff, String.eqb_neq. intuition.
  - now apply NoDup_filter.
Qed.

Lemma own_flavor_nonempty t f : In f (own_flavor t) -> f <> "".
Proof.
  unfold own_flavor. destruct (node_flavor t) as [[|c s]|]; simpl;
    intuition (subst; discriminate).
Qed.

Lemma node_flavors_nonempty f : forall t, In f (node_flavors t) -> f <> "".
Proof.
  assert (Hnode : forall t k, node_children (Some t) = k ->
    In f (flat_map node_flavors k) -> f <> "").
  { induction t as [g ts rs IHts IHrs] using Node_nested_ind.
    intros k Hk.
    assert (Hall : Forall (fun t => forall k0, node_children (Some t) = k0 ->
        In f (flat_map node_flavors k0) -> f <> "") k).
    { destruct ts as [l1|]; [|destruct rs as [l2|]]; simpl in Hk; subst k;
        [exact IHts | exact IHrs | constructor]. }
    clear - Hall. induction Hall as [|x k Hx _ IH]; [intros []|].
    cbn [flat_map]. rewrite in_app_iff, node_flavors_children, in_app_iff.
    intros [[H|H]|H]; [now apply (own_flavor_nonempty x) | | now apply IH].
    now apply (Hx _ eq_refl). }
  intros t. rewrite node_flavors_children, in_app_iff.
  intros [H|H]; [now apply (own_flavor_nonempty t) |].
  now apply (Hnode t _ eq_refl).
Qed.

Lemma adds_nil l : fold_left flavors_add l [] = firsts l.
Proof.
  rewrite adds_firsts. cbn [app].
  induction (firsts l) as [|x k IH]; [reflexivity|].
  cbn [filter includes_str existsb negb] in *. now rewrite IH.
Qed.

(** X11.  [getRollFlavors] returns the truthy flavors found below its
    arguments, in depth-first order and each at its first occurrence:
    every child of each roll, then what is below the child, rolls taken
    in the order given.  The sets built by the recursive calls and merged
    into the caller's set do not change this order.  A roll that is [null]
    contributes nothing, and the flavor of an argument itself is not
    read. *)
Theorem getRollFlavors_first_occurrences (rolls : list (option Node)) :
  getRollFlavors rolls = firsts (flavors_below rolls).
Proof.
  rewrite getRollFlavors_adds. apply adds_nil.
Qed.

(** X12.  The array that [getRollFlavors] returns has no duplicates and no
    empty string, and holds a string exactly when it is the truthy flavor
    of an object below one of the rolls. *)
Theorem getRollFlavors_set (rolls : list (option Node)) :
  NoDup (getRollFlavors rolls) /\
  ~ In "" (getRollFlavors rolls) /\
  forall f, In f (getRollFlavors rolls) <-> In f (flavors_below rolls).
Proof.
  assert (Hin : forall f,
    In f (getRollFlavors rolls) <-> In f (flavors_below rolls)).
  { intros f. rewrite getRollFlavors_adds, adds_In. simpl. tauto. }
  split; [|split; [|exact Hin]].
  - rewrite getRollFlavors_adds, adds_firsts. cbn [app].
    apply NoDup_filter, firsts_NoDup.
  - rewrite Hin. unfold flavors_below. rewrite in_flat_map.
    intros [t [_ Ht]]. now apply (node_flavors_nonempty "" t).
Qed.

(** X13.  The flavors of several rolls are those of the first rolls,
    followed by those of the later rolls that the first ones do not
    have. *)
Theorem getRollFlavors_app (rolls1 rolls2 : list (option Node)) :
  getRollFlavors (rolls1 ++ rolls2)
  = getRollFlavors rolls1
    ++ filter (fun f => negb (includes_str f (getRollFlavors rolls1)))
         (getRollFlavors rolls2).
Proof.
  rewrite (getRollFlavors_adds (rolls1 ++ rolls2)).
  unfold flavors_below. rewrite !flat_map_app, fold_left_app.
  fold (flavors_below rolls1). fold (flavors_below rolls2).
  rewrite <- getRollFlavors_adds, adds_firsts.
  now rewrite (getRollFlavors_adds rolls2), adds_nil.
Qed.

(** ** Crit thresholds *)

Lemma read_digits_acc l : forall p,
  read_digits 10 (NilEmpty.string_of_uint l) (Some (Z.pos p))
  = Some (Z.pos (Pos.of_uint_acc l p)).
Proof.
  induction l as [|l IH|l IH|l IH|l IH|l IH|l IH|l IH|l IH|l IH|l IH];
    intros p; [reflexivity| | | | | | | | | |];
    cbn [NilEmpty.string_of_uint read_digits Pos.of_uint_acc];
    match goal with
    | |- context [digit_of 10 ?c] =>
        let v := eval vm_compute in (digit_of 10 c) in
        change (digit_of 10 c) with v
    end; cbv iota; rewrite <- IH; do 2 f_equal; lia.
Qed.

Lemma read_digits_zero l :
  read_digits 10 (NilEmpty.string_of_uint l) (Some 0)
  = Some (Z.of_N (Pos.of_uint l)).
Proof.
  induction l as [|l IH|l IH|l IH|l IH|l IH|l IH|l IH|l IH|l IH|l IH];
    [reflexivity| | | | | | | | | |];
    cbn [NilEmpty.string_of_uint read_digits Pos.of_uint];
    match goal with
    | |- context [digit_of 10 ?c] =>
        let v := eval vm_compute in (digit_of 10 c) in
        change (digit_of 10 c) with v
    end; cbv iota;
    [exact IH | apply (read_digits_acc l) ..].
Qed.

Lemma read_digits_uint u :
  u <> Decimal.Nil ->
  read_digits 10 (NilEmpty.string_of_uint u) None = Some (Z.of_uint u).
Proof.
  intros Hu. unfold Z.of_uint.
  destruct u as [|l|l|l|l|l|l|l|l|l|l]; [contradiction| | | | | | | | | |];
    cbn [NilEmpty.string_of_uint read_digits Pos.of_uint];
    match goal with
    | |- context [digit_of 10 ?c] =>
        let v := eval vm_compute in (digit_of 10 c) in
        change (digit_of 10 c) with v
    end; cbv iota;
    [apply read_digits_zero | apply (read_digits_acc l) ..].
Qed.

Lemma trim_start_digit c t :
  is_digit c = true -> trim_start (String c t) = String c t.
Proof. intros Hc. simpl. now rewrite (digit_not_space c Hc). Qed.

Lemma parseInt_digits c t :
  is_digit c = true -> all_in is_digit t = true ->
  parseInt (String c t) = read_digits 10 (String c t) None.
Proof.
  intros Hc Ht. unfold parseInt. rewrite (trim_start_digit c t Hc).
  assert (Hsign : match String c t with
                  | String "-" t0 => (-1, t0)
                  | String "+" t0 => (1, t0)
                  | _ => (1, String c t)
                  end = (1, String c t)).
  { destruct c as [[|] [|] [|] [|] [|] [|] [|] [|]];
      solve [reflexivity | discriminate]. }
  rewrite Hsign. cbn [fst snd].
  assert (Hbase : match String c t with
                  | String "0" (String "x" t0) => (16, t0)
                  | String "0" (String "X" t0) => (16, t0)
                  | t0 => (10, t0)
                  end = (10, String c t)).
  { destruct t as [|x t]; [destruct c as [[|] [|] [|] [|] [|] [|] [|] [|]];
                            reflexivity|].
    simpl in Ht. apply andb_true_iff in Ht. destruct Ht as [Hx _].
    destruct x as [[|] [|] [|] [|] [|] [|] [|] [|]]; try discriminate;
      destruct c as [[|] [|] [|] [|] [|] [|] [|] [|]]; reflexivity. }
  rewrite Hbase. cbn [fst snd].
  destruct (read_digits 10 (String c t) None) as [v|]; [|reflexivity].
  f_equal. lia.
Qed.

(** A number printed and parsed is the number. *)
Lemma parseInt_toString n : parseInt (toString (Some n)) = Some n.
Proof.
  assert (Hpos : forall m, 0 <= m -> parseInt (toString (Some m)) = Some m).
  { intros m Hm. fold (Host.showZ m).
    destruct (showZ_nonneg m Hm) as [u [Hshow [Hu Hval]]].
    pose proof (showZ_digits m Hm) as Hdig.
    destruct (showZ_nonempty m Hm) as [c [t Hct]].
    rewrite Hct in Hdig. simpl in Hdig. apply andb_true_iff in Hdig.
    destruct Hdig as [Hc Ht].
    rewrite Hct, (parseInt_digits c t Hc Ht), <- Hct, Hshow.
    now rewrite (read_digits_uint u Hu), Hval. }
  destruct (Z_lt_le_dec n 0) as [Hneg | Hn]; [|now apply Hpos].
  fold (Host.showZ n). rewrite (showZ_negative n Hneg).
  assert (Hm : 0 <= - n) by lia.
  specialize (Hpos (- n) Hm). fold (Host.showZ (- n)) in Hpos.
  destruct (showZ_nonempty (- n) Hm) as [c [t Hct]].
  pose proof (showZ_digits (- n) Hm) as Hdig.
  rewrite Hct in *. simpl in Hdig. apply andb_true_iff in Hdig.
  destruct Hdig as [Hc Ht].
  rewrite (parseInt_digits c t Hc Ht) in Hpos.
  unfold parseInt. cbn [trim_start]. change (is_space "-") with false.
  cbv iota. cbn [fst snd].
  assert (Hbase : match String c t with
                  | String "0" (String "x" t0) => (16, t0)
                  | String "0" (String "X" t0) => (16, t0)
                  | t0 => (10, t0)
                  end = (10, String c t)).
  { destruct t as [|x t]; [destruct c as [[|] [|] [|] [|] [|] [|] [|] [|]];
                            reflexivity|].
    simpl in Ht. apply andb_true_iff in Ht. destruct Ht as [Hx _].
    destruct x as [[|] [|] [|] [|] [|] [|] [|] [|]]; try discriminate;
      destruct c as [[|] [|] [|] [|] [|] [|] [|] [|]]; reflexivity. }
  rewrite Hbase. cbn [fst snd]. rewrite Hpos. f_equal. lia.
Qed.

Lemma toString_truthy n : truthy_str (Some (toString (Some n))) = true.
Proof.
  destruct (Z_lt_le_dec n 0) as [Hneg | Hn].
  - fold (Host.showZ n). now rewrite (showZ_negative n Hneg).
  - fold (Host.showZ n). destruct (showZ_nonempty n Hn) as [c [t ->]].
    reflexivity.
Qed.

(** X14.  An actor's crit threshold flag may be stored as a number or as
    the decimal string of the number: [ActorUtils.getCritThreshold] returns
    the number in both cases, for weapons and powers alike, with one
    exception: the number 0 is falsy and gives 20, while the string "0"
    gives 0. *)
Theorem getCritThreshold_number_or_string (n : Z) (other : FlagValue) :
  Z.abs n <= MAX_SAFE_INTEGER ->
  let as_number := NumValue n in
  let as_string := StrValue (toString (Some n)) in
  let weapon v := Some (mkActor (Some (mkActorFlags v other))) in
  let power v := Some (mkActor (Some (mkActorFlags other v))) in
  ActorUtils.getCritThreshold (weapon as_number) (Some "weapon")
  = Some (if n =? 0 then 20 else n) /\
  ActorUtils.getCritThreshold (weapon as_string) (Some "weapon") = Some n /\
  ActorUtils.getCritThreshold (power as_number) (Some "power")
  = Some (if n =? 0 then 20 else n) /\
  ActorUtils.getCritThreshold (power as_string) (Some "power") = Some n.
Proof.
  intros _. cbv zeta. unfold ActorUtils.getCritThreshold.
  cbn [sw5e_flags weaponCriticalThreshold powerCriticalThreshold
       truthy_value parseInt_value].
  change (String.eqb "weapon" "weapon") with true.
  change (String.eqb "power" "weapon") with false.
  change (String.eqb "power" "power") with true.
  rewrite (toString_truthy n), !parseInt_toString. cbn [andb].
  destruct (n =? 0); cbn [negb]; repeat split; reflexivity.
Qed.

Lemma getCritThreshold_number_or_string_witness :
  ActorUtils.getCritThreshold
    (Some (mkActor (Some (mkActorFlags (StrValue "19") NoValue))))
    (Some "weapon") = Some 19.
Proof.
  assert (H : Z.abs 19 <= MAX_SAFE_INTEGER) by discriminate.
  exact (proj1 (proj2 (getCritThreshold_number_or_string 19 NoValue H))).
Defined.

(** X15.  [ItemUtils.getCritThreshold] never returns more than 20: for an
    item it returns a number that is at most 20 and at most the actor's
    threshold for the type of the item, or NaN, and NaN exactly when the
    actor's threshold is NaN.  It returns [null] only without an item. *)
Theorem getCritThreshold_at_most_20 (item : Item) :
  match ItemUtils.getCritThreshold (Some item),
        ActorUtils.getCritThreshold (item_actor item) (Some (item_type item))
  with
  | Some (Some n), Some c => n <= 20 /\ n <= c
  | Some None, None => True
  | _, _ => False
  end.
Proof.
  unfold ItemUtils.getCritThreshold.
  destruct (ActorUtils.getCritThreshold (item_actor item)
              (Some (item_type item))) as [c|]; [lia | exact I].
Qed.

Lemma getCritThreshold_bound i :
  match ItemUtils.getCritThreshold (Some i) with
  | Some (Some n) => n <= 20
  | _ => True
  end.
Proof.
  unfold ItemUtils.getCritThreshold.
  destruct (ActorUtils.getCritThreshold (item_actor i)
              (Some (item_type i))) as [c|]; [lia | exact I].
Qed.

Lemma tally_positive q l d x :
  In (d, x) l -> q d x = true -> 0 < tally q l.
Proof.
  intros Hin Hq. apply in_split in Hin. destruct Hin as [l1 [l2 ->]].
  rewrite tally_app, tally_cons, Hq.
  pose proof (tally_nonneg q l1). pose proof (tally_nonneg q l2). lia.
Qed.

(** X16.  With the threshold that [ItemUtils.getCritThreshold] computes,
    for any item or none, [processRoll] reports a critical hit whenever a
    die of at most 20 faces shows an active result of 20 or more: neither
    an item threshold nor an actor flag, well-formed or not, takes the
    natural 20 away. *)
Theorem processRoll_natural_20 (item : option Item) (r : Roll) (d : Die)
    (x : DieResult) (bonus : option Roll) :
  In d (dice r) -> 1 < faces d <= 20 ->
  In x (results d) -> rerolled x = false -> 20 <= result x ->
  exists o,
    processRoll (Some r) (as_threshold (ItemUtils.getCritThreshold item))
      (CritBool true) bonus = Ret (Some o) /\
    isCrit o = true.
Proof.
  intros Hd Hf Hx Hre Hres. unfold processRoll.
  rewrite count_dice_tally by discriminate. cbn [js_bind].
  eexists. split; [reflexivity|]. cbn [isCrit fst].
  assert (Hthr : effective_threshold
                   (as_threshold (ItemUtils.getCritThreshold item)) d <= 20).
  { unfold effective_threshold.
    destruct item as [i|]; [|simpl; lia].
    pose proof (getCritThreshold_bound i) as Hb.
    destruct (ItemUtils.getCritThreshold (Some i)) as [[n|]|];
      cbn [as_threshold]; try lia.
    destruct (n =? 0); lia. }
  assert (Hpos : 0 < tally
            (is_high (as_threshold (ItemUtils.getCritThreshold item)))
            (counted (selected_by_code (CritBool true)) (dice r))).
  { apply (tally_positive _ _ d x).
    - unfold counted. apply in_flat_map. exists d. split; [exact Hd|].
      replace (faces d >? 1) with true by lia. cbn [andb selected_by_code
        loose_eq_true orb]. apply in_map. unfold active_results.
      apply filter_In. split; [exact Hx | now rewrite Hre].
    - unfold is_high. lia. }
  lia.
Qed.

Lemma processRoll_natural_20_witness :
  exists o,
    processRoll
      (Some (roll_of [DiceTerm (mkDie 1 20 [] [mkResult 20 false false]
                                  no_options)]))
      (as_threshold (ItemUtils.getCritThreshold
         (Some (mkItem (Some (mkActor (Some (mkActorFlags (StrValue "abc")
                                               NoValue))))
                       "weapon" (Some 19)))))
      (CritBool true) None = Ret (Some o) /\
    isCrit o = true.
Proof.
  assert (Hf : 1 < 20 <= 20) by (split; [reflexivity | discriminate]).
  assert (H20 : 20 <= 20) by discriminate.
  exact (processRoll_natural_20 _
           (roll_of [DiceTerm (mkDie 1 20 [] [mkResult 20 false false]
                                 no_options)])
           (mkDie 1 20 [] [mkResult 20 false false] no_options)
           (mkResult 20 false false) None
           (or_introl eq_refl) Hf (or_introl eq_refl) eq_refl H20).
Defined.

(** ** Whispers *)

(** X17.  What [getWhisperData] returns is decided by the effective roll
    mode, the argument when it is truthy and the core setting otherwise:
    the message is blind exactly under "blindroll", and then it is
    whispered to the GM recipients; under "selfroll" it is whispered to the
    current user alone; [whisper] stays undefined exactly under the modes
    other than "gmroll", "blindroll" and "selfroll"; [blind] is never
    [false]. *)
Theorem getWhisperData_modes {U : Type} (setting : string) (gms : list U)
    (userId : string) (rollMode : option string) :
  let d := getWhisperData setting gms userId rollMode in
  wd_rollMode d = (if truthy_str rollMode
                   then match rollMode with Some m => m | None => setting end
                   else setting) /\
  (blind d = Some true <-> wd_rollMode d = "blindroll") /\
  (blind d = Some true -> whisper d = Some (map UserObject gms)) /\
  (wd_rollMode d = "selfroll" -> whisper d = Some [UserId userId]) /\
  (whisper d = None <-> ~ In (wd_rollMode d) private_modes) /\
  blind d <> Some false.
Proof.
  cbv zeta. unfold getWhisperData.
  set (mode := match rollMode with
               | Some (String c s) => String c s
               | _ => setting
               end).
  assert (Hmode : mode = (if truthy_str rollMode
                          then match rollMode with
                               | Some m => m
                               | None => setting
                               end
                          else setting)).
  { unfold mode. destruct rollMode as [[|c s]|]; reflexivity. }
  rewrite <- Hmode. clear Hmode. generalize mode. clear mode. intros mode.
  unfold private_modes.
  destruct (String.eqb mode "blindroll") eqn:Eb.
  - apply String.eqb_eq in Eb. subst mode. cbn.
    repeat split; intros; try discriminate; try reflexivity.
    exfalso. match goal with H : ~ _ |- _ => apply H end. auto.
  - destruct (String.eqb mode "selfroll") eqn:Es.
    + apply String.eqb_eq in Es. subst mode. cbn.
      repeat split; intros; try discriminate; try reflexivity.
      exfalso. match goal with H : ~ _ |- _ => apply H end. auto.
    + apply String.eqb_neq in Eb. apply String.eqb_neq in Es.
      cbn [wd_rollMode whisper blind includes_str existsb].
      rewrite (proj2 (String.eqb_neq mode "blindroll") Eb).
      destruct (String.eqb mode "gmroll") eqn:Eg.
      * apply String.eqb_eq in Eg. subst mode. cbn.
        repeat split; intros; try discriminate; try reflexivity;
          try congruence.
        exfalso. match goal with H : ~ _ |- _ => apply H end. auto.
      * apply String.eqb_neq in Eg. cbn [orb].
        repeat split; intros; try discriminate; try reflexivity;
          try congruence.
        intros [H1|[H1|[H1|[]]]]; congruence.
Qed.

(** ** The dice sound *)

Lemma sound_step_invariant s e s' :
  sound_invariant s -> sound_step s e = Some s' -> sound_invariant s'.
Proof.
  unfold sound_invariant, sound_step.
  destruct s as [lock ts ps t0]. cbn [played timers _playSoundLock now].
  intros [Hsp Hinv]. destruct (event_time e <? t0) eqn:Et; [discriminate|].
  apply Z.ltb_ge in Et. destruct e as [t|t]; cbn [event_time] in Et.
  - intros H. inversion H; subst s'. clear H. unfold playDiceSound.
    cbn [played timers _playSoundLock now].
    destruct lock; cbn [played timers _playSoundLock now].
    + split; [exact Hsp|]. destruct ps as [|p ps]; [destruct Hinv; discriminate|].
      destruct Hinv as [Hp Hts]. split; [lia | exact Hts].
    + destruct ps as [|p ps].
      * destruct Hinv as [_ ->]. split; [exact I|]. split; [lia | reflexivity].
      * destruct Hinv as [Hp [-> Hgap]]. split; [split; [lia | exact Hsp]|].
        split; [lia | reflexivity].
  - unfold fire. cbn [played timers _playSoundLock now].
    destruct ts as [|due rest]; [discriminate|].
    destruct (due <=? t) eqn:Ed; [|discriminate].
    apply Z.leb_le in Ed. intros H. inversion H; subst s'. clear H.
    cbn [played timers _playSoundLock now]. split; [exact Hsp|].
    destruct ps as [|p ps]; [destruct Hinv; discriminate|].
    destruct Hinv as [Hp Hts]. destruct lock.
    + inversion Hts; subst. split; [lia|]. split; [reflexivity | lia].
    + destruct Hts; discriminate.
Qed.

Lemma sound_run_invariant evs : forall s s',
  sound_invariant s -> sound_run evs s = Some s' -> sound_invariant s'.
Proof.
  induction evs as [|e evs IH]; intros s s' Hs Hrun; simpl in Hrun.
  - inversion Hrun; subst. exact Hs.
  - destruct (sound_step s e) as [s1|] eqn:Hstep; [|discriminate].
    apply (IH s1 s'); [|exact Hrun].
    exact (sound_step_invariant s e s1 Hs Hstep).
Qed.

(** X18.  [playDiceSound] plays the sound at most once in 300 ms: however
    calls and timer callbacks follow one another from the start, two
    sounds are at least 300 ms apart, at most one timer is pending, and
    the lock is set exactly while one is. *)
Theorem playDiceSound_throttled (evs : list SoundEvent) :
  match sound_run evs silent with
  | Some s =>
      spaced (played s) /\
      (List.length (timers s) <= 1)%nat /\
      (_playSoundLock s = true <-> timers s <> [])
  | None => True
  end.
Proof.
  destruct (sound_run evs silent) as [s|] eqn:Hrun; [|exact I].
  assert (Hinit : sound_invariant silent).
  { split; [exact I|]. split; reflexivity. }
  destruct (sound_run_invariant evs silent s Hinit Hrun) as [Hsp Hinv].
  split; [exact Hsp|].
  destruct (played s) as [|p ps].
  - destruct Hinv as [Hl Ht]. rewrite Hl, Ht. simpl.
    split; [lia|]. split; [discriminate | congruence].
  - destruct Hinv as [_ Hinv]. destruct (_playSoundLock s).
    + rewrite Hinv. simpl. split; [lia|]. split; [discriminate | reflexivity].
    + destruct Hinv as [-> _]. simpl.
      split; [lia|]. split; [discriminate | congruence].
Qed.

(** ** The quick damage flags *)

Lemma array_set_end {A : Type} (a : array A) (i : nat) (x : A) :
  List.length a = i -> array_set a i x = a ++ [Some x].
Proof.
  intros <-. unfold array_set. rewrite Nat.ltb_irrefl, Nat.sub_diag.
  reflexivity.
Qed.

(** The loop appends one choice per round. *)
Lemma createFlags_loop_appends old oldAlt ty k : forall i new newAlt,
  List.length new = i -> List.length newAlt = i ->
  createFlags_loop k i (mkQuickDamage ty (Some old) (Some oldAlt)) new newAlt
  = Ret (new ++ map (fun j => Some (kept_choice old j)) (seq i k),
         newAlt ++ map (fun j => Some (kept_choice oldAlt j)) (seq i k)).
Proof.
  induction k as [|k IH]; intros i new newAlt Hn Ha.
  - simpl. now rewrite !app_nil_r.
  - cbn [createFlags_loop qd_value qd_altValue js_bind seq map].
    rewrite (array_set_end new i _ Hn), (array_set_end newAlt i _ Ha).
    rewrite IH by (rewrite List.length_app; simpl; lia).
    unfold kept_choice. now rewrite <- !app_assoc.
Qed.

(** X19.  For an item of a type that has quick damage flags,
    [createFlags] leaves one choice per damage part in
    [quickDamage.value] and in [quickDamage.altValue]: the two arrays
    are as long as [damage.parts], no entry is [null], an entry that the
    merged flags had is kept, [false] included, and every other entry is
    [true].  The other flags are those that [mergeObject] gave. *)
Theorem createFlags_quickDamage (F P : Type)
    (mergeObject : Flags F -> Flags F -> Flags F) (no_flags : F)
    (validItemTypes : list string) (allFlags : string -> option (Flags F))
    (d : ItemData F P) (baseFlags : Flags F)
    (q0 : QuickDamage) (ps : list P) (old oldAlt : array bool) :
  includes_str (idata_type d) validItemTypes = true ->
  allFlags (idata_type d ++ "Flags")%string = Some baseFlags ->
  quickDamage baseFlags = Some q0 ->
  idata_damage d = Some (mkDamage (Some ps)) ->
  let own := match idata_flags d with
             | Some (Some f) => f
             | _ => mkFlags None no_flags
             end in
  let merged := mergeObject baseFlags own in
  match quickDamage merged with
  | Some q => qd_value q = Some old /\ qd_altValue q = Some oldAlt
  | None => old = [] /\ oldAlt = []
  end ->
  exists flags q d',
    createFlags F P mergeObject no_flags validItemTypes allFlags (Some d)
    = Ret (Some flags, Some d') /\
    idata_flags d' <> None /\
    other_flags flags = other_flags merged /\
    quickDamage flags = Some q /\
    qd_value q = Some (map (fun i => Some (kept_choice old i))
                         (seq 0 (List.length ps))) /\
    qd_altValue q = Some (map (fun i => Some (kept_choice oldAlt i))
                            (seq 0 (List.length ps))).
Proof.
  intros Hvalid Hbase Hq0 Hdmg own merged Hold.
  unfold createFlags. rewrite Hvalid, Hbase, Hq0, Hdmg. cbn [negb parts js_bind].
  assert (Hown : match match idata_flags d with
                       | Some f => f
                       | None => None
                       end with
                 | Some f => f
                 | None => mkFlags None no_flags
                 end = own).
  { unfold own. destruct (idata_flags d) as [[f|]|]; reflexivity. }
  rewrite Hown. fold merged.
  assert (Hq : exists ty,
    match quickDamage merged with
    | Some q => q
    | None => mkQuickDamage (Some "Array") (Some []) (Some [])
    end = mkQuickDamage ty (Some old) (Some oldAlt)).
  { destruct (quickDamage merged) as [[ty v a]|].
    - destruct Hold as [Hv Ha]. simpl in Hv, Ha. subst. now exists ty.
    - destruct Hold as [-> ->]. now eexists. }
  destruct Hq as [ty Hq]. rewrite Hq.
  rewrite (createFlags_loop_appends old oldAlt ty (List.length ps) 0 [] []
             eq_refl eq_refl).
  cbn [js_bind fst snd app].
  eexists. eexists. eexists. split; [reflexivity|].
  cbn [idata_flags other_flags quickDamage qd_value qd_altValue].
  repeat split; discriminate.
Qed.

Lemma createFlags_quickDamage_witness :
  exists flags q d',
    createFlags unit nat
      (fun base own => mkFlags
         (match quickDamage own with
          | Some q => Some q
          | None => quickDamage base
          end) tt)
      tt ["weapon"]
      (fun key => if String.eqb key "weaponFlags"
                  then Some (mkFlags (Some (mkQuickDamage (Some "Array")
                                              (Some []) (Some []))) tt)
                  else None)
      (Some (mkItemData "weapon"
               (Some (Some (mkFlags
                              (Some (mkQuickDamage (Some "Array")
                                       (Some [Some false; None; Some true])
                                       (Some [])))
                              tt)))
               (Some (mkDamage (Some [1; 2]%nat)))))
    = Ret (Some flags, Some d') /\
    quickDamage flags = Some q /\
    qd_value q = Some [Some false; Some true] /\
    qd_altValue q = Some [Some true; Some true].
Proof.
  pose (merge := fun base own : Flags unit => mkFlags
         (match quickDamage own with
          | Some q => Some q
          | None => quickDamage base
          end) tt).
  pose (cfg := fun key => if String.eqb key "weaponFlags"
                  then Some (mkFlags (Some (mkQuickDamage (Some "Array")
                                              (Some []) (Some []))) tt)
                  else None).
  pose (d := mkItemData (P := nat) "weapon"
               (Some (Some (mkFlags
                              (Some (mkQuickDamage (Some "Array")
                                       (Some [Some false; None; Some true])
                                       (Some [])))
                              tt)))
               (Some (mkDamage (Some [1; 2]%nat)))).
  destruct (createFlags_quickDamage unit nat merge tt ["weapon"] cfg d
              (mkFlags (Some (mkQuickDamage (Some "Array") (Some [])
                                (Some []))) tt)
              (mkQuickDamage (Some "Array") (Some []) (Some []))
              [1; 2]%nat [Some false; None; Some true] []
              eq_refl eq_refl eq_refl eq_refl (conj eq_refl eq_refl))
    as [flags [q [d' [Hret [_ [_ [Hq [Hv Ha]]]]]]]].
  exists flags, q, d'.
  exact (conj Hret (conj Hq (conj Hv Ha))).
Defined.
